(** * Ambit 0D flow core: shallow embedding and checked properties

    Embedded sources:
    - [modules/solver/solver_nonlin.py]  class [solver_nonlinear_ode]
    - [modules/flow0d/flow0d.py]         classes [Flow0DProblem], [Flow0DSolver]
    - [demos/flow0d/bleed.py]            class [time_curves], function [param]

    Conventions.  Python numbers ([int] and [float]) that only take part in
    comparisons and rational arithmetic are exact rationals [Q]; the
    activation curves, which call [np.cos], are over the reals [R].  Python
    dictionaries keyed by strings are [gmap string _].  A Python exception is
    a value of [exn]; a call that can raise returns [result].  Wall-clock
    reads ([time.time]) and PETSc [destroy] calls carry no data and are left
    out. *)

From Stdlib Require Import ZArith QArith Qabs Qround List String Lia.
From Stdlib Require Import Lqa Reals Lra.
From stdpp Require Import base option gmap strings pretty list_numbers.

Local Open Scope Z_scope.
Local Open Scope string_scope.

(** ** Python values, exceptions, dictionaries *)

Module Py.

#[warnings="-register-all"]
Inductive pyval : Type :=
| PyNone
| PyBool (b : bool)
| PyNum (q : Q)
| PyStr (s : string)
| PyList (l : list pyval)
| PyDict (kv : list (string * pyval)).

Inductive exn : Type :=
| KeyError (key : string)
| IndexError
| TypeError
| NameError (msg : string)
| RuntimeError (fmt : string) (arg : Z)
| ZeroDivisionError.

Inductive result (A : Type) : Type :=
| Ok (a : A)
| Raise (e : exn).
Arguments Ok {A} a.
Arguments Raise {A} e.

Definition bind {A B : Type} (m : result A) (k : A -> result B) : result B :=
  match m with
  | Ok a => k a
  | Raise e => Raise e
  end.

(** [d[k]] : raises [KeyError] when the key is missing. *)
Definition getitem (d : gmap string pyval) (k : string) : result pyval :=
  match d !! k with
  | Some v => Ok v
  | None => Raise (KeyError k)
  end.

(** [try: x = d[k]  except: x = dflt] *)
Definition try_get (d : gmap string pyval) (k : string) (dflt : pyval) : pyval :=
  match getitem d k with
  | Ok v => v
  | Raise _ => dflt
  end.

(** The number a value stands for in a comparison such as [it < maxiter];
    [bool] is a subclass of [int], everything else raises [TypeError]. *)
Definition num_of (v : pyval) : option Q :=
  match v with
  | PyNum q => Some q
  | PyBool true => Some 1%Q
  | PyBool false => Some 0%Q
  | _ => None
  end.

Definition Qltb (x y : Q) : bool := negb (Qle_bool y x).

End Py.

Export Py.

Declare Scope py_scope.
Notation "x <- m ;; k" := (bind m (fun x => k))
  (at level 100, m at next level, right associativity) : py_scope.

(** ** [solver_nonlin.py]: the Newton solver for pure ODE problems *)

Module SolverNonlin.

Local Open Scope py_scope.

(** What the solver asks of PETSc vectors, matrices and the KSP object. *)
Class Petsc (Vec Mat : Type) : Type := {
  vec_neg : Vec -> Vec;                 (* [-r] *)
  vec_axpy : Q -> Vec -> Vec -> Vec;    (* [y.axpy(alpha, x)] is [vec_axpy alpha x y] *)
  vec_norm : Vec -> Q;                  (* [v.norm()] *)
  lu_solve : pyval -> Mat -> Vec -> Vec (* [preonly] + [lu] with the given factor package *)
}.

(** What the solver asks of the problem object [pb]. *)
Class OdeProblem (Pb Vec Mat : Type) : Type := {
  pb_s : Pb -> Vec;
  pb_set_s : Vec -> Pb -> Pb;
  problem_physics : Pb -> string;
  assemble_residual : Pb -> Q -> Vec;
  assemble_stiffness : Pb -> Q -> Mat
}.

(** [ioparams.check_params_solver] and [sol_utils.check_converged] live in
    modules that are not part of the embedded sources; the solver is
    parametric in them. *)
Class Collaborators : Type := {
  check_params_solver : gmap string pyval -> result unit;
  check_converged :
    gmap string Q -> gmap string Q -> gmap string pyval -> string -> result bool
}.

(** Screen output and the PETSc calls of one [newton] run, in order. *)
Inductive event : Type :=
| EvPrintHeader
| EvPrintIter (it : Z)
| EvPrintSeparator
| EvResidual
| EvStiffness
| EvLinSolve
| EvAxpy (alpha : Q).

Definition is_solve (e : event) : bool :=
  match e with EvLinSolve => true | _ => false end.

Definition is_stiffness (e : event) : bool :=
  match e with EvStiffness => true | _ => false end.

(** Number of linear solves and of Jacobian assemblies in a log. *)
Definition solves (log : list event) : nat := length (List.filter is_solve log).
Definition assemblies (log : list event) : nat := length (List.filter is_stiffness log).

(** Every state update in the log is a full Newton step, [axpy(1.0, ds)]. *)
Definition full_steps (log : list event) : Prop :=
  Forall (fun e => match e with EvAxpy alpha => alpha = 1%Q | _ => True end) log.

Record ksp_conf : Type := {
  ksp_type : string;
  pc_type : string;
  factor_solver_type : pyval
}.

Record solver_nonlinear_ode (Pb : Type) : Type := {
  pb : Pb;
  nprob : Z;
  ptype : string;
  maxiter : pyval;
  direct_solver : pyval;
  tolres : pyval;
  tolinc : pyval;
  tolerances : gmap string pyval;
  resnorms : gmap string Q;
  incnorms : gmap string Q;
  PTC : bool;
  solvetype : string;
  ksp : ksp_conf;
  ni : Z;
  li : Z
}.
Arguments pb {Pb} _.
Arguments nprob {Pb} _.
Arguments ptype {Pb} _.
Arguments maxiter {Pb} _.
Arguments direct_solver {Pb} _.
Arguments tolres {Pb} _.
Arguments tolinc {Pb} _.
Arguments tolerances {Pb} _.
Arguments resnorms {Pb} _.
Arguments incnorms {Pb} _.
Arguments PTC {Pb} _.
Arguments solvetype {Pb} _.
Arguments ksp {Pb} _.
Arguments ni {Pb} _.
Arguments li {Pb} _.

Section Solver.
Context {Pb Vec Mat : Type}.
Context {petsc : Petsc Vec Mat} {problem : OdeProblem Pb Vec Mat}.
Context {collab : Collaborators}.

(** [initialize_petsc_solver] *)
Definition initialize_petsc_solver (direct_solver : pyval) : ksp_conf :=
  {| ksp_type := "preonly"; pc_type := "lu"; factor_solver_type := direct_solver |}.

(** [solver_nonlinear_ode.__init__(self, pb, solver_params)].  [ni] and [li]
    do not exist before the first [newton]; they start at 0 here. *)
Definition init (pbs : list Pb) (solver_params : gmap string pyval)
  : result (solver_nonlinear_ode Pb) :=
  _ <- check_params_solver solver_params ;;
  pb0 <- match pbs with
         | p :: _ => Ok p
         | [] => Raise IndexError
         end ;;
  let maxiter_ := try_get solver_params "maxiter" (PyNum 25) in
  let direct_solver_ := try_get solver_params "direct_solver" (PyStr "mumps") in
  tolres_ <- getitem solver_params "tol_res" ;;
  tolinc_ <- getitem solver_params "tol_inc" ;;
  Ok {| pb := pb0;
        nprob := 1;
        ptype := problem_physics pb0;
        maxiter := maxiter_;
        direct_solver := direct_solver_;
        tolres := tolres_;
        tolinc := tolinc_;
        tolerances := <["res1" := tolres_]> (<["inc1" := tolinc_]> ∅);
        resnorms := ∅;
        incnorms := ∅;
        PTC := false;
        solvetype := "direct";
        ksp := initialize_petsc_solver direct_solver_;
        ni := 0;
        li := 0 |}.

Definition set_pb (p : Pb) (self : solver_nonlinear_ode Pb) : solver_nonlinear_ode Pb :=
  {| pb := p; nprob := nprob self; ptype := ptype self; maxiter := maxiter self;
     direct_solver := direct_solver self; tolres := tolres self; tolinc := tolinc self;
     tolerances := tolerances self; resnorms := resnorms self;
     incnorms := incnorms self; PTC := PTC self; solvetype := solvetype self;
     ksp := ksp self; ni := ni self; li := li self |}.

Definition set_norms (rn inn : gmap string Q) (self : solver_nonlinear_ode Pb)
  : solver_nonlinear_ode Pb :=
  {| pb := pb self; nprob := nprob self; ptype := ptype self; maxiter := maxiter self;
     direct_solver := direct_solver self; tolres := tolres self; tolinc := tolinc self;
     tolerances := tolerances self; resnorms := rn;
     incnorms := inn; PTC := PTC self; solvetype := solvetype self;
     ksp := ksp self; ni := ni self; li := li self |}.

Definition set_counters (n l : Z) (self : solver_nonlinear_ode Pb)
  : solver_nonlinear_ode Pb :=
  {| pb := pb self; nprob := nprob self; ptype := ptype self; maxiter := maxiter self;
     direct_solver := direct_solver self; tolres := tolres self; tolinc := tolinc self;
     tolerances := tolerances self; resnorms := resnorms self;
     incnorms := incnorms self; PTC := PTC self; solvetype := solvetype self;
     ksp := ksp self; ni := n; li := l |}.

Definition when (b : bool) (es : list event) : list event := if b then es else [].

Definition newton_fmt : string :=
  "Newton for ODE system did not converge after %i iterations!".

(** What a [newton] call leaves behind: how it ended, the solver object as
    mutated so far, and the events so far (oldest first). *)
Definition outcome : Type := result unit * solver_nonlinear_ode Pb * list event.

(** The solver between two passes of the loop: the residual [r] of the
    current [pb.s], the solver object, the events so far. *)
Definition loop_state : Type := Vec * solver_nonlinear_ode Pb * list event.

(** Lines 802-820: everything before the [while]. *)
Definition newton_start (self : solver_nonlinear_ode Pb) (t : Q) (print_iter : bool)
  : loop_state :=
  let it := 0 in
  let log0 := when print_iter [EvPrintHeader] in
  let self0 := set_counters 0 0 self in
  (* compute initial residual, get initial residual norm *)
  let r := assemble_residual (pb self0) t in
  let self1 := set_norms (<["res1" := vec_norm r]> (resnorms self0)) (incnorms self0) self0 in
  (r, self1, (log0 ++ [EvResidual] ++ when print_iter [EvPrintIter it])%list).

(** Lines 824-854: one pass of the loop body, up to the convergence check. *)
Definition newton_pass (t : Q) (print_iter : bool) (it : Z) (st : loop_state)
  : loop_state :=
  let '(r, self, log) := st in
  (* compute Jacobian, solve linear system *)
  let K := assemble_stiffness (pb self) t in
  let ds := lu_solve (factor_solver_type (ksp self)) K (vec_neg r) in
  (* update solution *)
  let self1 := set_pb (pb_set_s (vec_axpy 1 ds (pb_s (pb self))) (pb self)) self in
  (* compute new residual after updated solution, get norms *)
  let r' := assemble_residual (pb self1) t in
  let self2 := set_norms (<["res1" := vec_norm r']> (resnorms self1))
                         (<["inc1" := vec_norm ds]> (incnorms self1)) self1 in
  (r', self2,
   (log ++ [EvStiffness; EvLinSolve; EvAxpy 1; EvResidual]
        ++ when print_iter [EvPrintIter it])%list).

(** Line 859: the convergence check on the norms the solver holds. *)
Definition converged (st : loop_state) : result bool :=
  let '(_, self, _) := st in
  check_converged (resnorms self) (incnorms self) (tolerances self) "flow0d".

(** The [while it < self.maxiter: ... else: raise] loop of [newton].  [fuel]
    bounds the number of passes; [None] means the bound was too small. *)
Fixpoint newton_while (fuel : nat) (t : Q) (print_iter sub : bool) (it : Z)
    (st : loop_state) : option outcome :=
  let '(_, self, log) := st in
  match num_of (maxiter self) with
  | None => Some (Raise TypeError, self, log)
  | Some m =>
    if Qltb (inject_Z it) m then
      match fuel with
      | O => None
      | S fuel' =>
        let st' := newton_pass t print_iter it st in
        let '(_, self2, log2) := st' in
        let it' := it + 1 in
        (* check if converged *)
        match converged st' with
        | Raise e => Some (Raise e, self2, log2)
        | Ok true =>
          Some (Ok tt, set_counters (it' - 1) (li self2) self2,
                (log2 ++ when (print_iter && sub) [EvPrintSeparator])%list)
        | Ok false => newton_while fuel' t print_iter sub it' st'
        end
      end
    else Some (Raise (RuntimeError newton_fmt it), self, log)
  end.

(** Passes of the loop that [maxiter] allows when [it] starts at 1. *)
Definition newton_fuel (self : solver_nonlinear_ode Pb) : nat :=
  match num_of (maxiter self) with
  | Some m => Z.to_nat (Qceiling m - 1)
  | None => O
  end.

(** [solver_nonlinear_ode.newton(self, t, print_iter=True, sub=False)] *)
Definition newton (self : solver_nonlinear_ode Pb) (t : Q) (print_iter sub : bool)
  : option outcome :=
  newton_while (newton_fuel self) t print_iter sub 1 (newton_start self t print_iter).

(** The loop state after [k] passes that all failed the check, the first
    pass carrying iteration index [it]. *)
Fixpoint newton_passes (k : nat) (t : Q) (print_iter : bool) (it : Z) (st : loop_state)
  : loop_state :=
  match k with
  | O => st
  | S k' => newton_passes k' t print_iter (it + 1) (newton_pass t print_iter it st)
  end.

End Solver.

(** Modelled from the spec: [sol_utils.check_converged] for [ptype='flow0d'];
    the module [solver_utils] is not among the embedded sources.  Spec 4.5:
    "both the residual norm and the increment norm must fall under configured
    absolute tolerances".  A missing entry raises [KeyError], a tolerance that
    is not a number raises [TypeError]. *)
Definition check_converged_spec (resnorms incnorms : gmap string Q)
    (tolerances : gmap string pyval) (ptype : string) : result bool :=
  match resnorms !! "res1", tolerances !! "res1", incnorms !! "inc1", tolerances !! "inc1" with
  | Some res, Some tr, Some inc, Some ti =>
    match num_of tr, num_of ti with
    | Some tolr, Some toli => Ok (Qltb res tolr && Qltb inc toli)
    | _, _ => Raise TypeError
    end
  | None, _, _, _ => Raise (KeyError "res1")
  | _, None, _, _ => Raise (KeyError "res1")
  | _, _, None, _ => Raise (KeyError "inc1")
  | _, _, _, None => Raise (KeyError "inc1")
  end.

(** Collaborators with the spec's convergence test and a parameter check
    that accepts every record. *)
Definition spec_collaborators : Collaborators :=
  {| check_params_solver := fun _ => Ok tt;
     check_converged := check_converged_spec |}.

(** A scalar test problem: state [s : Q], residual [s - target], Jacobian 1.
    One Newton step lands on [target] exactly. *)
Record scalar_pb : Type := { sp_s : Q; sp_target : Q }.

Definition scalar_petsc : Petsc Q Q :=
  {| vec_neg := Qopp;
     vec_axpy := fun alpha x y => Qred (y + alpha * x)%Q;
     vec_norm := Qabs;
     lu_solve := fun _ K rhs => Qred (rhs / K)%Q |}.

Definition scalar_problem : OdeProblem scalar_pb Q Q :=
  {| pb_s := sp_s;
     pb_set_s := fun v p => {| sp_s := v; sp_target := sp_target p |};
     problem_physics := fun _ => "flow0d";
     assemble_residual := fun p _ => Qred (sp_s p - sp_target p)%Q;
     assemble_stiffness := fun _ _ => 1%Q |}.

(** A problem whose Newton iteration never settles: residual is constantly 1. *)
Definition stuck_problem : OdeProblem scalar_pb Q Q :=
  {| pb_s := sp_s;
     pb_set_s := fun v p => {| sp_s := v; sp_target := sp_target p |};
     problem_physics := fun _ => "flow0d";
     assemble_residual := fun _ _ => 1%Q;
     assemble_stiffness := fun _ _ => 1%Q |}.

Definition demo_solver_params : gmap string pyval :=
  <["tol_res" := PyNum (1 # 100000000)]> (<["tol_inc" := PyNum (1 # 100000000)]> ∅).

(** The solver [__init__] builds for a scalar problem from [params]. *)
Definition scalar_solver (p : scalar_pb) (maxiter_ : pyval) : solver_nonlinear_ode scalar_pb :=
  {| pb := p; nprob := 1; ptype := "flow0d";
     maxiter := maxiter_; direct_solver := PyStr "mumps";
     tolres := PyNum (1 # 100000000); tolinc := PyNum (1 # 100000000);
     tolerances := <["res1" := PyNum (1 # 100000000)]>
                   (<["inc1" := PyNum (1 # 100000000)]> ∅);
     resnorms := ∅; incnorms := ∅;
     PTC := false; solvetype := "direct";
     ksp := {| ksp_type := "preonly"; pc_type := "lu";
               factor_solver_type := PyStr "mumps" |};
     ni := 0; li := 0 |}.

Definition p_start : scalar_pb := {| sp_s := 0; sp_target := 3 |}.
Definition p_solved : scalar_pb := {| sp_s := 3; sp_target := 3 |}.

(** The solver after a first [newton] call that took [p_start] to its
    solution in two passes: both norms it holds are 0. *)
Definition solved_solver : solver_nonlinear_ode scalar_pb :=
  set_counters 2 0
    (set_norms (<["res1" := 0%Q]> ∅) (<["inc1" := 0%Q]> ∅)
       (set_pb p_solved (scalar_solver p_start (PyNum 25)))).

Definition one_pass_log : list event :=
  [EvPrintHeader; EvResidual; EvPrintIter 0;
   EvStiffness; EvLinSolve; EvAxpy 1; EvResidual; EvPrintIter 1].

Definition two_pass_log : list event :=
  (one_pass_log ++ [EvStiffness; EvLinSolve; EvAxpy 1; EvResidual; EvPrintIter 2])%list.

(** Build a solver for one scalar problem and call [newton] (at time 0, with
    printing) [calls] times in a row. *)
Fixpoint newton_again (prob : OdeProblem scalar_pb Q Q) (calls : nat)
    (self : solver_nonlinear_ode scalar_pb)
  : option (result unit * solver_nonlinear_ode scalar_pb * list event) :=
  match calls with
  | O => Some (Ok tt, self, [])
  | S n =>
    match newton_again prob n self with
    | Some (Ok _, self', _) =>
      newton (petsc := scalar_petsc) (problem := prob) (collab := spec_collaborators)
             self' 0 true false
    | other => other
    end
  end.

Definition scalar_run (prob : OdeProblem scalar_pb Q Q) (params : gmap string pyval)
    (p : scalar_pb) (calls : nat)
  : option (result unit * solver_nonlinear_ode scalar_pb * list event) :=
  match init (problem := prob) (collab := spec_collaborators) [p] params with
  | Ok self => newton_again prob calls self
  | Raise e => None
  end.

Definition is_residual (e : event) : bool :=
  match e with EvResidual => true | _ => false end.

(** Number of residual assemblies in a log. *)
Definition residuals (log : list event) : nat := length (List.filter is_residual log).

(** What [newton] never writes: everything on the solver object except the
    problem state, the norms and the iteration counters. *)
Definition same_settings {Pb : Type} (a b : solver_nonlinear_ode Pb) : Prop :=
  nprob a = nprob b /\ ptype a = ptype b /\ maxiter a = maxiter b
  /\ direct_solver a = direct_solver b /\ tolres a = tolres b /\ tolinc a = tolinc b
  /\ tolerances a = tolerances b /\ PTC a = PTC b /\ solvetype a = solvetype b
  /\ ksp a = ksp b.

End SolverNonlin.

(** ** [flow0d.py]: the 0D flow problem and its time loop *)

Module Flow0D.

Local Open Scope py_scope.

(** The model classes [Flow0DProblem.__init__] can instantiate. *)
Inductive model_class : Type :=
| cardiovascular0D2elwindkessel
| cardiovascular0D4elwindkesselLsZ
| cardiovascular0D4elwindkesselLpZ
| cardiovascular0Dsyspul
| cardiovascular0Dsyspulcap
| cardiovascular0Dsyspulcap2
| cardiovascular0Dsyspulcaprespir.

(** A constructor call: the class and the arguments handed to it.  The
    Windkessel classes receive no chamber or valve arguments. *)
Record model_call : Type := {
  mc_class : model_class;
  mc_theta : pyval;
  mc_parameters : pyval;
  mc_chmodels : option pyval;
  mc_chinterf : option pyval;
  mc_prescrpath : option pyval;
  mc_have_elast : option pyval;
  mc_cq : pyval;
  mc_valvelaw : option pyval
}.

(** What [problem_base.__init__] leaves on the object. *)
Record base_conf : Type := {
  problem_type : string;
  t_init : Q;
  dt : Q;
  numstep : Z;
  restart_step : Z;
  numstep_stop : option Z   (* [self.pbs.numstep_stop] when there is a [pbs] *)
}.

(** New values and history of the ODE state, as handed to the solver and to
    [cardvasc0D.update]. *)
Record ode_vecs (Vec : Type) : Type := {
  s : Vec; s_old : Vec;
  df : Vec; df_old : Vec;
  f : Vec; f_old : Vec;
  aux : Vec; aux_old : Vec
}.
Arguments s {Vec} _.
Arguments s_old {Vec} _.
Arguments df {Vec} _.
Arguments df_old {Vec} _.
Arguments f {Vec} _.
Arguments f_old {Vec} _.
Arguments aux {Vec} _.
Arguments aux_old {Vec} _.

(** Screen and file output of the time loop, and the calls to the cycle
    check with the tolerance and check type they carry. *)
Inductive out_event (Vec : Type) : Type :=
| PrintToScreen (s_mid aux_mid : Vec)
| PrintTimestep (N : Z) (t : Q)
| CallCycleCheck (eps check induce_pert_after_cycl : pyval)
| WriteOutput (t : Q) (s_mid aux_mid : Vec)
| WriteRestart (N : Z)
| PrintPeriodic (cycles : Z) (err : Q).
Arguments PrintToScreen {Vec} _ _.
Arguments PrintTimestep {Vec} _ _.
Arguments CallCycleCheck {Vec} _ _ _.
Arguments WriteOutput {Vec} _ _ _.
Arguments WriteRestart {Vec} _.
Arguments PrintPeriodic {Vec} _ _.

(** Classes and functions of other modules that [flow0d.py] calls.  Their
    types say what each call is handed and what it can change. *)
Class Setup (Model Vec : Type) : Type := {
  problem_base_init : gmap string pyval -> gmap string pyval -> result base_conf;
  construct : model_call -> result Model;
  createVecLeft : Model -> Vec;
  set_initial_from_file : Model -> pyval -> result pyval;
  initialize : Model -> Vec -> pyval -> result Vec;
  ti_cycleerror : Q  (* first entry of [ti.cycleerror] *)
}.

Class Integrator (Model Vec : Type) : Type := {
  (* [cardvasc0D.evaluate(s_old, dt, t_init, df_old, f_old, None, c, aux_old)] *)
  evaluate : Model -> Q -> Q -> list Q -> Vec -> Vec * Vec * Vec;
  (* [solnln.newton(s, t)]: reads the state and its history, writes the new values *)
  newton : Model -> Q -> list Q -> Q -> ode_vecs Vec -> result (ode_vecs Vec);
  (* [midpoint_avg(var, var_old, var_mid)] writes [var_mid] *)
  midpoint_avg : Model -> Vec -> Vec -> Vec -> Vec;
  (* [update(s, df, f, s_old, df_old, f_old, aux, aux_old)] *)
  update : Model -> ode_vecs Vec -> ode_vecs Vec;
  (* [cardvasc0D.read_restart(path, name, rst, vec)] fills [vec] from a file *)
  read_restart : Model -> pyval -> string -> Z -> Vec -> Vec;
  (* the two [np.loadtxt] reads of the cycle data file *)
  load_cycledata : pyval -> string -> Z -> Z * Q
}.

Class CycleMonitor (Model Vec : Type) : Type := {
  T_cycl : Model -> Q;
  (* [cycle_check(s, sTc, sTc_old, t, cycle, cycleerror, eps, check=, inioutpath=,
      nm=, induce_pert_after_cycl=)] returns [is_periodic] and writes the
      snapshots, the cycle counter and the cycle error *)
  cycle_check : Model -> Vec -> Vec -> Vec -> Q -> Z -> Q -> pyval -> pyval -> pyval
                -> pyval -> pyval -> result (bool * (Vec * Vec * Z * Q));
  (* [induce_perturbation(perturb_type, cycle, perturb_after_cylce)] changes the model *)
  induce_perturbation : Model -> pyval -> Z -> pyval -> result Model
}.

(** The attributes [Flow0DProblem.__init__] sets once. *)
Record flow0d_conf : Type := {
  base : base_conf;
  problem_physics : string;
  time_params_ : gmap string pyval;
  write_results_every_0D : pyval;
  write_restart_every : pyval;
  output_path_0D : pyval;
  cq : pyval;
  eps_periodic : pyval;
  periodic_checktype : pyval;
  prescribed_variables : pyval;
  perturb_type : pyval;
  perturb_after_cylce : pyval;
  built_by : model_call;
  theta_ost : pyval;
  time_curves : option (Q -> Q)  (* [ti.timecurves(1)], when curves are given *)
}.

(** The problem object: configuration, and everything the time loop and
    restart change. *)
Record Flow0DProblem (Model Vec : Type) : Type := {
  conf : flow0d_conf;
  simname : pyval;
  t_init_ : Q;
  cardvasc0D : Model;
  vecs : ode_vecs Vec;
  s_mid : Vec; aux_mid : Vec;
  sTc : Vec; sTc_old : Vec;
  s_set : Vec;
  c : list Q;
  cycle : Z; cycleerror : Q;
  out : list (out_event Vec)
}.
Arguments conf {Model Vec} _.
Arguments simname {Model Vec} _.
Arguments t_init_ {Model Vec} _.
Arguments cardvasc0D {Model Vec} _.
Arguments vecs {Model Vec} _.
Arguments s_mid {Model Vec} _.
Arguments aux_mid {Model Vec} _.
Arguments sTc {Model Vec} _.
Arguments sTc_old {Model Vec} _.
Arguments s_set {Model Vec} _.
Arguments c {Model Vec} _.
Arguments cycle {Model Vec} _.
Arguments cycleerror {Model Vec} _.
Arguments out {Model Vec} _.

(** [try: x = d[k]  except: x = d[k']] : the handler itself can raise. *)
Definition try_get_else (d : gmap string pyval) (k k' : string) : result pyval :=
  match getitem d k with
  | Ok v => Ok v
  | Raise _ => getitem d k'
  end.

Definition is_none (v : pyval) : bool :=
  match v with PyNone => true | _ => false end.

(** [v == 'tag'] for a string literal. *)
Definition eq_str (v : pyval) (tag : string) : bool :=
  match v with PyStr x => String.eqb x tag | _ => false end.

(** Truth value of [initial_file] in [if initial_file:]. *)
Definition truthy (v : pyval) : bool :=
  match v with
  | PyNone => false
  | PyBool b => b
  | PyNum q => negb (Qeq_bool q 0)
  | PyStr x => negb (String.eqb x "")
  | PyList l => match l with [] => false | _ => true end
  | PyDict kv => match kv with [] => false | _ => true end
  end.

Definition default_chamber_models : pyval :=
  PyDict [("lv", PyStr "0D_elast"); ("rv", PyStr "0D_elast");
          ("la", PyStr "0D_elast"); ("ra", PyStr "0D_elast")].

Definition default_chamber_interfaces : pyval :=
  PyDict [("lv", PyNum 1); ("rv", PyNum 1); ("la", PyNum 1); ("ra", PyNum 1)].

(** Lines 82-105: which class the tag selects, if any. *)
Definition class_of_modeltype (tag : pyval) : option (model_class * bool) :=
  if eq_str tag "2elwindkessel" then Some (cardiovascular0D2elwindkessel, false)
  else if eq_str tag "4elwindkesselLsZ" then Some (cardiovascular0D4elwindkesselLsZ, false)
  else if eq_str tag "4elwindkesselLpZ" then Some (cardiovascular0D4elwindkesselLpZ, false)
  else if eq_str tag "syspul" then Some (cardiovascular0Dsyspul, true)
  else if eq_str tag "syspulcap" then Some (cardiovascular0Dsyspulcap, true)
  else if eq_str tag "syspulcap2" then Some (cardiovascular0Dsyspulcap2, true)
  else if eq_str tag "syspulcaprespir" then Some (cardiovascular0Dsyspulcaprespir, true)
  else None.

Definition unknown_modeltype : exn := NameError "Unknown 0D modeltype!".

(** The recognised tags and the class each one stands for. *)
Definition model_table : list (string * model_class) :=
  [("2elwindkessel", cardiovascular0D2elwindkessel);
   ("4elwindkesselLsZ", cardiovascular0D4elwindkesselLsZ);
   ("4elwindkesselLpZ", cardiovascular0D4elwindkesselLpZ);
   ("syspul", cardiovascular0Dsyspul);
   ("syspulcap", cardiovascular0Dsyspulcap);
   ("syspulcap2", cardiovascular0Dsyspulcap2);
   ("syspulcaprespir", cardiovascular0Dsyspulcaprespir)].

(** The configuration apart from the model tag is usable: the base class
    accepts it and the mandatory output keys are there. *)
Definition io_well_formed (io_params : gmap string pyval) : Prop :=
  is_Some (io_params !! "simname")
  /\ (is_Some (io_params !! "write_results_every_0D")
      \/ is_Some (io_params !! "write_results_every"))
  /\ (is_Some (io_params !! "output_path_0D") \/ is_Some (io_params !! "output_path")).

Section Problem.
Context {Model Vec : Type} {setup : Setup Model Vec}.

(** Lines 82-105: the [if]/[elif] chain on [model_params['modeltype']] and
    the constructor call of the branch taken. *)
Definition model_dispatch (time_params model_params : gmap string pyval)
    (chamber_models chamber_interfaces prescribed_path have_elastance valvelaw cq_ : pyval)
  : result model_call :=
  tag <- getitem model_params "modeltype" ;;
  match class_of_modeltype tag with
  | None => Raise unknown_modeltype
  | Some (cls, closed_loop) =>
    theta <- getitem time_params "theta_ost" ;;
    parameters <- getitem model_params "parameters" ;;
    let opt (v : pyval) := if closed_loop then Some v else None in
    Ok {| mc_class := cls;
          mc_theta := theta;
          mc_parameters := parameters;
          mc_chmodels := opt chamber_models;
          mc_chinterf := opt chamber_interfaces;
          mc_prescrpath := opt prescribed_path;
          mc_have_elast := opt have_elastance;
          mc_cq := cq_;
          mc_valvelaw := opt valvelaw |}
  end.

(** [Flow0DProblem.__init__(io_params, time_params, model_params, time_curves,
    coupling_params)].  The cycle counter of the time-integration object
    starts at 1 (spec 3: "current cycle index, starting at 1"). *)
Definition Flow0DProblem_init (io_params time_params model_params : gmap string pyval)
    (time_curves_ : option (Q -> Q)) (coupling_params : gmap string pyval)
  : result (Flow0DProblem Model Vec) :=
  base_ <- problem_base_init io_params time_params ;;
  simname_ <- getitem io_params "simname" ;;
  let chamber_models := try_get model_params "chamber_models" default_chamber_models in
  let chamber_interfaces :=
    try_get model_params "chamber_interfaces" default_chamber_interfaces in
  let prescribed_path := try_get io_params "prescribed_path" PyNone in
  let initial_file := try_get time_params "initial_file" (PyStr "") in
  write_results_every_0D_ <-
    try_get_else io_params "write_results_every_0D" "write_results_every" ;;
  let write_restart_every_ := try_get io_params "write_restart_every" (PyNum (-1)) in
  output_path_0D_ <- try_get_else io_params "output_path_0D" "output_path" ;;
  let have_elastance := try_get model_params "have_elastance" (PyBool false) in
  let valvelaw := try_get model_params "valvelaw" (PyStr "pwlin_pres") in
  let cq_ := try_get coupling_params "coupling_quantity" (PyStr "volume") in
  let eps_periodic_ :=
    try_get time_params "eps_periodic" (PyNum (1 # 100000000000000000000)) in
  let periodic_checktype_ := try_get time_params "periodic_checktype" (PyStr "allvar") in
  let prescribed_variables_ := try_get model_params "prescribed_variables" (PyDict []) in
  let perturb_type_ := try_get model_params "perturb_type" PyNone in
  let perturb_after_cylce_ := try_get model_params "perturb_after_cylce" (PyNum (-1)) in
  (* definitely set to -1 if we don't have a perturb type *)
  let perturb_after_cylce_ :=
    if is_none perturb_type_ then PyNum (-1) else perturb_after_cylce_ in
  (* initialise 0D model class *)
  call <- model_dispatch time_params model_params chamber_models chamber_interfaces
            prescribed_path have_elastance valvelaw cq_ ;;
  model <- construct call ;;
  (* vectors and matrices *)
  let zero := createVecLeft model in
  initialconditions <-
    (if truthy initial_file then set_initial_from_file model initial_file
     else getitem time_params "initial_conditions") ;;
  s_ <- initialize model zero initialconditions ;;
  s_old_ <- initialize model zero initialconditions ;;
  sTc_old_ <- initialize model zero initialconditions ;;
  theta_ost_ <- getitem time_params "theta_ost" ;;
  Ok {| conf := {| base := base_;
                   problem_physics := "flow0d";
                   time_params_ := time_params;
                   write_results_every_0D := write_results_every_0D_;
                   write_restart_every := write_restart_every_;
                   output_path_0D := output_path_0D_;
                   cq := cq_;
                   eps_periodic := eps_periodic_;
                   periodic_checktype := periodic_checktype_;
                   prescribed_variables := prescribed_variables_;
                   perturb_type := perturb_type_;
                   perturb_after_cylce := perturb_after_cylce_;
                   built_by := call;
                   theta_ost := theta_ost_;
                   time_curves := time_curves_ |};
        simname := simname_;
        t_init_ := t_init base_;
        cardvasc0D := model;
        vecs := {| s := s_; s_old := s_old_; df := zero; df_old := zero;
                   f := zero; f_old := zero; aux := zero; aux_old := zero |};
        s_mid := zero; aux_mid := zero;
        sTc := zero; sTc_old := sTc_old_;
        s_set := zero;
        c := [];
        cycle := 1; cycleerror := ti_cycleerror;
        out := [] |}.

End Problem.

(** [v > 0] *)
Definition py_gt0 (v : pyval) : result bool :=
  match num_of v with
  | Some q => Ok (Qltb 0 q)
  | None => Raise TypeError
  end.

(** [N % v == 0] *)
Definition py_divides (N : Z) (v : pyval) : result bool :=
  match num_of v with
  | Some q =>
    if Qeq_bool q 0 then Raise ZeroDivisionError
    else Ok (Qeq_bool (inject_Z (Qfloor (inject_Z N / q))) (inject_Z N / q))
  | None => Raise TypeError
  end.

(** [v > 0 and N % v == 0] : the second test runs only when the first holds. *)
Definition every (v : pyval) (N : Z) : result bool :=
  pos <- py_gt0 v ;;
  if pos then py_divides N v else Ok false.

Definition str_of (v : pyval) : result string :=
  match v with PyStr x => Ok x | _ => Raise TypeError end.

(** How one pass of the time loop ends. *)
Inductive flow (A : Type) : Type :=
| Next (a : A)
| Break (a : A)
| Abort (e : exn) (a : A).
Arguments Next {A} a.
Arguments Break {A} a.
Arguments Abort {A} e a.

Section Solver.
Context {Model Vec : Type}.
Context {integ : Integrator Model Vec} {monitor : CycleMonitor Model Vec}.

(** [Flow0DProblem.readrestart(sname, rst)] with [ms=False], lines 153-165. *)
Definition readrestart (pb : Flow0DProblem Model Vec) (sname : string) (rst : Z)
  : Flow0DProblem Model Vec :=
  let m := cardvasc0D pb in
  let path := output_path_0D (conf pb) in
  let v := vecs pb in
  let v' := {| s := read_restart m path (sname ++ "_s") rst (s v);
               s_old := read_restart m path (sname ++ "_s") rst (s_old v);
               df := df v; df_old := df_old v; f := f v; f_old := f_old v;
               aux := read_restart m path (sname ++ "_aux") rst (aux v);
               aux_old := read_restart m path (sname ++ "_aux") rst (aux_old v) |} in
  let sTc_old' := read_restart m path (sname ++ "_sTc_old") rst (sTc_old pb) in
  let '(cycle', cycleerror', t_init') :=
    if Qltb 0 (T_cycl m) then
      let '(cy, ce) := load_cycledata path sname rst in
      (cy, ce, (t_init_ pb - inject_Z (cy - 1) * T_cycl m)%Q)
    else (cycle pb, cycleerror pb, t_init_ pb) in
  {| conf := conf pb; simname := simname pb; t_init_ := t_init';
     cardvasc0D := m; vecs := v';
     s_mid := s_mid pb; aux_mid := aux_mid pb;
     sTc := sTc pb; sTc_old := sTc_old';
     s_set := s_set pb; c := c pb;
     cycle := cycle'; cycleerror := cycleerror';
     out := out pb |}.

(** Lines 188-197: restart, first evaluation of the time curve, evaluation
    of the old state. *)
Definition before_loop (pb : Flow0DProblem Model Vec) : result (Flow0DProblem Model Vec) :=
  let rst := restart_step (base (conf pb)) in
  pb1 <- (if (0 <? rst)%Z then
            sname <- str_of (simname pb) ;;
            let pb' := readrestart pb sname rst in
            Ok {| conf := conf pb'; simname := PyStr (sname ++ "_r" ++ pretty rst);
                  t_init_ := t_init_ pb'; cardvasc0D := cardvasc0D pb'; vecs := vecs pb';
                  s_mid := s_mid pb'; aux_mid := aux_mid pb';
                  sTc := sTc pb'; sTc_old := sTc_old pb';
                  s_set := s_set pb'; c := c pb';
                  cycle := cycle pb'; cycleerror := cycleerror pb';
                  out := out pb' |}
          else Ok pb) ;;
  let c1 := match time_curves (conf pb1) with
            | Some tc => (c pb1 ++ [tc (t_init_ pb1)])%list
            | None => c pb1
            end in
  let v := vecs pb1 in
  let '(df_old', f_old', aux_old') :=
    evaluate (cardvasc0D pb1) (dt (base (conf pb1))) (t_init_ pb1) c1 (s_old v) in
  Ok {| conf := conf pb1; simname := simname pb1; t_init_ := t_init_ pb1;
        cardvasc0D := cardvasc0D pb1;
        vecs := {| s := s v; s_old := s_old v; df := df v; df_old := df_old';
                   f := f v; f_old := f_old'; aux := aux v; aux_old := aux_old' |};
        s_mid := s_mid pb1; aux_mid := aux_mid pb1;
        sTc := sTc pb1; sTc_old := sTc_old pb1;
        s_set := s_set pb1; c := c1;
        cycle := cycle pb1; cycleerror := cycleerror pb1;
        out := out pb1 |}.

(** [t - t_off] in step [N]: the time since the start of the current cycle. *)
Definition local_time (N : Z) (pb : Flow0DProblem Model Vec) : Q :=
  (inject_Z N * dt (base (conf pb)) - inject_Z (cycle pb - 1) * T_cycl (cardvasc0D pb))%Q.

(** Line 212: [c[0] = timecurves(1)(t - t_off)] when time curves are given. *)
Definition load_curve (N : Z) (pb : Flow0DProblem Model Vec) : result (list Q) :=
  match time_curves (conf pb) with
  | Some tc =>
    match c pb with
    | [] => Raise IndexError
    | _ :: rest => Ok (tc (local_time N pb) :: rest)
    end
  | None => Ok (c pb)
  end.

(** Lines 203-257: one pass of the main time loop, for step number [N]. *)
Definition time_step (N : Z) (pb : Flow0DProblem Model Vec) : flow (Flow0DProblem Model Vec) :=
  let cf := conf pb in
  let m := cardvasc0D pb in
  (* current time *)
  let t := (inject_Z N * dt (base cf))%Q in
  (* offset time for multiple cardiac cycles *)
  let t_off := (inject_Z (cycle pb - 1) * T_cycl m)%Q in
  (* external volume/flux from time curve *)
  match load_curve N pb with
  | Raise e => Abort e pb
  | Ok c1 =>
  (* solve *)
  match newton m (dt (base cf)) c1 (t - t_off)%Q (vecs pb) with
  | Raise e => Abort e pb
  | Ok v1 =>
  (* get midpoint dof values for post-processing (has to be called before update!) *)
  let s_mid1 := midpoint_avg m (s v1) (s_old v1) (s_mid pb) in
  let aux_mid1 := midpoint_avg m (aux v1) (aux_old v1) (aux_mid pb) in
  (* update timestep *)
  let v2 := update m v1 in
  (* print to screen, print time step info *)
  let out1 := (out pb ++ [PrintToScreen s_mid1 aux_mid1; PrintTimestep N t;
                          CallCycleCheck (eps_periodic cf) (periodic_checktype cf)
                                         (perturb_after_cylce cf)])%list in
  let stuck e o :=
    Abort e {| conf := cf; simname := simname pb; t_init_ := t_init_ pb;
               cardvasc0D := m; vecs := v2; s_mid := s_mid1; aux_mid := aux_mid1;
               sTc := sTc pb; sTc_old := sTc_old pb; s_set := s_set pb; c := c1;
               cycle := cycle pb; cycleerror := cycleerror pb; out := o |} in
  (* check for periodicity in cardiac cycle (cycle counter gets updated here) *)
  match cycle_check m (s v2) (sTc pb) (sTc_old pb) (t - t_off)%Q (cycle pb) (cycleerror pb)
          (eps_periodic cf) (periodic_checktype cf) (output_path_0D cf)
          (simname pb) (perturb_after_cylce cf) with
  | Raise e => stuck e out1
  | Ok (is_periodic, (sTc1, sTc_old1, cycle1, cycleerror1)) =>
  let after_check m' o :=
    {| conf := cf; simname := simname pb; t_init_ := t_init_ pb;
       cardvasc0D := m'; vecs := v2; s_mid := s_mid1; aux_mid := aux_mid1;
       sTc := sTc1; sTc_old := sTc_old1; s_set := s_set pb; c := c1;
       cycle := cycle1; cycleerror := cycleerror1; out := o |} in
  (* induce some disease/perturbation for cardiac cycle *)
  match (if negb (is_none (perturb_type cf))
         then induce_perturbation m (perturb_type cf) cycle1 (perturb_after_cylce cf)
         else Ok m) with
  | Raise e => Abort e (after_check m out1)
  | Ok m1 =>
  (* raw txt file output of 0D model quantities *)
  match every (write_results_every_0D cf) N with
  | Raise e => Abort e (after_check m1 out1)
  | Ok w =>
  let out2 := (out1 ++ (if w then [WriteOutput t s_mid1 aux_mid1] else []))%list in
  (* write 0D restart info *)
  match every (write_restart_every cf) N with
  | Raise e => Abort e (after_check m1 out2)
  | Ok wr =>
  let out3 := (out2 ++ (if wr then [WriteRestart N] else []))%list in
  if is_periodic then
    Break (after_check m1 (out3 ++ [PrintPeriodic (cycle1 - 1) cycleerror1])%list)
  else
    (* maximum number of steps to perform *)
    match numstep_stop (base cf) with
    | Some stop => if (N =? stop)%Z then Break (after_check m1 out3)
                   else Next (after_check m1 out3)
    | None => Next (after_check m1 out3)
    end
  end end end end end end.

(** The [for N in range(...)] loop over the given step numbers; the second
    component counts the passes that ran to their end. *)
Fixpoint time_loop (Ns : list Z) (done : nat) (pb : Flow0DProblem Model Vec)
  : option exn * nat * Flow0DProblem Model Vec :=
  match Ns with
  | [] => (None, done, pb)
  | N :: Ns' =>
    match time_step N pb with
    | Next pb' => time_loop Ns' (S done) pb'
    | Break pb' => (None, S done, pb')
    | Abort e pb' => (Some e, done, pb')
    end
  end.

(** [range(restart_step+1, numstep+1)] *)
Definition step_numbers (b : base_conf) : list Z :=
  seqZ (restart_step b + 1) (numstep b - restart_step b).

(** [Flow0DSolver.solve_problem] *)
Definition solve_problem (pb : Flow0DProblem Model Vec)
  : option exn * nat * Flow0DProblem Model Vec :=
  match before_loop pb with
  | Raise e => (Some e, O, pb)
  | Ok pb0 => time_loop (step_numbers (base (conf pb0))) O pb0
  end.

End Solver.

(** Everything on the problem object except the midpoint vectors and the
    output: what the next step starts from. *)
Record dynamics (Model Vec : Type) : Type := {
  d_conf : flow0d_conf;
  d_simname : pyval;
  d_t_init : Q;
  d_model : Model;
  d_vecs : ode_vecs Vec;
  d_sTc : Vec; d_sTc_old : Vec;
  d_s_set : Vec;
  d_c : list Q;
  d_cycle : Z; d_cycleerror : Q
}.
Arguments d_conf {Model Vec} _.
Arguments d_model {Model Vec} _.
Arguments d_vecs {Model Vec} _.
Arguments d_cycle {Model Vec} _.

Definition dynamics_of {Model Vec : Type} (pb : Flow0DProblem Model Vec)
  : dynamics Model Vec :=
  {| d_conf := conf pb; d_simname := simname pb; d_t_init := t_init_ pb;
     d_model := cardvasc0D pb; d_vecs := vecs pb;
     d_sTc := sTc pb; d_sTc_old := sTc_old pb; d_s_set := s_set pb;
     d_c := c pb; d_cycle := cycle pb; d_cycleerror := cycleerror pb |}.

Definition flow_dynamics {Model Vec : Type} (fl : flow (Flow0DProblem Model Vec))
  : flow (dynamics Model Vec) :=
  match fl with
  | Next pb => Next (dynamics_of pb)
  | Break pb => Break (dynamics_of pb)
  | Abort e pb => Abort e (dynamics_of pb)
  end.

Definition run_dynamics {Model Vec : Type}
    (r : option exn * nat * Flow0DProblem Model Vec)
  : option exn * nat * dynamics Model Vec :=
  let '(e, n, pb) := r in (e, n, dynamics_of pb).

(** Two integrators that can differ in [midpoint_avg] only. *)
Definition same_but_midpoint {Model Vec : Type} (I1 I2 : Integrator Model Vec) : Prop :=
  @evaluate _ _ I1 = @evaluate _ _ I2
  /\ @newton _ _ I1 = @newton _ _ I2
  /\ @update _ _ I1 = @update _ _ I2
  /\ @read_restart _ _ I1 = @read_restart _ _ I2
  /\ @load_cycledata _ _ I1 = @load_cycledata _ _ I2.

(** Construct the problem, then solve it (the demo's [Ambit(...)] followed
    by [solve_problem()]). *)
Definition run_flow0d {Model Vec : Type} {setup : Setup Model Vec}
    {integ : Integrator Model Vec} {monitor : CycleMonitor Model Vec}
    (io_params time_params model_params : gmap string pyval)
    (time_curves_ : option (Q -> Q)) (coupling_params : gmap string pyval)
  : result (option exn * nat * Flow0DProblem Model Vec) :=
  pb <- Flow0DProblem_init io_params time_params model_params time_curves_ coupling_params ;;
  Ok (solve_problem pb).

Definition is_cycle_check {Vec : Type} (e : out_event Vec) : bool :=
  match e with CallCycleCheck _ _ _ => true | _ => false end.

(** A cycle check in the output was called with the tolerance and the check
    type of the configuration. *)
Definition checks_with {Vec : Type} (cf : flow0d_conf) (e : out_event Vec) : Prop :=
  match e with
  | CallCycleCheck eps check _ => eps = eps_periodic cf /\ check = periodic_checktype cf
  | _ => True
  end.

Definition cycle_checks {Vec : Type} (o : list (out_event Vec)) : nat :=
  length (List.filter is_cycle_check o).

(** The problem a pass of the time loop ends with. *)
Definition flow_state {A : Type} (fl : flow A) : A :=
  match fl with Next a | Break a | Abort _ a => a end.

Definition completed {A : Type} (fl : flow A) : bool :=
  match fl with Next _ | Break _ => true | Abort _ _ => false end.

(** *** The cycle monitor and the step weight, from the specification

    [cardiovascular0D*.py] and [timeintegration.py] are not among the
    embedded sources.  What follows is written from the specification and
    plugged into the time loop above. *)

(** The part of a circulation model the cycle monitor needs: the cycle
    length, the parameter set, the "already perturbed" flag, and (for
    bookkeeping only) the cycle counter values at which a perturbation was
    applied, oldest first. *)
Record spec_model : Type := {
  sm_T_cycl : Q;
  sm_theta : Q;
  sm_parameters : pyval;
  sm_have_induced_pert : bool;
  sm_induced_at : list Z
}.


Section SpecMonitor.
Context {Vec : Type}.
(** The relative error norm of a state against a snapshot for a check type,
    and the parameter set a perturbation type turns a given one into. *)
Variable relative_error : pyval -> Vec -> Vec -> Q.
Variable perturbed : pyval -> pyval -> pyval.

(** Modelled from the spec: [cycle_check] of the circulation model (module
    cardiovascular0D, absent).  Spec 4.6: "detects a cycle boundary whenever
    simulated time crosses a multiple of the cycle length.  At each boundary it
    compares the state vector [...] against the corresponding snapshot from the
    previous cycle and computes a relative error norm [...]; the run is
    declared periodic when this error falls below a configured tolerance";
    spec 3: the counter is "incremented once per detected cycle boundary" and
    the snapshot buffer is "overwritten each cycle".  The time handed in is
    the time since the start of the current cycle. *)
Definition cycle_check_spec (m : spec_model) (s_ sTc_ sTc_old_ : Vec) (t : Q) (cycle_ : Z)
    (cycleerror_ : Q) (eps check inioutpath nm induce_pert_after_cycl : pyval)
  : result (bool * (Vec * Vec * Z * Q)) :=
  if Qltb 0 (sm_T_cycl m) && Qle_bool (sm_T_cycl m) t then
    let err := relative_error check s_ sTc_old_ in
    match num_of eps with
    | Some tol => Ok (Qltb err tol, (s_, s_, cycle_ + 1, err))
    | None => Raise TypeError
    end
  else Ok (false, (sTc_, sTc_old_, cycle_, cycleerror_)).

(** Modelled from the spec: [induce_perturbation] of the circulation model
    (module cardiovascular0D, absent).  Spec 2: "apply a one-time parameter
    perturbation [...] after a specified cycle"; spec 4.6: "applied exactly
    once, at the first cycle boundary at or after a configured trigger cycle;
    re-application is explicitly suppressed thereafter"; spec 9: an "already
    perturbed" flag.  The perturbation is due once the cycle counter has
    passed the trigger cycle. *)
Definition induce_perturbation_spec (m : spec_model) (perturb_type_ : pyval) (ti_cycle : Z)
    (perturb_after_cylce_ : pyval) : result spec_model :=
  match num_of perturb_after_cylce_ with
  | None => Raise TypeError
  | Some after_ =>
    if negb (sm_have_induced_pert m) && Qltb after_ (inject_Z ti_cycle) then
      Ok {| sm_T_cycl := sm_T_cycl m;
            sm_theta := sm_theta m;
            sm_parameters := perturbed perturb_type_ (sm_parameters m);
            sm_have_induced_pert := true;
            sm_induced_at := (sm_induced_at m ++ [ti_cycle])%list |}
    else Ok m
  end.

Definition spec_monitor : CycleMonitor spec_model Vec :=
  {| T_cycl := sm_T_cycl;
     cycle_check := cycle_check_spec;
     induce_perturbation := induce_perturbation_spec |}.

End SpecMonitor.


(** *** A scalar stand-in for the absent collaborators

    Enough to run the constructor and the time loop on concrete inputs: the
    state is one number, a Newton solve halves it. *)

Definition lookup_num (kv : list (string * pyval)) (k : string) : option Q :=
  match List.find (fun p => String.eqb (fst p) k) kv with
  | Some (_, v) => num_of v
  | None => None
  end.

Definition toy_construct (call : model_call) : result spec_model :=
  match num_of (mc_theta call), mc_parameters call with
  | Some th, PyDict kv =>
    Ok {| sm_T_cycl := match mc_chmodels call, lookup_num kv "T_cycl" with
                       | Some _, Some T => T
                       | _, _ => 0
                       end;
          sm_theta := th;
          sm_parameters := mc_parameters call;
          sm_have_induced_pert := false;
          sm_induced_at := [] |}
  | _, _ => Raise TypeError
  end.

Definition toy_base (io_params time_params : gmap string pyval) : result base_conf :=
  maxtime <- getitem time_params "maxtime" ;;
  numstep_ <- getitem time_params "numstep" ;;
  match num_of maxtime, num_of numstep_ with
  | Some mt, Some ns =>
    Ok {| problem_type := "flow0d"; t_init := 0;
          dt := Qred (mt / ns); numstep := Qfloor ns;
          restart_step := 0; numstep_stop := None |}
  | _, _ => Raise TypeError
  end.

Definition toy_setup : Setup spec_model Q :=
  {| problem_base_init := toy_base;
     construct := toy_construct;
     createVecLeft := fun _ => 0%Q;
     set_initial_from_file := fun _ _ => Ok (PyNum 1);
     initialize := fun _ _ ic => match num_of ic with
                                 | Some q => Ok q
                                 | None => Raise TypeError
                                 end;
     ti_cycleerror := 1%Q |}.

Definition toy_midpoint (m : spec_model) (var var_old var_mid : Q) : Q :=
  Qred (sm_theta m * var + (1 - sm_theta m) * var_old).

Definition toy_update (m : spec_model) (v : ode_vecs Q) : ode_vecs Q :=
  {| s := s v; s_old := s v; df := df v; df_old := df v;
     f := f v; f_old := f v; aux := aux v; aux_old := aux v |}.

Definition toy_newton (m : spec_model) (dt_ : Q) (c_ : list Q) (t : Q) (v : ode_vecs Q)
  : result (ode_vecs Q) :=
  Ok {| s := Qred (s v / 2); s_old := s_old v; df := df v; df_old := df_old v;
        f := f v; f_old := f_old v; aux := Qred (s v / 2); aux_old := aux_old v |}.

Definition toy_integrator : Integrator spec_model Q :=
  {| evaluate := fun _ _ _ _ s_old_ => (0%Q, 0%Q, s_old_);
     newton := toy_newton;
     midpoint_avg := toy_midpoint;
     update := toy_update;
     read_restart := fun _ _ _ _ v => v;
     load_cycledata := fun _ _ _ => (1, 1%Q) |}.

(** A second integrator that differs from the first in [midpoint_avg] only. *)
Definition toy_integrator' : Integrator spec_model Q :=
  {| evaluate := fun _ _ _ _ s_old_ => (0%Q, 0%Q, s_old_);
     newton := toy_newton;
     midpoint_avg := fun _ _ _ _ => 7%Q;
     update := toy_update;
     read_restart := fun _ _ _ _ v => v;
     load_cycledata := fun _ _ _ => (1, 1%Q) |}.

Definition toy_monitor : CycleMonitor spec_model Q :=
  spec_monitor (fun _ a b => Qred (Qabs (a - b))) (fun _ p => p).

Definition toy_io_params : gmap string pyval :=
  <["simname" := PyStr "flow0d_heart_cycle"]>
  (<["write_results_every" := PyNum 1]>
  (<["output_path" := PyStr "tmp"]> ∅)).

(** Three cycles of four steps each: cycle length 2/5, step 1/10. *)
Definition toy_time_params : gmap string pyval :=
  <["maxtime" := PyNum (12 # 10)]>
  (<["numstep" := PyNum 12]>
  (<["timint" := PyStr "ost"]>
  (<["theta_ost" := PyNum (1 # 2)]>
  (<["initial_conditions" := PyNum 8]> ∅)))).

Definition toy_model_params (tag : string) : gmap string pyval :=
  <["modeltype" := PyStr tag]>
  (<["parameters" := PyDict [("T_cycl", PyNum (2 # 5))]]>
  (<["perturb_type" := PyStr "mr"]>
  (<["perturb_after_cylce" := PyNum 1]> ∅))).


Definition toy_init (time_params model_params : gmap string pyval)
  : result (Flow0DProblem spec_model Q) :=
  Flow0DProblem_init (setup := toy_setup) toy_io_params time_params model_params None ∅.

(** The same problem with other midpoint vectors and another output so far. *)
Definition with_midpoints {Model Vec : Type} (sm am : Vec) (o : list (out_event Vec))
    (pb : Flow0DProblem Model Vec) : Flow0DProblem Model Vec :=
  {| conf := conf pb; simname := simname pb; t_init_ := t_init_ pb;
     cardvasc0D := cardvasc0D pb; vecs := vecs pb;
     s_mid := sm; aux_mid := am;
     sTc := sTc pb; sTc_old := sTc_old pb; s_set := s_set pb; c := c pb;
     cycle := cycle pb; cycleerror := cycleerror pb; out := o |}.

(** Construct, then solve, as [ambit_main] does for a [flow0d] problem. *)
Definition toy_run (io_params time_params model_params : gmap string pyval)
  : result (option exn * nat * Flow0DProblem spec_model Q) :=
  run_flow0d (setup := toy_setup) (integ := toy_integrator) (monitor := toy_monitor)
    io_params time_params model_params None ∅.

(** *** A stand-in that restarts

    As [toy_setup], with the restart step taken from ['restart_step'] of the
    input parameters (0 when absent). *)
Definition toy_base_restart (io_params time_params : gmap string pyval)
  : result base_conf :=
  b <- toy_base io_params time_params ;;
  match num_of (try_get io_params "restart_step" (PyNum 0)) with
  | Some r =>
    Ok {| problem_type := problem_type b; t_init := t_init b; dt := dt b;
          numstep := numstep b; restart_step := Qfloor r;
          numstep_stop := numstep_stop b |}
  | None => Raise TypeError
  end.

Definition toy_setup_restart : Setup spec_model Q :=
  {| problem_base_init := toy_base_restart;
     construct := toy_construct;
     createVecLeft := fun _ => 0%Q;
     set_initial_from_file := fun _ _ => Ok (PyNum 1);
     initialize := fun _ _ ic => match num_of ic with
                                 | Some q => Ok q
                                 | None => Raise TypeError
                                 end;
     ti_cycleerror := 1%Q |}.

Definition toy_io_params_restart : gmap string pyval :=
  <["restart_step" := PyNum 4]> (<["write_restart_every" := PyNum 4]> toy_io_params).

(** *** Reading the output of a run *)

(** The step numbers of the time-step lines, the times of the result files
    and the step numbers of the restart files, each in the order of writing. *)
Definition timesteps {Vec : Type} (o : list (out_event Vec)) : list Z :=
  omap (fun e => match e with PrintTimestep N _ => Some N | _ => None end) o.

Definition written {Vec : Type} (o : list (out_event Vec)) : list Q :=
  omap (fun e => match e with WriteOutput t _ _ => Some t | _ => None end) o.

Definition restarts_written {Vec : Type} (o : list (out_event Vec)) : list Z :=
  omap (fun e => match e with WriteRestart N => Some N | _ => None end) o.

End Flow0D.

(** ** [demos/flow0d/bleed.py]: the activation curves *)

Module Bleed.

Local Open Scope R_scope.

(** The timing entries of [param()]. *)
Definition T_cycl : R := 4 / 10.              (* cardiac cycle time *)
Definition t_ed : R := 2 / 10 * T_cycl.       (* end-diastolic time *)
Definition t_es : R := 53 / 100 * T_cycl.     (* end-systolic time *)

(** [t % T] for floats and a positive [T]: the remainder of floor division. *)
Definition pymod (t T : R) : R := t - T * IZR (Int_part (t / T)).

(** [0.5*(1.-np.cos(2.*np.pi*(tmod-t0)/act_dur))] *)
Definition raised_cosine (tmod t0 act_dur : R) : R :=
  5 / 10 * (1 - cos (2 * PI * (tmod - t0) / act_dur)).

(** The body shared by [tc1] and [tc2]. *)
Definition pulse (tmod t0 act_dur : R) : R :=
  if Rle_dec t0 tmod then
    if Rle_dec tmod (t0 + act_dur) then raised_cosine tmod t0 act_dur else 0
  else 0.

(** [time_curves.tc1]: the activation curve of the atria. *)
Definition tc1 (t : R) : R :=
  let tmod := pymod t T_cycl in
  let act_dur := 2 * t_ed in
  let t0 := 0 in
  pulse tmod t0 act_dur.



End Bleed.

(** ** [solver_nonlin.py]: set-up and local Newton of [solver_nonlinear] *)

Module SolverNonlinear.

(** *** Exceptions and values *)

(** The exceptions of this class: those of [Py] and four more. *)
Inductive error : Type :=
| PyExn (e : exn)
| ValueError (msg : string)
| RuntimeErrorMsg (msg : string)
| AssertionError
| AttributeError.

Inductive res (A : Type) : Type :=
| Done (a : A)
| Fail (e : error).
Arguments Done {A} a.
Arguments Fail {A} e.

Definition and_then {A B : Type} (m : res A) (k : A -> res B) : res B :=
  match m with
  | Done a => k a
  | Fail e => Fail e
  end.

Definition lift {A : Type} (r : result A) : res A :=
  match r with
  | Ok a => Done a
  | Raise e => Fail (PyExn e)
  end.

Declare Scope res_scope.
Notation "x <- m ;; k" := (and_then m (fun x => k))
  (at level 100, m at next level, right associativity) : res_scope.
Delimit Scope py_scope with py.
Local Open Scope res_scope.

(** First entry of an association list under a key. *)
Fixpoint assoc (k : string) (kv : list (string * pyval)) : option pyval :=
  match kv with
  | [] => None
  | (k', v) :: rest => if String.eqb k' k then Some v else assoc k rest
  end.

(** [v[n]] for an index [n >= 0]. *)
Definition py_index (v : pyval) (n : nat) : result pyval :=
  match v with
  | PyList l => match nth_error l n with
                | Some x => Ok x
                | None => Raise IndexError
                end
  | PyStr x => match String.get n x with
               | Some ch => Ok (PyStr (String ch ""))
               | None => Raise IndexError
               end
  | PyDict _ => Raise (KeyError (pretty n))   (* the keys here are strings *)
  | _ => Raise TypeError
  end.

(** [v['k']] *)
Definition py_key (v : pyval) (k : string) : result pyval :=
  match v with
  | PyDict kv => match assoc k kv with
                 | Some x => Ok x
                 | None => Raise (KeyError k)
                 end
  | _ => Raise TypeError
  end.

(** [len(v)] *)
Definition py_len (v : pyval) : result nat :=
  match v with
  | PyList l => Ok (length l)
  | PyStr x => Ok (String.length x)
  | PyDict kv => Ok (length kv)
  | _ => Raise TypeError
  end.

(** [isinstance(v, list)] *)
Definition is_list (v : pyval) : bool :=
  match v with PyList _ => true | _ => false end.

(** [a == b].  Numbers and booleans compare by value; values of different
    kinds are unequal; dictionaries compare regardless of order. *)
Fixpoint py_eq (a b : pyval) {struct a} : bool :=
  match a, b with
  | PyNone, PyNone => true
  | PyBool x, PyBool y => Bool.eqb x y
  | PyBool x, PyNum y => Qeq_bool (if x then 1 else 0) y
  | PyNum x, PyBool y => Qeq_bool x (if y then 1 else 0)
  | PyNum x, PyNum y => Qeq_bool x y
  | PyStr x, PyStr y => String.eqb x y
  | PyList l, PyList m =>
    (fix all2 (l m : list pyval) {struct l} : bool :=
       match l, m with
       | [], [] => true
       | x :: l', y :: m' => py_eq x y && all2 l' m'
       | _, _ => false
       end) l m
  | PyDict kv, PyDict kw =>
    Nat.eqb (length kv) (length kw)
    && (fix sub (kv : list (string * pyval)) {struct kv} : bool :=
          match kv with
          | [] => true
          | (k, v) :: kv' =>
            match assoc k kw with
            | Some w => py_eq v w
            | None => false
            end && sub kv'
          end) kv
  | _, _ => false
  end.

(** [try: x = v[n]['k']  except: x = dflt] *)
Definition try_field (v : pyval) (n : nat) (k : string) (dflt : pyval) : pyval :=
  match (x <- py_index v n ;; py_key x k)%py with
  | Ok x => x
  | Raise _ => dflt
  end.

(** *** What [set_solver_params] leaves on the object *)

Record settings : Type := {
  maxiter : pyval;
  divcont : pyval;
  PTC : pyval;
  k_PTC_initial : pyval;
  PTC_randadapt_range : pyval;
  maxresval : pyval;
  direct_solver : pyval;
  iterative_solver : pyval;
  precond_fields : pyval;
  fieldsplit_type : pyval;
  block_precond : pyval;
  tol_lin_rel : pyval;
  tol_lin_abs : pyval;
  res_lin_monitor : pyval;
  maxliniter : pyval;
  lin_norm_type : pyval;
  linnormtype : Z;
  print_liniter_every : pyval;
  iset_options : list (string * pyval);
  print_local_iter : pyval;
  tol_res_local : pyval;
  tol_inc_local : pyval;
  solvetype : pyval;
  tolres : pyval;
  tolinc : pyval
}.

Definition is_option_keys : list string := ["lms_to_p"; "lms_to_v"; "rom_to_new"].

(** [for k in is_option_keys: if k not in d.keys(): d[k] = False] *)
Definition revert_to_defaults (d : list (string * pyval)) : list (string * pyval) :=
  fold_left (fun d k => match assoc k d with
                        | Some _ => d
                        | None => (d ++ [(k, PyBool false)])%list
                        end)
            is_option_keys d.

Definition unknown_lin_norm_type : error := ValueError "Unknown lin_norm_type option!".

(** [set_solver_params(self, solver_params)], lines 94-177.  The index set
    options are the caller's own dictionary when the caller gave one: the
    defaults are written into it, so the parameters come back as well.  The
    work lists [r_list] and [del_u_] of [newton] are left out. *)
Definition set_solver_params (solver_params : gmap string pyval)
  : res (settings * gmap string pyval) :=
  let maxiter_ := try_get solver_params "maxiter" (PyNum 25) in
  let divcont_ := try_get solver_params "divergence_continue" PyNone in
  let PTC_ := try_get solver_params "ptc" (PyBool false) in
  let k_PTC_initial_ := try_get solver_params "k_ptc_initial" (PyNum (1 # 10)) in
  let PTC_randadapt_range_ :=
    try_get solver_params "ptc_randadapt_range"
      (PyList [PyNum (85 # 100); PyNum (135 # 100)]) in
  let maxresval_ :=
    try_get solver_params "catch_max_res_value" (PyNum 10000000000000000) in
  let direct_solver_ := try_get solver_params "direct_solver" (PyStr "mumps") in
  let iterative_solver_ := try_get solver_params "iterative_solver" (PyStr "gmres") in
  let precond_fields_ := try_get solver_params "precond_fields" (PyList []) in
  let fieldsplit_type_ := try_get solver_params "fieldsplit_type" (PyStr "jacobi") in
  let block_precond_ := try_get solver_params "block_precond" (PyStr "fieldsplit") in
  let tol_lin_rel_ := try_get solver_params "tol_lin_rel" (PyNum (1 # 100000)) in
  let tol_lin_abs_ :=
    try_get solver_params "tol_lin_abs"
      (PyNum (1 # 100000000000000000000000000000000000000000000000000)) in
  let res_lin_monitor_ := try_get solver_params "res_lin_monitor" (PyStr "rel") in
  let maxliniter_ := try_get solver_params "max_liniter" (PyNum 1200) in
  let lin_norm_type_ :=
    try_get solver_params "lin_norm_type" (PyStr "unpreconditioned") in
  linnormtype_ <-
    (if Flow0D.eq_str lin_norm_type_ "preconditioned" then Done 1%Z
     else if Flow0D.eq_str lin_norm_type_ "unpreconditioned" then Done 2%Z
     else Fail unknown_lin_norm_type) ;;
  let print_liniter_every_ := try_get solver_params "print_liniter_every" (PyNum 1) in
  iset_options_ <-
    match try_get solver_params "indexset_options" (PyDict []) with
    | PyDict d => Done (revert_to_defaults d)
    | _ => Fail AttributeError
    end ;;
  let solver_params' :=
    match solver_params !! "indexset_options" with
    | Some _ => <["indexset_options" := PyDict iset_options_]> solver_params
    | None => solver_params
    end in
  let print_local_iter_ := try_get solver_params "print_local_iter" (PyBool false) in
  let tol_res_local_ :=
    try_get solver_params "tol_res_local" (PyNum (1 # 10000000000)) in
  let tol_inc_local_ :=
    try_get solver_params "tol_inc_local" (PyNum (1 # 10000000000)) in
  solvetype_ <- lift (getitem solver_params "solve_type") ;;
  tolres_ <- lift (getitem solver_params "tol_res") ;;
  tolinc_ <- lift (getitem solver_params "tol_inc") ;;
  Done ({| maxiter := maxiter_; divcont := divcont_; PTC := PTC_;
           k_PTC_initial := k_PTC_initial_;
           PTC_randadapt_range := PTC_randadapt_range_;
           maxresval := maxresval_; direct_solver := direct_solver_;
           iterative_solver := iterative_solver_; precond_fields := precond_fields_;
           fieldsplit_type := fieldsplit_type_; block_precond := block_precond_;
           tol_lin_rel := tol_lin_rel_; tol_lin_abs := tol_lin_abs_;
           res_lin_monitor := res_lin_monitor_; maxliniter := maxliniter_;
           lin_norm_type := lin_norm_type_; linnormtype := linnormtype_;
           print_liniter_every := print_liniter_every_;
           iset_options := iset_options_;
           print_local_iter := print_local_iter_;
           tol_res_local := tol_res_local_; tol_inc_local := tol_inc_local_;
           solvetype := solvetype_; tolres := tolres_; tolinc := tolinc_ |},
        solver_params').

(** The two conditions [set_solver_params] puts on optional keys: the norm
    type of the linear solver is one of the two it knows, and the index set
    options are a dictionary. *)
Definition lin_norm_type_ok (solver_params : gmap string pyval) : Prop :=
  solver_params !! "lin_norm_type" = None
  \/ solver_params !! "lin_norm_type" = Some (PyStr "preconditioned")
  \/ solver_params !! "lin_norm_type" = Some (PyStr "unpreconditioned").

Definition indexset_options_ok (solver_params : gmap string pyval) : Prop :=
  solver_params !! "indexset_options" = None
  \/ exists d, solver_params !! "indexset_options" = Some (PyDict d).

(** *** The table of tolerances, lines 59-72 *)

(** The residual and the increment tolerance of field [n] of problem [npr]:
    the user gives scalars, a list over the fields, or a list of such lists
    over the problems. *)
Definition tolerance_entry (tolres_ tolinc_ : pyval) (npr n : nat)
  : result (pyval * pyval) :=
  (if is_list tolres_ then
     tr <- py_index tolres_ npr ;;
     if is_list tr then
       r_npr <- py_index tolres_ npr ;;
       r <- py_index r_npr n ;;
       i_npr <- py_index tolinc_ npr ;;
       i <- py_index i_npr n ;;
       Ok (r, i)
     else
       r <- py_index tolres_ n ;;
       i <- py_index tolinc_ n ;;
       Ok (r, i)
   else Ok (tolres_, tolinc_))%py.

(** ['res'+str(n+1)] and ['inc'+str(n+1)] *)
Definition res_key (n : nat) : string := "res" ++ pretty (n + 1)%nat.
Definition inc_key (n : nat) : string := "inc" ++ pretty (n + 1)%nat.

(** [for n in range(nfields[npr])] on the dictionary of problem [npr]. *)
Fixpoint fill_tolerances (tolres_ tolinc_ : pyval) (npr : nat) (ns : list nat)
    (d : gmap string pyval) : result (gmap string pyval) :=
  match ns with
  | [] => Ok d
  | n :: ns' =>
    match tolerance_entry tolres_ tolinc_ npr n with
    | Ok (r, i) =>
      fill_tolerances tolres_ tolinc_ npr ns'
        (<[inc_key n := i]> (<[res_key n := r]> d))
    | Raise e => Raise e
    end
  end.

(** [for npr in range(nprob)], from problem [npr] on. *)
Fixpoint tolerance_table (tolres_ tolinc_ : pyval) (npr : nat) (nfields : list nat)
  : result (list (gmap string pyval)) :=
  match nfields with
  | [] => Ok []
  | nf :: rest =>
    (d <- fill_tolerances tolres_ tolinc_ npr (seq 0 nf) ∅ ;;
     ds <- tolerance_table tolres_ tolinc_ (S npr) rest ;;
     Ok (d :: ds))%py
  end.

(** *** The PETSc set-up, lines 179-320 *)

Inductive composite_type : Type :=
| ADDITIVE | MULTIPLICATIVE | SYMMETRIC_MULTIPLICATIVE | SCHUR.

(** The calls on the solver object [ksp[npr]], its preconditioner and the
    solvers of its blocks, in the order they are made. *)
Inductive petsc_call (IS : Type) : Type :=
| Create (npr : nat)
| SetType (npr : nat) (t : pyval)
| PCSetType (npr : nat) (t : pyval)
| PCSetFactorSolverType (npr : nat) (t : pyval)
| SetInitialGuessNonzero (npr : nat) (b : bool)
| SetNormType (npr : nat) (n : Z)
| PCSetFieldSplitType (npr : nat) (t : composite_type)
| PCSetFieldSplitIS (npr : nat) (fields : list (string * IS))
| GetFieldSplitSubKSP (npr : nat)
| SubSetType (npr n : nat) (t : pyval)
| SubPCSetType (npr n : nat) (t : pyval)
| SubPCSetHYPREType (npr n : nat) (t : string)
| SubPCSetFactorSolverType (npr n : nat) (t : string)
| PCSetPythonContext (npr : nat) (cls : string) (iset : list IS) (precond_fields : pyval)
| PCSetMGLevels (npr : nat) (levels : Z)
| PCSetHYPREType (npr : nat) (t : string)
| SetTolerances (npr : nat) (rtol atol max_it : pyval)
| SetMonitor (npr : nat)
| OptionsSetValue (name : string) (v : bool)
| SetFromOptions (npr : nat).
Arguments Create {IS} _.
Arguments SetType {IS} _ _.
Arguments PCSetType {IS} _ _.
Arguments PCSetFactorSolverType {IS} _ _.
Arguments SetInitialGuessNonzero {IS} _ _.
Arguments SetNormType {IS} _ _.
Arguments PCSetFieldSplitType {IS} _ _.
Arguments PCSetFieldSplitIS {IS} _ _.
Arguments GetFieldSplitSubKSP {IS} _.
Arguments SubSetType {IS} _ _ _.
Arguments SubPCSetType {IS} _ _ _.
Arguments SubPCSetHYPREType {IS} _ _ _.
Arguments SubPCSetFactorSolverType {IS} _ _ _.
Arguments PCSetPythonContext {IS} _ _ _ _.
Arguments PCSetMGLevels {IS} _ _.
Arguments PCSetHYPREType {IS} _ _.
Arguments SetTolerances {IS} _ _ _ _.
Arguments SetMonitor {IS} _.
Arguments OptionsSetValue {IS} _ _.
Arguments SetFromOptions {IS} _.

(** What the solver asks of a problem object [pb[npr]]. *)
Class FemProblem (Pb OdePb Vec IS : Type) : Type := {
  get_problem_var_list : Pb -> list Vec * list Z;
  fem_problem_physics : Pb -> string;
  get_index_sets : Pb -> list (string * pyval) -> list IS;
  sub_solve : Pb -> bool;
  pb0 : Pb -> OdePb
}.

Definition unknown_fieldsplit_type : error := ValueError "Unknown fieldsplit_type option.".
Definition too_many_fields : error :=
  RuntimeErrorMsg "Currently, no more than 5 fields/index sets are supported.".
Definition unknown_field_precond : error :=
  ValueError
    "Currently, only either 'amg' or 'direct' are supported as field-specific preconditioner.".
Definition unknown_block_precond : error := ValueError "Unknown block_precond option!".
Definition unknown_single_precond : error :=
  ValueError "Currently, only 'amg' is supported as single-field preconditioner.".
Definition unknown_solvetype : error := PyExn (NameError "Unknown solvetype!").

(** [self.nfields] as the Python list it is. *)
Definition nfields_value (nfields : list nat) : pyval :=
  PyList (map (fun n => PyNum (inject_Z (Z.of_nat n))) nfields).

(** The classes of [preconditioner] behind the [block_precond] options. *)
Definition python_precond (block_precond_ : pyval) : option string :=
  if Flow0D.eq_str block_precond_ "schur2x2" then Some "schur_2x2"
  else if Flow0D.eq_str block_precond_ "simple2x2" then Some "simple_2x2"
  else if Flow0D.eq_str block_precond_ "schur3x3" then Some "schur_3x3"
  else if Flow0D.eq_str block_precond_ "schur4x4" then Some "schur_4x4"
  else if Flow0D.eq_str block_precond_ "bgs2x2" then Some "bgs_2x2"
  else if Flow0D.eq_str block_precond_ "jacobi2x2" then Some "jacobi_2x2"
  else None.

Section Setup.
Context {Pb OdePb Vec Mat IS CP : Type}.
Context {fem : FemProblem Pb OdePb Vec IS}.
Context {petsc : SolverNonlin.Petsc Vec Mat}.
Context {ode : SolverNonlin.OdeProblem OdePb Vec Mat}.
Context {collab : SolverNonlin.Collaborators}.

(** Lines 211-222: the split type; [self.nfields] is the list over the
    problems, which the assertion compares with the number 2. *)
Definition split_type_of (st : settings) (nfields : list nat) : res composite_type :=
  if Flow0D.eq_str (fieldsplit_type st) "jacobi" then Done ADDITIVE
  else if Flow0D.eq_str (fieldsplit_type st) "gauss_seidel" then Done MULTIPLICATIVE
  else if Flow0D.eq_str (fieldsplit_type st) "gauss_seidel_sym"
       then Done SYMMETRIC_MULTIPLICATIVE
  else if Flow0D.eq_str (fieldsplit_type st) "schur" then
    if py_eq (nfields_value nfields) (PyNum 2) then Done SCHUR else Fail AssertionError
  else Fail unknown_fieldsplit_type.

(** Lines 229-234: the names of the splits. *)
Definition split_fields (iset : list IS) : res (list (string * IS)) :=
  match iset with
  | [i0; i1] => Done [("f1", i0); ("f2", i1)]
  | [i0; i1; i2] => Done [("f1", i0); ("f2", i1); ("f3", i2)]
  | [i0; i1; i2; i3] => Done [("f1", i0); ("f2", i1); ("f3", i2); ("f4", i3)]
  | [i0; i1; i2; i3; i4] =>
    Done [("f1", i0); ("f2", i1); ("f3", i2); ("f4", i3); ("f5", i4)]
  | _ => Fail too_many_fields
  end.

(** Lines 244-258: the preconditioner of block [n]. *)
Definition field_precond (st : settings) (npr n : nat) : res (list (petsc_call IS)) :=
  pf <- lift (py_index (precond_fields st) n) ;;
  prec <- lift (py_key pf "prec") ;;
  if Flow0D.eq_str prec "amg" then
    let solvetype_ := try_field (precond_fields st) n "solve" (PyStr "preonly") in
    let amgtype := try_field (precond_fields st) n "amgtype" (PyStr "hypre") in
    Done ([SubSetType npr n solvetype_; SubPCSetType npr n amgtype]
          ++ (if Flow0D.eq_str amgtype "hypre"
              then [SubPCSetHYPREType npr n "boomeramg"] else []))%list
  else if Flow0D.eq_str prec "direct" then
    Done [SubSetType npr n (PyStr "preonly"); SubPCSetType npr n (PyStr "lu");
          SubPCSetFactorSolverType npr n "mumps"]
  else Fail unknown_field_precond.

(** [for n in range(nsets)] *)
Fixpoint field_preconds (st : settings) (npr : nat) (ns : list nat)
  : res (list (petsc_call IS)) :=
  match ns with
  | [] => Done []
  | n :: ns' =>
    calls <- field_precond st npr n ;;
    more <- field_preconds st npr ns' ;;
    Done (calls ++ more)%list
  end.

(** Lines 197-299: the block iterative method of a problem with several
    fields. *)
Definition block_setup (st : settings) (nfields : list nat) (npr : nat) (p : Pb)
  : res (list (petsc_call IS)) :=
  let head := [SetType npr (iterative_solver st)] in
  if Flow0D.eq_str (block_precond st) "fieldsplit" then
    splittype <- split_type_of st nfields ;;
    let iset := get_index_sets p (iset_options st) in
    let nsets := length iset in
    fields <- split_fields iset ;;
    len_pf <- lift (py_len (precond_fields st)) ;;
    if negb (Nat.eqb nsets len_pf) then Fail AssertionError else
    subs <- field_preconds st npr (seq 0 nsets) ;;
    Done (head ++ [PCSetType npr (PyStr "fieldsplit"); PCSetFieldSplitType npr splittype;
                   PCSetFieldSplitIS npr fields; GetFieldSplitSubKSP npr] ++ subs)%list
  else
    match python_precond (block_precond st) with
    | Some cls =>
      Done (head ++ [PCSetType npr (PyStr "python");
                     PCSetPythonContext npr cls (get_index_sets p (iset_options st))
                                        (precond_fields st)])%list
    | None => Fail unknown_block_precond
    end.

(** Lines 183-320: the solver of problem [npr]. *)
Definition setup_ksp (st : settings) (nfields : list nat) (npr : nat) (p : Pb)
  : res (list (petsc_call IS)) :=
  if Flow0D.eq_str (solvetype st) "direct" then
    Done [Create npr; SetType npr (PyStr "preonly"); PCSetType npr (PyStr "lu");
          PCSetFactorSolverType npr (direct_solver st)]
  else if Flow0D.eq_str (solvetype st) "iterative" then
    let head := [Create npr; SetInitialGuessNonzero npr false;
                 SetNormType npr (linnormtype st)] in
    pc <- (if (1 <? nth npr nfields 0)%nat then block_setup st nfields npr p
           else
             first <- lift (py_index (precond_fields st) 0) ;;
             if Flow0D.eq_str first "amg" then
               Done [PCSetType npr (PyStr "hypre"); PCSetMGLevels npr 3;
                     PCSetHYPREType npr "boomeramg"]
             else Fail unknown_single_precond) ;;
    Done (head ++ pc
          ++ [SetTolerances npr (tol_lin_rel st) (tol_lin_abs st) (maxliniter st);
              SetMonitor npr;
              OptionsSetValue "-ksp_gmres_modifiedgramschmidt" true;
              SetFromOptions npr])%list
  else Fail unknown_solvetype.

(** [initialize_petsc_solver]: [for npr in range(self.nprob)], from problem
    [npr] on. *)
Fixpoint initialize_petsc_solver (st : settings) (nfields : list nat) (npr : nat)
    (pbs : list Pb) : res (list (petsc_call IS)) :=
  match pbs with
  | [] => Done []
  | p :: rest =>
    calls <- setup_ksp st nfields npr p ;;
    more <- initialize_petsc_solver st nfields (S npr) rest ;;
    Done (calls ++ more)%list
  end.

(** *** The constructor, lines 31-92 *)

Record solver_nonlinear : Type := {
  pb : list Pb;
  nprob : nat;
  x : list (list Vec);
  is_ghosted : list (list Z);
  nfields : list nat;
  ptype : list string;
  params : settings;
  tolerances : list (gmap string pyval);
  resnorms : list (gmap string Q);
  incnorms : list (gmap string Q);
  ksp : list (petsc_call IS);
  subsol : option (SolverNonlin.solver_nonlinear_ode OdePb);
  lsp : Z;
  indlen : option Z;
  li_s : list Z;
  cp : option CP
}.

(** The sub-solver parameters as the dictionary the ODE solver reads; a
    value that is no dictionary cannot be asked for ['tol_res']. *)
Definition dict_of (v : pyval) : result (gmap string pyval) :=
  match v with
  | PyDict kv => Ok (list_to_map kv)
  | _ => Raise TypeError
  end.

(** [solver_nonlinear.__init__(self, pb, solver_params, cp)]: the object,
    and the caller's parameters as they are afterwards.
    [timestep_separator_len] of [sol_utils] is a parameter. *)
Definition init (timestep_separator_len : Z) (pbs : list Pb)
    (solver_params : gmap string pyval) (cp_ : option CP)
  : res (solver_nonlinear * gmap string pyval) :=
  _ <- lift (SolverNonlin.check_params_solver solver_params) ;;
  first <- match pbs with
           | p :: _ => Done p
           | [] => Fail (PyExn IndexError)
           end ;;
  let nprob_ := length pbs in
  let x_ := map (fun p => fst (get_problem_var_list p)) pbs in
  let is_ghosted_ := map (fun p => snd (get_problem_var_list p)) pbs in
  let nfields_ := map (fun p => length (fst (get_problem_var_list p))) pbs in
  let ptype_ := map fem_problem_physics pbs in
  configured <- set_solver_params solver_params ;;
  let '(st, solver_params') := configured in
  tolerances_ <- lift (tolerance_table (tolres st) (tolinc st) 0 nfields_) ;;
  ksp_ <- initialize_petsc_solver st nfields_ 0 pbs ;;
  subsol_ <-
    (if sub_solve first then
       sub_params <- lift (getitem solver_params' "subsolver_params") ;;
       d <- lift (dict_of sub_params) ;;
       sub <- lift (SolverNonlin.init [pb0 first] d) ;;
       Done (Some sub)
     else Done None) ;;
  let lsp_ := timestep_separator_len in
  Done ({| pb := pbs; nprob := nprob_; x := x_; is_ghosted := is_ghosted_;
           nfields := nfields_; ptype := ptype_; params := st;
           tolerances := tolerances_;
           resnorms := repeat ∅ nprob_; incnorms := repeat ∅ nprob_;
           ksp := ksp_; subsol := subsol_;
           lsp := if (1 <? nprob_)%nat then lsp_ + 54 else lsp_;
           indlen := if (1 <? nprob_)%nat then Some (lsp_ + 2) else None;
           li_s := []; cp := cp_ |},
        solver_params').

End Setup.

(** *** The local Newton, lines 692-745 *)

(** A local residual with its increment: what [project] makes of
    [residual_forms[i]] and [increment_forms[i]] on [functionspaces[i]] for
    the current values of the local variables. *)
Record local_form (Vec : Type) : Type := {
  increment_of : list Vec -> Vec;
  residual_of : list Vec -> Vec
}.
Arguments increment_of {Vec} _ _.
Arguments residual_of {Vec} _ _.

Inductive local_event : Type :=
| PrintLocalIter (it_local : Z) (res_sum inc_sum : Q).

Definition local_newton_fmt : string :=
  "Local Newton did not converge after %i iterations!".

(** [x <= tol] for a float [x] and a tolerance from the parameters. *)
Definition le_tol (x : Q) (tol : pyval) : result bool :=
  match num_of tol with
  | Some q => Ok (Qle_bool x q)
  | None => Raise TypeError
  end.

(** [np.sum] *)
Definition Qsum (l : list Q) : Q := fold_right Qplus 0%Q l.

Section LocalNewton.
Context {Vec Mat : Type} {petsc : SolverNonlin.Petsc Vec Mat}.
Context (norm_inf : Vec -> Q).   (* [v.norm(norm_type=3)] *)

(** Lines 717-720: [var[i].vector.axpy(1.0, increments[i].vector)] for
    [i = first, first+1, ...]; a missing [var[i]] ends it. *)
Fixpoint update_vars (first : nat) (increments : list Vec) (var : list Vec)
  : option exn * list Vec :=
  match increments with
  | [] => (None, var)
  | inc :: rest =>
    match var !! first with
    | Some v =>
      update_vars (S first) rest (<[first := SolverNonlin.vec_axpy 1 inc v]> var)
    | None => (Some IndexError, var)
    end
  end.

(** Lines 709-728: all increments from the variables as they are, then all
    updates, then all residuals from the updated variables; the sums of the
    inf norms. *)
Definition local_pass (forms : list (local_form Vec)) (var : list Vec)
  : option exn * list Vec * Q * Q :=
  let increments := map (fun fm => increment_of fm var) forms in
  let '(err, var') := update_vars 0 increments var in
  let residuals := map (fun fm => residual_of fm var') forms in
  (err, var', Qsum (map norm_inf residuals), Qsum (map norm_inf increments)).

(** Line 739: [sum(res_norms) <= tol_res_local and sum(inc_norms) <= tol_inc_local] *)
Definition local_converged (st : settings) (res_sum inc_sum : Q) : result bool :=
  (small <- le_tol res_sum (tol_res_local st) ;;
   if small then le_tol inc_sum (tol_inc_local st) else Ok false)%py.

(** [while it_local < maxiter_local: ... else: raise]: [it_local] counts up
    from 0 in steps of 1, so [left] passes remain when
    [left = maxiter_local - it_local]. *)
Fixpoint local_while (st : settings) (forms : list (local_form Vec)) (left : nat)
    (it_local : Z) (var : list Vec) (log : list local_event)
  : result unit * list Vec * list local_event :=
  match left with
  | O => (Raise (RuntimeError local_newton_fmt it_local), var, log)
  | S left' =>
    match local_pass forms var with
    | (Some e, var', _, _) => (Raise e, var', log)
    | (None, var', res_sum, inc_sum) =>
      let log' :=
        (log ++ (if Flow0D.truthy (print_local_iter st)
                 then [PrintLocalIter it_local res_sum inc_sum] else []))%list in
      match local_converged st res_sum inc_sum with
      | Raise e => (Raise e, var', log')
      | Ok true => (Ok tt, var', log')
      | Ok false => local_while st forms left' (it_local + 1) var' log'
      end
    end
  end.

(** [newton_local(self, var, residual_forms, increment_forms, functionspaces,
    maxiter_local)] *)
Definition newton_local (st : settings) (var : list Vec) (forms : list (local_form Vec))
    (maxiter_local : Z) : result unit * list Vec * list local_event :=
  local_while st forms (Z.to_nat maxiter_local) 0 var [].

(** The variables after [k] passes, with the sums of the norms of the last
    one, when no pass ran out of variables. *)
Fixpoint after_passes (forms : list (local_form Vec)) (k : nat) (var : list Vec)
  : option (list Vec * Q * Q) :=
  match k with
  | O => Some (var, inject_Z (Z.of_nat (length forms)),
               inject_Z (Z.of_nat (length forms)))   (* [np.ones(num_loc_res)] *)
  | S k' =>
    match after_passes forms k' var with
    | Some (var', _, _) =>
      match local_pass forms var' with
      | (None, var'', res_sum, inc_sum) => Some (var'', res_sum, inc_sum)
      | (Some _, _, _, _) => None
      end
    | None => None
    end
  end.

End LocalNewton.

(** *** Stand-ins for running the set-up and the local Newton *)

(** A problem with [tf_fields] fields, each with its own index set. *)
Record toy_fem_pb : Type := { tf_fields : nat; tf_sub : bool }.

Definition toy_fem : FemProblem toy_fem_pb SolverNonlin.scalar_pb Q nat :=
  {| get_problem_var_list :=
       fun p => (repeat 0%Q (tf_fields p), repeat 1%Z (tf_fields p));
     fem_problem_physics := fun _ => "solid";
     get_index_sets := fun p _ => seq 0 (tf_fields p);
     sub_solve := tf_sub;
     pb0 := fun _ => SolverNonlin.p_start |}.

Definition toy_init (pbs : list toy_fem_pb) (solver_params : gmap string pyval)
  : res (solver_nonlinear (Pb := toy_fem_pb) (OdePb := SolverNonlin.scalar_pb)
           (Vec := Q) (IS := nat) (CP := unit)
         * gmap string pyval) :=
  init (fem := toy_fem) (ode := SolverNonlin.scalar_problem)
    (collab := SolverNonlin.spec_collaborators) 86 pbs solver_params None.

Definition direct_params : gmap string pyval :=
  <["solve_type" := PyStr "direct"]> SolverNonlin.demo_solver_params.

Definition iterative_params : gmap string pyval :=
  <["solve_type" := PyStr "iterative"]> SolverNonlin.demo_solver_params.

(** A local variable pulled half the way to 1 in every pass. *)
Definition halving_form : local_form Q :=
  {| increment_of := fun var => match var with
                                | v :: _ => Qred ((1 - v) / 2)
                                | [] => 0%Q
                                end;
     residual_of := fun var => match var with
                               | v :: _ => Qred (1 - v)
                               | [] => 0%Q
                               end |}.

Definition local_settings (tol : Q) : settings :=
  {| maxiter := PyNum 25; divcont := PyNone; PTC := PyBool false;
     k_PTC_initial := PyNum (1 # 10);
     PTC_randadapt_range := PyList [PyNum (85 # 100); PyNum (135 # 100)];
     maxresval := PyNum 10000000000000000; direct_solver := PyStr "mumps";
     iterative_solver := PyStr "gmres"; precond_fields := PyList [];
     fieldsplit_type := PyStr "jacobi"; block_precond := PyStr "fieldsplit";
     tol_lin_rel := PyNum (1 # 100000);
     tol_lin_abs := PyNum (1 # 100000000000000000000000000000000000000000000000000);
     res_lin_monitor := PyStr "rel"; maxliniter := PyNum 1200;
     lin_norm_type := PyStr "unpreconditioned"; linnormtype := 2;
     print_liniter_every := PyNum 1;
     iset_options := [("lms_to_p", PyBool false); ("lms_to_v", PyBool false);
                      ("rom_to_new", PyBool false)];
     print_local_iter := PyBool true;
     tol_res_local := PyNum tol; tol_inc_local := PyNum tol;
     solvetype := PyStr "direct";
     tolres := PyNum (1 # 100000000); tolinc := PyNum (1 # 100000000) |}.

Definition toy_newton_local (tol : Q) (maxiter_local : Z)
  : result unit * list Q * list local_event :=
  newton_local (petsc := SolverNonlin.scalar_petsc) Qabs (local_settings tol)
    [0%Q] [halving_form] maxiter_local.

End SolverNonlinear.

(** ** [solid_flow0d_growthremodel.py]: multiscale growth and remodeling *)

Module Multiscale.

Import SolverNonlinear.
Local Open Scope res_scope.

(** *** Dictionaries as the code uses them *)

Local Abbreviation dict := (list (string * pyval)).

(** [d[k] = v]: an existing key keeps its place, a new one goes to the end. *)
Fixpoint dict_set (k : string) (v : pyval) (d : dict) : dict :=
  match d with
  | [] => [(k, v)]
  | (k', v') :: rest =>
    if String.eqb k' k then (k, v) :: rest else (k', v') :: dict_set k v rest
  end.

Definition dict_remove (k : string) (d : dict) : dict :=
  List.filter (fun kv => negb (String.eqb (fst kv) k)) d.

(** [d.pop(k)] *)
Definition dict_pop (k : string) (d : dict) : result dict :=
  match assoc k d with
  | Some _ => Ok (dict_remove k d)
  | None => Raise (KeyError k)
  end.

(** ['MAT'+str(n+1)+''] *)
Definition mat_key (n : nat) : string := "MAT" ++ pretty (n + 1)%nat.

(** *** The constitutive models of the two scales, lines 46-70 *)

(** Lines 49-51, for material [n]: the growth trigger of the small scale
    becomes ['prescribed_multiscale'], the user's trigger is kept under
    ['growth_settrig'].  The materials are taken to be dictionaries of their
    own, not one object under several keys. *)
Definition set_growth_small (n : nat) (constitutive_models : dict) : result dict :=
  (mat <- py_key (PyDict constitutive_models) (mat_key n) ;;
   growth <- py_key mat "growth" ;;
   growth_trig <- py_key growth "growth_trig" ;;
   match mat, growth with
   | PyDict m, PyDict g =>
     let g1 := dict_set "growth_trig" (PyStr "prescribed_multiscale") g in
     let g2 := dict_set "growth_settrig" growth_trig g1 in
     Ok (dict_set (mat_key n) (PyDict (dict_set "growth" (PyDict g2) m))
           constitutive_models)
   | _, _ => Raise TypeError
   end)%py.

(** Lines 55-59: [try: pop('inertia'); pop('rayleigh_damping')  except: pass] *)
Definition remove_dynamics (n : nat) (large : dict) : dict :=
  match py_key (PyDict large) (mat_key n) with
  | Ok (PyDict m) =>
    match dict_pop "inertia" m with
    | Ok m1 =>
      let m2 := match dict_pop "rayleigh_damping" m1 with
                | Ok m2 => m2
                | Raise _ => m1
                end in
      dict_set (mat_key n) (PyDict m2) large
    | Raise _ => large
    end
  | _ => large
  end.

(** Lines 65-69: [try: ['active_fiber'][...] = True; ['active_iso'][...] = True
    except: pass] *)
Definition prescribe_active (m : dict) : dict :=
  match assoc "active_fiber" m with
  | Some (PyDict af) =>
    let m1 := dict_set "active_fiber"
                (PyDict (dict_set "prescribed_multiscale" (PyBool true) af)) m in
    match assoc "active_iso" m1 with
    | Some (PyDict ai) =>
      dict_set "active_iso"
        (PyDict (dict_set "prescribed_multiscale" (PyBool true) ai)) m1
    | _ => m1
    end
  | _ => m
  end.

(** Lines 54-69 for material [n] of the large scale. *)
Definition set_large (n : nat) (large : dict) : res dict :=
  let large1 := remove_dynamics n large in
  mat <- lift (py_key (PyDict large1) (mat_key n)) ;;
  match mat with
  | PyDict m =>
    (* we must have a growth law in each material *)
    match assoc "growth" m with
    | Some _ => Done (dict_set (mat_key n) (PyDict (prescribe_active m)) large1)
    | None => Fail AssertionError
    end
  | _ => Fail AttributeError
  end.

Fixpoint small_loop (ns : list nat) (constitutive_models : dict) : result dict :=
  match ns with
  | [] => Ok constitutive_models
  | n :: ns' =>
    (cm <- set_growth_small n constitutive_models ;; small_loop ns' cm)%py
  end.

Fixpoint large_loop (ns : list nat) (large : dict) : res dict :=
  match ns with
  | [] => Done large
  | n :: ns' => l <- set_large n large ;; large_loop ns' l
  end.

(** Lines 44-70: the models of the small scale (the caller's dictionary,
    changed in place) and those of the large scale (a deep copy taken
    before). *)
Definition split_models (constitutive_models : dict) : res (dict * dict) :=
  let constitutive_models_large := constitutive_models in
  small <- lift (small_loop (seq 0 (length constitutive_models)) constitutive_models) ;;
  large <- large_loop (seq 0 (length constitutive_models_large))
             constitutive_models_large ;;
  Done (small, large).

(** *** The problem, lines 28-101 *)

(** The inputs that are only handed on to the two problem classes. *)
Record inputs : Type := {
  io_params : gmap string pyval;
  time_params_solid_small : gmap string pyval;
  time_params_solid_large : gmap string pyval;
  time_params_flow0d : gmap string pyval;
  fem_params : gmap string pyval;
  model_params_flow0d : gmap string pyval;
  bc_dict : gmap string pyval;
  coupling_params : gmap string pyval
}.

(** The problem classes of [solid.py] and [solid_flow0d.py], with what this
    module reads from their objects. *)
Class Scales (Small Large : Type) : Type := {
  SolidmechanicsFlow0DProblem : inputs -> dict -> result Small;
  SolidmechanicsProblem : inputs -> dict -> result Large;
  small_t_ed : Small -> Q;            (* [pbsmall.pbf.cardvasc0D.t_ed] *)
  small_t_es : Small -> Q;            (* [pbsmall.pbf.cardvasc0D.t_es] *)
  small_prestress_initial : Small -> pyval;
  small_simname : Small -> string;    (* [pbsmall.pbs.io.simname] *)
  large_simname : Large -> string     (* [pblarge.io.simname] *)
}.

Record problem (Small Large : Type) : Type := {
  problem_physics : string;
  N_cycles : pyval;
  restart_cycle : pyval;
  restart_from_small : pyval;
  constitutive_models_small : dict;
  constitutive_models_large : dict;
  pbsmall : Small;
  pblarge : Large;
  tol_small : pyval;
  tol_large : pyval;
  tol_outer : pyval;
  small_eps_periodic : pyval;         (* [pbsmall.pbf.eps_periodic] *)
  large_tol_stop_large : pyval;       (* [pblarge.tol_stop_large] *)
  prestress_initial : pyval;
  large_prestress_initial : pyval;    (* [pblarge.prestress_initial] *)
  simname_small : string;
  simname_large : string;
  t_gandr_setpoint : Q
}.
Arguments problem_physics {Small Large} _.
Arguments N_cycles {Small Large} _.
Arguments restart_cycle {Small Large} _.
Arguments restart_from_small {Small Large} _.
Arguments constitutive_models_small {Small Large} _.
Arguments constitutive_models_large {Small Large} _.
Arguments pbsmall {Small Large} _.
Arguments pblarge {Small Large} _.
Arguments tol_small {Small Large} _.
Arguments tol_large {Small Large} _.
Arguments tol_outer {Small Large} _.
Arguments small_eps_periodic {Small Large} _.
Arguments large_tol_stop_large {Small Large} _.
Arguments prestress_initial {Small Large} _.
Arguments large_prestress_initial {Small Large} _.
Arguments simname_small {Small Large} _.
Arguments simname_large {Small Large} _.
Arguments t_gandr_setpoint {Small Large} _.

Definition unknown_trigger_phase : error :=
  PyExn (NameError "Unknown growth multiscale_trigger_phase").

Section Problem.
Context {Small Large : Type} {scales : Scales Small Large}.

(** [SolidmechanicsFlow0DMultiscaleGrowthRemodelingProblem.__init__]; the
    variational forms of the last line are not modelled. *)
Definition Problem_init (inp : inputs) (constitutive_models : dict)
    (multiscale_params : gmap string pyval) : res (problem Small Large) :=
  gandr_trigger_phase <- lift (getitem multiscale_params "gandr_trigger_phase") ;;
  N_cycles_ <- lift (getitem multiscale_params "numcycles") ;;
  let restart_cycle_ := try_get multiscale_params "restart_cycle" (PyNum 0) in
  let restart_from_small_ :=
    try_get multiscale_params "restart_from_small" (PyBool false) in
  models <- split_models constitutive_models ;;
  let '(small_models, large_models) := models in
  (* we have to be quasi-static on the large scale! *)
  timint <- lift (getitem (time_params_solid_large inp) "timint") ;;
  if negb (Flow0D.eq_str timint "static") then Fail AssertionError else
  (* initialize problem instances *)
  pbsmall_ <- lift (SolidmechanicsFlow0DProblem inp small_models) ;;
  pblarge_ <- lift (SolidmechanicsProblem inp large_models) ;;
  tol_small_ <- lift (getitem multiscale_params "tol_small") ;;
  tol_large_ <- lift (getitem multiscale_params "tol_large") ;;
  tol_outer_ <- lift (getitem multiscale_params "tol_outer") ;;
  setpoint <-
    (if Flow0D.eq_str gandr_trigger_phase "end_diastole" then Done (small_t_ed pbsmall_)
     else if Flow0D.eq_str gandr_trigger_phase "end_systole"
          then Done (small_t_es pbsmall_)
     else Fail unknown_trigger_phase) ;;
  Done {| problem_physics := "solid_flow0d_multiscale_gandr";
          N_cycles := N_cycles_;
          restart_cycle := restart_cycle_;
          restart_from_small := restart_from_small_;
          constitutive_models_small := small_models;
          constitutive_models_large := large_models;
          pbsmall := pbsmall_;
          pblarge := pblarge_;
          tol_small := tol_small_;
          tol_large := tol_large_;
          tol_outer := tol_outer_;
          (* override by tol_small *)
          small_eps_periodic := tol_small_;
          large_tol_stop_large := tol_large_;
          prestress_initial := small_prestress_initial pbsmall_;
          large_prestress_initial := PyBool false;
          simname_small := small_simname pbsmall_ ++ "_small";
          simname_large := large_simname pblarge_ ++ "_large";
          t_gandr_setpoint := setpoint |}.

End Problem.

(** *** The outer loop, lines 153-239 *)

Inductive ms_event : Type :=
| CycleNames (small large : string)
| SetStateSmall
| SolveSmall
| WriteCheckpointSmall (N : Z)
| ReadCheckpointSmall (N : Z)
| SetStateLarge (N : Z)
| SolveLarge
| WriteCheckpointLarge (N : Z)
| PrintVolchange (volchange : Q).

(** What the loop asks of the two solvers and of the state transfer between
    the scales; [St] is the state of both problems. *)
Class Transfer (St : Type) : Type := {
  (* lines 164-168: [t_prev] and the output names of the cycle *)
  begin_cycle : string -> string -> St -> St;
  set_state_small : St -> St;
  solve_small : St -> result St;            (* [solversmall.solve_problem()] *)
  restart_small : Z -> St -> St;            (* lines 189-198, reading checkpoint [N] *)
  set_state_large : Z -> St -> St;
  compute_volume_large : St -> Q;
  solve_large : St -> result St             (* [solverlarge.solve_problem()] *)
}.

(** The value of an [int]; a number with a fraction is none. *)
Definition as_int (v : pyval) : result Z :=
  match num_of v with
  | Some q => if Qeq_bool (inject_Z (Qfloor q)) q then Ok (Qfloor q) else Raise TypeError
  | None => Raise TypeError
  end.

Record run (St : Type) : Type := {
  state : St;
  from_small : bool;       (* [self.pb.restart_from_small] *)
  log : list ms_event
}.
Arguments state {St} _.
Arguments from_small {St} _.
Arguments log {St} _.

Section Solver.
Context {St : Type} {transfer : Transfer St}.

(** One pass of the loop, for cycle [N]. *)
Definition cycle_pass (simname_small_ simname_large_ : string) (restart_cycle_ : Z)
    (tol_outer_ : pyval) (N : Z) (r : run St) : Flow0D.flow (run St) :=
  let log1 := (log r ++ [CycleNames (simname_small_ ++ pretty N)
                                    (simname_large_ ++ pretty N);
                         SetStateSmall])%list in
  let st1 := set_state_small
               (begin_cycle (simname_small_ ++ pretty N) (simname_large_ ++ pretty N)
                  (state r)) in
  let small :=
    if negb (from_small r) then
      match solve_small st1 with
      | Ok st2 => Ok (st2, (log1 ++ [SolveSmall; WriteCheckpointSmall N])%list)
      | Raise e => Raise e
      end
    else
      Ok (restart_small (restart_cycle_ + 1) st1,
          (log1 ++ [ReadCheckpointSmall (restart_cycle_ + 1)])%list) in
  match small with
  | Raise e => Flow0D.Abort e {| state := st1; from_small := from_small r;
                                 log := (log1 ++ [SolveSmall])%list |}
  | Ok (st2, log2) =>
    (* set large scale state *)
    let st3 := set_state_large N st2 in
    (* compute volume prior to G&R *)
    let vol_prior := compute_volume_large st3 in
    let log3 := (log2 ++ [SetStateLarge N; SolveLarge])%list in
    match solve_large st3 with
    | Raise e => Flow0D.Abort e {| state := st3; from_small := false; log := log3 |}
    | Ok st4 =>
      (* compute volume after G&R *)
      let vol_after := compute_volume_large st4 in
      let log4 := (log3 ++ [WriteCheckpointLarge N])%list in
      (* relative volume increase over large scale run *)
      if Qeq_bool vol_prior 0 then
        Flow0D.Abort ZeroDivisionError
          {| state := st4; from_small := false; log := log4 |}
      else
        let volchange := ((vol_after - vol_prior) / vol_prior)%Q in
        let r' := {| state := st4; from_small := false;
                     log := (log4 ++ [PrintVolchange volchange])%list |} in
        (* check if below tolerance *)
        match le_tol (Qabs volchange) tol_outer_ with
        | Raise e => Flow0D.Abort e r'
        | Ok true => Flow0D.Break r'
        | Ok false => Flow0D.Next r'
        end
    end
  end.

(** [for N in range(restart_cycle+1, N_cycles+1)] over the given cycles. *)
Fixpoint outer_loop (simname_small_ simname_large_ : string) (restart_cycle_ : Z)
    (tol_outer_ : pyval) (Ns : list Z) (r : run St) : option exn * run St :=
  match Ns with
  | [] => (None, r)
  | N :: Ns' =>
    match cycle_pass simname_small_ simname_large_ restart_cycle_ tol_outer_ N r with
    | Flow0D.Next r' =>
      outer_loop simname_small_ simname_large_ restart_cycle_ tol_outer_ Ns' r'
    | Flow0D.Break r' => (None, r')
    | Flow0D.Abort e r' => (Some e, r')
    end
  end.

(** [SolidmechanicsFlow0DMultiscaleGrowthRemodelingSolver.solve_problem] on a
    problem and the state of its two scales. *)
Definition solve_problem {Small Large : Type} (pb : problem Small Large) (st : St)
  : option exn * run St :=
  let start := {| state := st; from_small := Flow0D.truthy (restart_from_small pb);
                  log := [] |} in
  match as_int (restart_cycle pb), as_int (N_cycles pb) with
  | Ok rc, Ok nc =>
    outer_loop (simname_small pb) (simname_large pb) rc (tol_outer pb)
      (seqZ (rc + 1) (nc - rc)) start
  | Raise e, _ => (Some e, start)
  | _, Raise e => (Some e, start)
  end.

End Solver.

(** The cycles at which the small scale was solved, the checkpoints read
    for the small scale, and the volume changes, in the order of the log. *)
Definition small_solves (l : list ms_event) : list Z :=
  omap (fun e => match e with WriteCheckpointSmall N => Some N | _ => None end) l.

Definition small_restarts (l : list ms_event) : list Z :=
  omap (fun e => match e with ReadCheckpointSmall N => Some N | _ => None end) l.

Definition large_solves (l : list ms_event) : list Z :=
  omap (fun e => match e with WriteCheckpointLarge N => Some N | _ => None end) l.

Definition volchanges (l : list ms_event) : list Q :=
  omap (fun e => match e with PrintVolchange v => Some v | _ => None end) l.

(** *** Stand-ins for running the two scales *)

Definition toy_scales : Scales (list (string * pyval)) (list (string * pyval)) :=
  {| SolidmechanicsFlow0DProblem := fun _ cm => Ok cm;
     SolidmechanicsProblem := fun _ cm => Ok cm;
     small_t_ed := fun _ => 2 # 10;
     small_t_es := fun _ => 53 # 100;
     small_prestress_initial := fun _ => PyBool true;
     small_simname := fun _ => "heart";
     large_simname := fun _ => "heart" |}.

Definition toy_inputs : inputs :=
  {| io_params := ∅; time_params_solid_small := ∅;
     time_params_solid_large := <["timint" := PyStr "static"]> ∅;
     time_params_flow0d := ∅; fem_params := ∅; model_params_flow0d := ∅;
     bc_dict := ∅; coupling_params := ∅ |}.

(** Two materials: the first with inertia, damping and both active
    stresses, the second with damping and isotropic active stress only. *)
Definition toy_models : list (string * pyval) :=
  [("MAT1", PyDict [("neohooke", PyDict [("mu", PyNum 10)]);
                    ("inertia", PyDict [("rho0", PyNum 1)]);
                    ("rayleigh_damping", PyDict [("eta_m", PyNum 0)]);
                    ("active_fiber", PyDict [("sigma0", PyNum 50)]);
                    ("active_iso", PyDict [("sigma0", PyNum 50)]);
                    ("growth", PyDict [("growth_dir", PyStr "isotropic");
                                       ("growth_trig", PyStr "volstress")])]);
   ("MAT2", PyDict [("neohooke", PyDict [("mu", PyNum 10)]);
                    ("rayleigh_damping", PyDict [("eta_m", PyNum 0)]);
                    ("active_iso", PyDict [("sigma0", PyNum 50)]);
                    ("growth", PyDict [("growth_trig", PyStr "fibstretch")])])].

Definition toy_multiscale_params : gmap string pyval :=
  <["gandr_trigger_phase" := PyStr "end_diastole"]>
  (<["numcycles" := PyNum 10]>
  (<["tol_small" := PyNum (1 # 100)]>
  (<["tol_large" := PyNum (1 # 1000)]>
  (<["tol_outer" := PyNum (1 # 4)]> ∅)))).

Definition toy_problem (multiscale_params : gmap string pyval)
  : res (problem (list (string * pyval)) (list (string * pyval))) :=
  Problem_init (scales := toy_scales) toy_inputs toy_models multiscale_params.

(** The state is a volume and a growth rate; a large scale solve grows the
    volume by the rate and halves the rate. *)
Definition toy_transfer : Transfer (Q * Q) :=
  {| begin_cycle := fun _ _ st => st;
     set_state_small := fun st => st;
     solve_small := fun st => Ok st;
     restart_small := fun _ st => st;
     set_state_large := fun _ st => st;
     compute_volume_large := fst;
     solve_large := fun st => Ok (Qred (fst st * (1 + snd st)), Qred (snd st / 2)) |}.

Definition toy_solve (multiscale_params : gmap string pyval)
  : res (option exn * run (Q * Q)) :=
  pb <- toy_problem multiscale_params ;;
  Done (solve_problem (transfer := toy_transfer) pb (1, 1 # 2)%Q).

End Multiscale.

(** ** [demos/flow0d/bleed.py]: parameters and initial conditions *)

Module BleedData.

Local Open Scope Q_scope.

(** [max(a, b)] *)
Definition pymax (a b : Q) : Q := if Qltb a b then b else a.

(** [param(bleed)], in the kg-mm-s unit system; decimal literals as exact
    fractions. *)
Definition param (bleed : bool) : list (string * pyval) :=
  let R_bleed_factor := if bleed then 149 # 100 else 1 in
  let E_bleed_factor := if bleed then 149 # 100 else 1 in
  (* timings *)
  let T_cycl := 4 # 10 in
  let t_ed := (2 # 10) * T_cycl in
  let t_es := (53 # 100) * T_cycl in
  let hr_base_val := 1 in
  let hr_ratio := (hr_base_val - T_cycl) / hr_base_val in
  let E_hr_factor := 1 + hr_ratio * (85 # 100) in
  let E_factor := E_bleed_factor * E_hr_factor in
  let R_ven_sys_factor := pymax (1 - hr_ratio * (15 # 10)) (1 # 10) in
  let R_ar_sys := R_bleed_factor * (120 # 1000000) in
  let tau_ar_sys := 10311433159 # 10000000000 in
  let tau_ar_pul := 3 # 10 in
  let C_ar_sys := tau_ar_sys / R_ar_sys in
  let Z_ar_sys := R_ar_sys / 20 in
  let R_ven_sys := R_ven_sys_factor * R_ar_sys / 5 in
  let C_ven_sys := 30 * C_ar_sys in
  let R_ar_pul := R_ar_sys / 8 in
  let C_ar_pul := tau_ar_pul / R_ar_pul in
  let R_ven_pul := R_ar_pul in
  let C_ven_pul := (25 # 10) * C_ar_pul in
  let L_ar_sys := 667 # 1000000000 in
  let L_ven_sys := 0 in
  let L_ar_pul := 0 in
  let L_ven_pul := 0 in
  (* atrial elastances *)
  let E_factor := 1 + hr_ratio * (85 # 100) in
  let E_at_max_l := E_factor * (29 # 1000000) in
  let E_at_min_l := E_factor * (9 # 1000000) in
  let E_at_max_r := E_factor * (18 # 1000000) in
  let E_at_min_r := E_factor * (8 # 1000000) in
  (* ventricular elastances *)
  let E_v_max_l := E_factor * (30 # 100000) in
  let E_v_min_l := E_factor * (12 # 1000000) in
  let E_v_max_r := E_factor * (20 # 100000) in
  let E_v_min_r := E_factor * (10 # 1000000) in
  let I_ext := 0 in
  let I_ext_start := 0 in
  let I_ext_duration := 2000 in
  let I_ext_period := 10 in
  let I_ext_bleed := 7 in
  let volume_loss := 2000 in
  [("I_ext", PyNum I_ext);
   ("I_ext_start", PyNum I_ext_start);
   ("I_ext_duration", PyNum I_ext_duration);
   ("I_ext_period", PyNum I_ext_period);
   ("I_ext_bleed", PyNum I_ext_bleed);
   ("volume_loss", PyNum volume_loss);
   ("R_ar_sys", PyNum R_ar_sys);
   ("C_ar_sys", PyNum C_ar_sys);
   ("L_ar_sys", PyNum L_ar_sys);
   ("Z_ar_sys", PyNum Z_ar_sys);
   ("R_ar_pul", PyNum R_ar_pul);
   ("C_ar_pul", PyNum C_ar_pul);
   ("L_ar_pul", PyNum L_ar_pul);
   ("R_ven_sys", PyNum R_ven_sys);
   ("C_ven_sys", PyNum C_ven_sys);
   ("L_ven_sys", PyNum L_ven_sys);
   ("R_ven_pul", PyNum R_ven_pul);
   ("C_ven_pul", PyNum C_ven_pul);
   ("L_ven_pul", PyNum L_ven_pul);
   (* atrial elastances *)
   ("E_at_max_l", PyNum E_at_max_l);
   ("E_at_min_l", PyNum E_at_min_l);
   ("E_at_max_r", PyNum E_at_max_r);
   ("E_at_min_r", PyNum E_at_min_r);
   (* ventricular elastances *)
   ("E_v_max_l", PyNum E_v_max_l);
   ("E_v_min_l", PyNum E_v_min_l);
   ("E_v_max_r", PyNum E_v_max_r);
   ("E_v_min_r", PyNum E_v_min_r);
   (* valve resistances *)
   ("R_vin_l_min", PyNum (1 # 1000000));
   ("R_vin_l_max", PyNum 10);
   ("R_vout_l_min", PyNum (1 # 1000000));
   ("R_vout_l_max", PyNum 10);
   ("R_vin_r_min", PyNum (1 # 1000000));
   ("R_vin_r_max", PyNum 10);
   ("R_vout_r_min", PyNum (1 # 1000000));
   ("R_vout_r_max", PyNum 10);
   (* timings *)
   ("t_ed", PyNum t_ed);
   ("t_es", PyNum t_es);
   ("T_cycl", PyNum T_cycl);
   (* unstressed compartment volumes *)
   ("V_at_l_u", PyNum 5000);
   ("V_at_r_u", PyNum 4000);
   ("V_v_l_u", PyNum 10000);
   ("V_v_r_u", PyNum 8000);
   ("V_ar_sys_u", PyNum 611000);
   ("V_ar_pul_u", PyNum 123000);
   ("V_ven_sys_u", PyNum 0);
   ("V_ven_pul_u", PyNum 120000)].

(** [init(bleed)] *)
Definition init (bleed : bool) : list (string * pyval) :=
  if bleed then
    [("q_vin_l_0", PyNum 0);
     ("p_at_l_0", PyNum (599950804034 # 1000000000000));
     ("q_vout_l_0", PyNum 0);
     ("p_v_l_0", PyNum (599950804034 # 1000000000000));
     ("p_ar_sys_0", PyNum (887 # 100));
     ("q_ar_sys_0", PyNum 0);
     ("p_ven_sys_0", PyNum (61 # 100));
     ("q_ven_sys_0", PyNum 0);
     ("q_vin_r_0", PyNum 0);
     ("p_at_r_0", PyNum (933256806275 # 10000000000000));
     ("q_vout_r_0", PyNum 0);
     ("p_v_r_0", PyNum (933256806275 # 10000000000000));
     ("p_ar_pul_0", PyNum (322792679389 # 100000000000));
     ("q_ar_pul_0", PyNum 0);
     ("p_ven_pul_0", PyNum (159986881076 # 100000000000));
     ("q_ven_pul_0", PyNum 0)]
  else
    [("q_vin_l_0", PyNum 0);
     ("p_at_l_0", PyNum (599950804034 # 1000000000000));
     ("q_vout_l_0", PyNum 0);
     ("p_v_l_0", PyNum (599950804034 # 1000000000000));
     ("p_ar_sys_0", PyNum (984 # 100));
     ("q_ar_sys_0", PyNum 0);
     ("p_ven_sys_0", PyNum (259 # 100));
     ("q_ven_sys_0", PyNum 0);
     ("q_vin_r_0", PyNum 0);
     ("p_at_r_0", PyNum (933256806275 # 10000000000000));
     ("q_vout_r_0", PyNum 0);
     ("p_v_r_0", PyNum (933256806275 # 10000000000000));
     ("p_ar_pul_0", PyNum (322792679389 # 100000000000));
     ("q_ar_pul_0", PyNum 0);
     ("p_ven_pul_0", PyNum (159986881076 # 100000000000));
     ("q_ven_pul_0", PyNum 0)].

(** The entries of [param] that carry the bleeding factor. *)
Definition bleed_sensitive : list string :=
  ["R_ar_sys"; "C_ar_sys"; "Z_ar_sys"; "R_ar_pul"; "C_ar_pul";
   "R_ven_sys"; "C_ven_sys"; "R_ven_pul"; "C_ven_pul"].

End BleedData.

(** ** [tests/test_frsi_artseg_modepartitionunity.py]: the load curve *)

Module ArtsegTest.

Local Open Scope R_scope.

Definition t_ramp : R := 2.
Definition p0 : R := 0.
Definition pinfl : R := 1.

(** A comparison as the factor 1.0 or 0.0 it becomes in a product. *)
Definition as_float (b : bool) : R := if b then 1 else 0.

(** [time_curves.tc1]: the inflation pressure, ramped up over [t_ramp]. *)
Definition tc1 (t : R) : R :=
  (5 / 10 * (- (pinfl - p0)) * (1 - cos (PI * t / t_ramp)) + (- p0))
  * as_float (if Rlt_dec t t_ramp then true else false)
  + (- pinfl) * as_float (if Rge_dec t t_ramp then true else false).

End ArtsegTest.

(** * Properties *)

(** ** The ODE Newton solver *)

Section NewtonFacts.
Import SolverNonlin.
Context {Pb Vec Mat : Type}.
Context {petsc : Petsc Vec Mat} {problem : OdeProblem Pb Vec Mat}.

Lemma Qltb_lt (x y : Q) : Qltb x y = true <-> (x < y)%Q.
Proof.
  unfold Qltb. rewrite negb_true_iff. split.
  - intros H. apply Qnot_le_lt. intros Hle.
    apply Qle_bool_iff in Hle. congruence.
  - intros H. destruct (Qle_bool y x) eqn:E; [|reflexivity].
    apply Qle_bool_iff in E. exfalso. exact (Qlt_not_le _ _ H E).
Qed.

(** [it < maxiter] for an integer [it] looks at the ceiling of [maxiter] only. *)
Lemma Qltb_inject_ceiling (it : Z) (m : Q) :
  Qltb (inject_Z it) m = (it <? Qceiling m)%Z.
Proof.
  destruct (Z.ltb_spec it (Qceiling m)) as [Hlt|Hge].
  - apply Qltb_lt.
    apply Qle_lt_trans with (inject_Z (Qceiling m - 1)); [|apply Qceiling_lt].
    rewrite <- Zle_Qle. lia.
  - destruct (Qltb (inject_Z it) m) eqn:E; [|reflexivity].
    apply Qltb_lt in E.
    assert (H : (inject_Z it < inject_Z (Qceiling m))%Q)
      by (eapply Qlt_le_trans; [exact E | apply Qle_ceiling]).
    rewrite <- Zlt_Qlt in H. lia.
Qed.

Section WithCollaborators.
Context {collab : Collaborators}.

(** A pass changes the problem state and the norms, nothing else. *)
Lemma newton_pass_frame (t : Q) (pi : bool) (it : Z) (r : Vec)
    (self : solver_nonlinear_ode Pb) (log : list event) :
  exists r' self' log',
    newton_pass t pi it (r, self, log) = (r', self', log')
    /\ maxiter self' = maxiter self /\ PTC self' = PTC self
    /\ tolerances self' = tolerances self /\ ni self' = ni self /\ li self' = li self
    /\ log' = (log ++ [EvStiffness; EvLinSolve; EvAxpy 1; EvResidual]
                   ++ when pi [EvPrintIter it])%list.
Proof. unfold newton_pass. cbn. eauto 12. Qed.

Lemma newton_passes_S (k : nat) (t : Q) (pi : bool) (it : Z) (st : loop_state) :
  newton_passes (S k) t pi it st
  = newton_pass t pi (it + Z.of_nat k) (newton_passes k t pi it st).
Proof.
  revert it st. induction k as [|k IH]; intros it st.
  - cbn. now rewrite Z.add_0_r.
  - change (newton_passes (S (S k)) t pi it st)
      with (newton_passes (S k) t pi (it + 1) (newton_pass t pi it st)).
    rewrite IH. cbn [newton_passes].
    replace (it + 1 + Z.of_nat k) with (it + Z.of_nat (S k)) by lia.
    reflexivity.
Qed.

Lemma solves_app (l1 l2 : list event) : solves (l1 ++ l2) = (solves l1 + solves l2)%nat.
Proof. unfold solves. now rewrite List.filter_app, length_app. Qed.

Lemma assemblies_app (l1 l2 : list event) :
  assemblies (l1 ++ l2) = (assemblies l1 + assemblies l2)%nat.
Proof. unfold assemblies. now rewrite List.filter_app, length_app. Qed.

Lemma full_steps_app (l1 l2 : list event) :
  full_steps (l1 ++ l2) <-> full_steps l1 /\ full_steps l2.
Proof. unfold full_steps. apply Forall_app. Qed.

Lemma when_print_quiet (b : bool) (it : Z) :
  solves (when b [EvPrintIter it]) = O /\ assemblies (when b [EvPrintIter it]) = O
  /\ full_steps (when b [EvPrintIter it]).
Proof. destruct b; cbn; repeat split; repeat constructor. Qed.

(** What [k] passes do to the solver object and to the log. *)
Lemma newton_passes_frame (k : nat) (t : Q) (pi : bool) (it : Z) (r : Vec)
    (self : solver_nonlinear_ode Pb) (log : list event) :
  exists r' self' log',
    newton_passes k t pi it (r, self, log) = (r', self', log')
    /\ maxiter self' = maxiter self /\ PTC self' = PTC self
    /\ tolerances self' = tolerances self /\ ni self' = ni self /\ li self' = li self
    /\ solves log' = (solves log + k)%nat
    /\ assemblies log' = (assemblies log + k)%nat
    /\ (full_steps log -> full_steps log').
Proof.
  revert it r self log. induction k as [|k IH]; intros it r self log.
  - exists r, self, log. cbn. repeat split; auto.
  - cbn [newton_passes].
    destruct (newton_pass_frame t pi it r self log)
      as (r1 & self1 & log1 & E1 & Hm1 & Hp1 & Ht1 & Hn1 & Hl1 & Hlog1).
    rewrite E1.
    destruct (IH (it + 1) r1 self1 log1)
      as (r2 & self2 & log2 & E2 & Hm2 & Hp2 & Ht2 & Hn2 & Hl2 & Hs2 & Ha2 & Hf2).
    exists r2, self2, log2.
    destruct (when_print_quiet pi it) as (Hq1 & Hq2 & Hq3).
    repeat split; try congruence.
    + rewrite Hs2, Hlog1, !solves_app, Hq1. cbn. lia.
    + rewrite Ha2, Hlog1, !assemblies_app, Hq2. cbn. lia.
    + intros Hf. apply Hf2. rewrite Hlog1.
      apply full_steps_app. split; [exact Hf|].
      apply full_steps_app. split; [|exact Hq3].
      repeat constructor.
Qed.

(** The loop, when no pass passes the convergence check: it runs until
    [it] reaches [maxiter] and raises with that [it]. *)
Lemma newton_while_exhausted (m : Q) (t : Q) (pi sub : bool) :
  forall (k fuel : nat) (it : Z) (st : loop_state),
    num_of (maxiter (snd (fst st))) = Some m ->
    Z.to_nat (Qceiling m - it) = k ->
    (k <= fuel)%nat ->
    (forall j, (1 <= j <= k)%nat -> converged (newton_passes j t pi it st) = Ok false) ->
    exists r' self' log',
      newton_passes k t pi it st = (r', self', log')
      /\ newton_while fuel t pi sub it st
         = Some (Raise (RuntimeError newton_fmt (it + Z.of_nat k)), self', log').
Proof.
  induction k as [|k IH]; intros fuel it [[r self] log] Hm Hk Hfuel Hnc; cbn in Hm.
  - exists r, self, log. split; [reflexivity|].
    destruct fuel; cbn [newton_while]; rewrite Hm, Qltb_inject_ceiling;
      (destruct (Z.ltb_spec it (Qceiling m)); [lia|]);
      now rewrite Z.add_0_r.
  - destruct fuel as [|fuel]; [lia|].
    cbn [newton_while]. rewrite Hm, Qltb_inject_ceiling.
    destruct (Z.ltb_spec it (Qceiling m)); [|lia].
    pose proof (Hnc 1%nat ltac:(lia)) as H1. cbn [newton_passes] in H1.
    destruct (newton_pass_frame t pi it r self log)
      as (r1 & self1 & log1 & E1 & Hm1 & _).
    rewrite E1 in *. rewrite H1.
    destruct (IH fuel (it + 1) (r1, self1, log1)) as (r2 & self2 & log2 & E2 & W2).
    + cbn. congruence.
    + lia.
    + lia.
    + intros j Hj. specialize (Hnc (S j) ltac:(lia)).
      cbn [newton_passes] in Hnc. now rewrite E1 in Hnc.
    + exists r2, self2, log2. cbn [newton_passes]. rewrite E1. split; [exact E2|].
      rewrite W2. replace (it + 1 + Z.of_nat k) with (it + Z.of_nat (S k)) by lia.
      reflexivity.
Qed.

Lemma newton_start_frame (self : solver_nonlinear_ode Pb) (t : Q) (pi : bool) :
  exists r0 self0 log0,
    newton_start self t pi = (r0, self0, log0)
    /\ maxiter self0 = maxiter self /\ PTC self0 = PTC self
    /\ tolerances self0 = tolerances self
    /\ solves log0 = O /\ assemblies log0 = O /\ full_steps log0.
Proof.
  unfold newton_start. do 3 eexists. split; [reflexivity|].
  cbn. repeat split; destruct pi; cbn; repeat constructor.
Qed.

Lemma init_fields (pbs : list Pb) (params : gmap string pyval)
    (self : solver_nonlinear_ode Pb) :
  init pbs params = Ok self ->
  PTC self = false /\ solvetype self = "direct"
  /\ maxiter self = try_get params "maxiter" (PyNum 25)
  /\ params !! "tol_res" = Some (tolres self)
  /\ params !! "tol_inc" = Some (tolinc self)
  /\ tolerances self = <["res1" := tolres self]> (<["inc1" := tolinc self]> ∅).
Proof.
  unfold init, bind, getitem.
  destruct (check_params_solver params); [|discriminate].
  destruct pbs as [|p rest]; [discriminate|].
  destruct (params !! "tol_res") as [tr|]; [|discriminate].
  destruct (params !! "tol_inc") as [ti|]; [|discriminate].
  intros [= <-]. cbn. auto 10.
Qed.

(** C1.  If every pass of the loop fails the convergence check, [newton]
    raises [RuntimeError] carrying the iteration count [it], which by then
    equals the configured maximum (1 when the maximum is below 1).  Up to
    that point every state update was a full Newton step, one unshifted
    linear solve per pass; the PTC flag and [maxiter] are as before the call,
    and a solver built by [__init__] has PTC off. *)
Theorem newton_exhausted_raises (self : solver_nonlinear_ode Pb) (t : Q) (pi sub : bool)
    (m : Q) :
  num_of (maxiter self) = Some m ->
  (forall j, (1 <= j <= newton_fuel self)%nat ->
     converged (newton_passes j t pi 1 (newton_start self t pi)) = Ok false) ->
  exists r' self' log',
    newton_passes (newton_fuel self) t pi 1 (newton_start self t pi) = (r', self', log')
    /\ newton self t pi sub
       = Some (Raise (RuntimeError newton_fmt (Z.max 1 (Qceiling m))), self', log')
    /\ PTC self' = PTC self
    /\ (forall pbs params, init pbs params = Ok self -> PTC self' = false)
    /\ maxiter self' = maxiter self
    /\ full_steps log'
    /\ solves log' = newton_fuel self
    /\ assemblies log' = newton_fuel self.
Proof.
  intros Hm Hnc.
  destruct (newton_start_frame self t pi)
    as (r0 & self0 & log0 & E0 & Hm0 & Hp0 & Ht0 & Hs0 & Ha0 & Hf0).
  assert (Hfuel : newton_fuel self = Z.to_nat (Qceiling m - 1))
    by (unfold newton_fuel; now rewrite Hm).
  destruct (newton_while_exhausted m t pi sub (newton_fuel self) (newton_fuel self) 1
              (newton_start self t pi)) as (r' & self' & log' & E & W).
  - rewrite E0. cbn. congruence.
  - now rewrite Hfuel.
  - lia.
  - exact Hnc.
  - exists r', self', log'. split; [exact E|].
    rewrite E0 in E.
    destruct (newton_passes_frame (newton_fuel self) t pi 1 r0 self0 log0)
      as (r2 & self2 & log2 & E2 & Hm2 & Hp2 & Ht2 & Hn2 & Hl2 & Hs2 & Ha2 & Hf2).
    rewrite E2 in E. injection E as <- <- <-.
    assert (HP : PTC self2 = PTC self) by congruence.
    split.
    { unfold newton. rewrite W.
      replace (1 + Z.of_nat (newton_fuel self)) with (Z.max 1 (Qceiling m))
        by (rewrite Hfuel; lia).
      reflexivity. }
    repeat split.
    + exact HP.
    + intros pbs params Hi. rewrite HP. now apply init_fields in Hi.
    + congruence.
    + auto.
    + lia.
    + lia.
Qed.

(** With a numeric [maxiter] the loop ends: the fuel [newton] hands to the
    loop is never used up. *)
Lemma newton_while_total (t : Q) (pi sub : bool) :
  forall (fuel : nat) (it : Z) (st : loop_state) (m : Q),
    num_of (maxiter (snd (fst st))) = Some m ->
    (Z.to_nat (Qceiling m - it) <= fuel)%nat ->
    exists o, newton_while fuel t pi sub it st = Some o.
Proof.
  induction fuel as [|fuel IH]; intros it [[r self] log] m Hm Hfuel; cbn in Hm;
    cbn [newton_while]; rewrite Hm, Qltb_inject_ceiling;
    destruct (Z.ltb_spec it (Qceiling m)); try lia; eauto.
  destruct (newton_pass_frame t pi it r self log) as (r1 & self1 & log1 & E1 & Hm1 & _).
  rewrite E1. destruct (converged (r1, self1, log1)) as [[|]|e]; eauto.
  apply (IH (it + 1) (r1, self1, log1) m); cbn; [congruence | lia].
Qed.

(** [newton] always returns: with a result, or with an exception. *)
Lemma newton_total (self : solver_nonlinear_ode Pb) (t : Q) (pi sub : bool) :
  exists o, newton self t pi sub = Some o.
Proof.
  unfold newton.
  destruct (newton_start_frame self t pi) as (r0 & self0 & log0 & E0 & Hm0 & _).
  rewrite E0. destruct (num_of (maxiter self)) as [m|] eqn:Hm.
  - apply (newton_while_total t pi sub _ 1 (r0, self0, log0) m); cbn; [congruence|].
    unfold newton_fuel. rewrite Hm. lia.
  - unfold newton_fuel. rewrite Hm. cbn [newton_while]. rewrite Hm0, Hm. eauto.
Qed.

(** A run that ends normally stopped at the first pass whose check
    succeeded, and there was at least one pass. *)
Lemma newton_while_ok (t : Q) (pi sub : bool) :
  forall (fuel : nat) (it : Z) (st : loop_state) self' log',
    newton_while fuel t pi sub it st = Some (Ok tt, self', log') ->
    exists (n : nat) r2 self2 log2,
      (1 <= n)%nat
      /\ newton_passes n t pi it st = (r2, self2, log2)
      /\ converged (r2, self2, log2) = Ok true
      /\ (forall j, (1 <= j < n)%nat -> converged (newton_passes j t pi it st) = Ok false)
      /\ self' = set_counters (it + Z.of_nat n - 1) (li self2) self2
      /\ log' = (log2 ++ when (pi && sub) [EvPrintSeparator])%list.
Proof.
  induction fuel as [|fuel IH]; intros it [[r self] log] self' log';
    cbn [newton_while]; destruct (num_of (maxiter self)) as [m|]; try discriminate;
    destruct (Qltb (inject_Z it) m); try discriminate.
  destruct (newton_pass_frame t pi it r self log) as (r1 & self1 & log1 & E1 & _).
  rewrite E1. destruct (converged (r1, self1, log1)) as [[|]|e] eqn:Hc; try discriminate.
  - intros [= <- <-]. exists 1%nat, r1, self1, log1. cbn [newton_passes]. rewrite E1.
    repeat split; auto; try lia.
  - intros H. apply IH in H.
    destruct H as (n & r2 & self2 & log2 & Hn & E2 & Hc2 & Hnc & -> & ->).
    exists (S n), r2, self2, log2. cbn [newton_passes]. rewrite E1.
    repeat split; auto; try lia.
    + intros j Hj. destruct j as [|j]; [lia|]. cbn [newton_passes]. rewrite E1.
      destruct j as [|j]; [exact Hc|]. apply Hnc. lia.
    + f_equal. lia.
Qed.

End WithCollaborators.

(** What the spec's convergence test says when it answers [true]. *)
Lemma check_converged_spec_true (rn inn : gmap string Q) (tol : gmap string pyval)
    (pt : string) :
  check_converged_spec rn inn tol pt = Ok true ->
  exists res inc tr ti tolr toli,
    rn !! "res1" = Some res /\ inn !! "inc1" = Some inc
    /\ tol !! "res1" = Some tr /\ tol !! "inc1" = Some ti
    /\ num_of tr = Some tolr /\ num_of ti = Some toli
    /\ (res < tolr)%Q /\ (inc < toli)%Q.
Proof.
  unfold check_converged_spec.
  destruct (rn !! "res1") as [res|]; [|destruct (tol !! "res1"), (inn !! "inc1"),
    (tol !! "inc1"); discriminate].
  destruct (tol !! "res1") as [tr|]; [|destruct (inn !! "inc1"), (tol !! "inc1");
    discriminate].
  destruct (inn !! "inc1") as [inc|]; [|destruct (tol !! "inc1"); discriminate].
  destruct (tol !! "inc1") as [ti|]; [|discriminate].
  destruct (num_of tr) as [tolr|] eqn:Hr; [|discriminate].
  destruct (num_of ti) as [toli|] eqn:Hi; [|discriminate].
  intros [= H]. apply andb_true_iff in H. destruct H as [H1 H2].
  apply Qltb_lt in H1. apply Qltb_lt in H2.
  exists res, inc, tr, ti, tolr, toli.
  repeat (split; [reflexivity || assumption|]). assumption.
Qed.

(** C2, as the code has it.  With the spec's convergence test, a [newton]
    call that ends normally has made [n >= 1] passes, each with one Jacobian
    assembly and one linear solve; the check ran after each pass and only
    there, failed after passes [1 .. n-1] and succeeded after pass [n]; the
    norms the solver then holds are both below their tolerances.  There is no
    check on the initial residual. *)
Theorem newton_converges_after_a_pass (self self' : solver_nonlinear_ode Pb) (t : Q)
    (pi sub : bool) (log' : list event) :
  newton (collab := spec_collaborators) self t pi sub = Some (Ok tt, self', log') ->
  exists n : nat,
    (1 <= n)%nat
    /\ ni self' = Z.of_nat n
    /\ solves log' = n /\ assemblies log' = n
    /\ converged (collab := spec_collaborators)
         (newton_passes n t pi 1 (newton_start self t pi)) = Ok true
    /\ (forall j, (1 <= j < n)%nat ->
          converged (collab := spec_collaborators)
            (newton_passes j t pi 1 (newton_start self t pi)) = Ok false)
    /\ exists res inc tr ti tolr toli,
         resnorms self' !! "res1" = Some res /\ incnorms self' !! "inc1" = Some inc
         /\ tolerances self !! "res1" = Some tr /\ tolerances self !! "inc1" = Some ti
         /\ num_of tr = Some tolr /\ num_of ti = Some toli
         /\ (res < tolr)%Q /\ (inc < toli)%Q.
Proof.
  unfold newton. intros H. apply newton_while_ok in H.
  destruct H as (n & r2 & self2 & log2 & Hn & E2 & Hc & Hnc & -> & ->).
  exists n. rewrite E2.
  destruct (newton_start_frame self t pi)
    as (r0 & self0 & log0 & E0 & Hm0 & Hp0 & Ht0 & Hs0 & Ha0 & Hf0).
  rewrite E0 in E2.
  destruct (newton_passes_frame n t pi 1 r0 self0 log0)
    as (r3 & self3 & log3 & E3 & Hm3 & Hp3 & Ht3 & Hn3 & Hl3 & Hs3 & Ha3 & Hf3).
  rewrite E3 in E2. injection E2 as <- <- <-.
  assert (Hq : solves (when (pi && sub) [EvPrintSeparator]) = O
               /\ assemblies (when (pi && sub) [EvPrintSeparator]) = O)
    by (destruct (pi && sub); split; reflexivity).
  destruct Hq as [Hq1 Hq2].
  repeat split.
  - exact Hn.
  - cbn. lia.
  - rewrite solves_app, Hs3, Hs0, Hq1. lia.
  - rewrite assemblies_app, Ha3, Ha0, Hq2. lia.
  - exact Hc.
  - exact Hnc.
  - cbn in Hc. apply check_converged_spec_true in Hc.
    destruct Hc as (res & inc & tr & ti & tolr & toli & H1 & H2 & H3 & H4 & H5).
    exists res, inc, tr, ti, tolr, toli. cbn. rewrite <- Ht0, <- Ht3.
    repeat (split; [assumption|]). tauto.
Qed.

(** C5, as the code has it.  A parameter record without ['tol_res'] or
    without ['tol_inc'] never yields a solver: [__init__] raises.  When the
    parameter check lets the record pass and a problem is given, the
    exception is the [KeyError] of the first missing tolerance. *)
Theorem init_requires_tolerances {collab : Collaborators} (pbs : list Pb)
    (params : gmap string pyval) :
  params !! "tol_res" = None \/ params !! "tol_inc" = None ->
  (exists e, init pbs params = Raise e)
  /\ (check_params_solver params = Ok tt -> pbs <> [] ->
      init pbs params
      = Raise (KeyError (match params !! "tol_res" with
                         | None => "tol_res"
                         | Some _ => "tol_inc"
                         end))).
Proof.
  intros H. unfold init, bind, getitem.
  destruct (check_params_solver params) as [[]|e].
  - destruct pbs as [|p rest].
    + split; [eauto | congruence].
    + destruct (params !! "tol_res") as [tr|].
      * destruct H as [H|H]; [discriminate|]. rewrite H. split; eauto.
      * split; eauto.
  - split; [eauto | discriminate].
Qed.

End NewtonFacts.

Section NewtonExamples.
Import SolverNonlin.

Example init_scalar_solver :
  init (problem := scalar_problem) (collab := spec_collaborators) [p_start] demo_solver_params
  = Ok (scalar_solver p_start (PyNum 25)).
Proof. vm_compute. reflexivity. Qed.

Example first_call_two_passes :
  newton (petsc := scalar_petsc) (problem := scalar_problem) (collab := spec_collaborators)
    (scalar_solver p_start (PyNum 25)) 0 true false
  = Some (Ok tt, solved_solver, two_pass_log).
Proof. vm_compute. reflexivity. Qed.

(** A starting state that meets both tolerances still gets a Jacobian
    assembly and a linear solve.  On a second call the solver holds residual
    norm 0 after the initial residual and increment norm 0 from the call
    before, so the spec's test would say "converged" at iteration 0; the loop
    makes a pass all the same.  The same on a first call from the solution. *)
Lemma newton_passes_from_converged_start :
  converged (collab := spec_collaborators)
    (newton_start (petsc := scalar_petsc) (problem := scalar_problem) solved_solver 0 true)
  = Ok true
  /\ newton (petsc := scalar_petsc) (problem := scalar_problem)
       (collab := spec_collaborators) solved_solver 0 true false
     = Some (Ok tt, set_counters 1 0 solved_solver, one_pass_log)
  /\ In EvStiffness one_pass_log /\ In EvLinSolve one_pass_log
  /\ vec_norm (Petsc := scalar_petsc)
       (assemble_residual (OdeProblem := scalar_problem) p_solved 0) = 0%Q
  /\ exists self', newton (petsc := scalar_petsc) (problem := scalar_problem)
       (collab := spec_collaborators) (scalar_solver p_solved (PyNum 25)) 0 true false
     = Some (Ok tt, self', one_pass_log).
Proof.
  split; [vm_compute; reflexivity|].
  split; [vm_compute; reflexivity|].
  split; [cbn; tauto|].
  split; [cbn; tauto|].
  split; [vm_compute; reflexivity|].
  eexists. vm_compute. reflexivity.
Qed.

Lemma newton_converges_after_a_pass_witness :
  exists n : nat,
    (1 <= n)%nat
    /\ ni solved_solver = Z.of_nat n
    /\ solves two_pass_log = n /\ assemblies two_pass_log = n
    /\ converged (collab := spec_collaborators)
         (newton_passes (petsc := scalar_petsc) (problem := scalar_problem) n 0 true 1
            (newton_start (petsc := scalar_petsc) (problem := scalar_problem)
               (scalar_solver p_start (PyNum 25)) 0 true)) = Ok true
    /\ (forall j, (1 <= j < n)%nat ->
          converged (collab := spec_collaborators)
            (newton_passes (petsc := scalar_petsc) (problem := scalar_problem) j 0 true 1
               (newton_start (petsc := scalar_petsc) (problem := scalar_problem)
               (scalar_solver p_start (PyNum 25)) 0 true)) = Ok false)
    /\ exists res inc tr ti tolr toli,
         resnorms solved_solver !! "res1" = Some res
         /\ incnorms solved_solver !! "inc1" = Some inc
         /\ tolerances (scalar_solver p_start (PyNum 25)) !! "res1" = Some tr
         /\ tolerances (scalar_solver p_start (PyNum 25)) !! "inc1" = Some ti
         /\ num_of tr = Some tolr /\ num_of ti = Some toli
         /\ (res < tolr)%Q /\ (inc < toli)%Q.
Proof.
  apply (newton_converges_after_a_pass (petsc := scalar_petsc) (problem := scalar_problem)
           (scalar_solver p_start (PyNum 25)) solved_solver 0 true false two_pass_log).
  vm_compute. reflexivity.
Defined.

Lemma newton_exhausted_raises_witness :
  exists r' self' log',
    newton_passes (petsc := scalar_petsc) (problem := stuck_problem) 3 0 true 1
      (newton_start (petsc := scalar_petsc) (problem := stuck_problem)
         (scalar_solver p_start (PyNum 4)) 0 true) = (r', self', log')
    /\ newton (petsc := scalar_petsc) (problem := stuck_problem)
         (collab := spec_collaborators) (scalar_solver p_start (PyNum 4)) 0 true false
       = Some (Raise (RuntimeError newton_fmt 4), self', log')
    /\ PTC self' = false
    /\ (forall pbs params,
          init (problem := stuck_problem) (collab := spec_collaborators) pbs params
          = Ok (scalar_solver p_start (PyNum 4)) -> PTC self' = false)
    /\ maxiter self' = PyNum 4
    /\ full_steps log'
    /\ solves log' = 3%nat
    /\ assemblies log' = 3%nat.
Proof.
  apply (newton_exhausted_raises (petsc := scalar_petsc) (problem := stuck_problem)
           (collab := spec_collaborators) (scalar_solver p_start (PyNum 4)) 0 true false 4).
  - reflexivity.
  - intros j Hj. change (newton_fuel (scalar_solver p_start (PyNum 4))) with 3%nat in Hj.
    destruct j as [|[|[|[|j]]]]; try lia; vm_compute; reflexivity.
Defined.

(** Without ['tol_res'] (or without ['tol_inc']) no solver is built and no
    default tolerance is used: [__init__] raises [KeyError]. *)
Lemma init_without_tolerance_raises :
  init (problem := scalar_problem) (collab := spec_collaborators) [p_start]
    (delete "tol_res" demo_solver_params) = Raise (KeyError "tol_res")
  /\ init (problem := scalar_problem) (collab := spec_collaborators) [p_start]
       (delete "tol_inc" demo_solver_params) = Raise (KeyError "tol_inc")
  /\ ~ exists self,
       init (problem := scalar_problem) (collab := spec_collaborators) [p_start]
         (delete "tol_res" demo_solver_params) = Ok self
       /\ tolres self = PyNum (1 # 100000000).
Proof.
  split; [vm_compute; reflexivity|].
  split; [vm_compute; reflexivity|].
  intros (self & H & _). vm_compute in H. discriminate.
Qed.

Lemma init_requires_tolerances_witness :
  (exists e, init (problem := scalar_problem) (collab := spec_collaborators) [p_start]
               (delete "tol_inc" demo_solver_params) = Raise e)
  /\ (check_params_solver (Collaborators := spec_collaborators)
        (delete "tol_inc" demo_solver_params) = Ok tt ->
      [p_start] <> [] ->
      init (problem := scalar_problem) (collab := spec_collaborators) [p_start]
        (delete "tol_inc" demo_solver_params)
      = Raise (KeyError (match delete "tol_inc" demo_solver_params !! "tol_res" with
                         | None => "tol_res"
                         | Some _ => "tol_inc"
                         end))).
Proof.
  apply (init_requires_tolerances (problem := scalar_problem)
           (collab := spec_collaborators) [p_start] (delete "tol_inc" demo_solver_params)).
  right. reflexivity.
Defined.

End NewtonExamples.

(** ** Construction of the 0D flow problem *)

Section ProblemFacts.
Import Flow0D.
Context {Model Vec : Type} {setup : Setup Model Vec}.

Lemma getitem_Ok (d : gmap string pyval) (k : string) (v : pyval) :
  getitem d k = Ok v <-> d !! k = Some v.
Proof. unfold getitem. destruct (d !! k); split; congruence. Qed.

Lemma try_get_None (d : gmap string pyval) (k : string) (dflt : pyval) :
  d !! k = None -> try_get d k dflt = dflt.
Proof. unfold try_get, getitem. now intros ->. Qed.

Lemma try_get_Some (d : gmap string pyval) (k : string) (dflt v : pyval) :
  d !! k = Some v -> try_get d k dflt = v.
Proof. unfold try_get, getitem. now intros ->. Qed.

Lemma try_get_else_Ok (d : gmap string pyval) (k k' : string) :
  is_Some (d !! k) \/ is_Some (d !! k') -> exists v, try_get_else d k k' = Ok v.
Proof.
  unfold try_get_else, getitem. intros [[v H]|[v H]].
  - rewrite H. eauto.
  - destruct (d !! k); [eauto|]. rewrite H. eauto.
Qed.

(** The if/elif chain and the table list the same tags and classes. *)
Lemma class_of_modeltype_table (tag : pyval) (cls : model_class) (closed : bool) :
  class_of_modeltype tag = Some (cls, closed) ->
  exists name, tag = PyStr name /\ In (name, cls) model_table.
Proof.
  destruct tag as [| | |x| |]; try (cbn; discriminate).
  unfold class_of_modeltype, eq_str.
  repeat match goal with
  | |- context [String.eqb x ?lit] =>
      destruct (String.eqb_spec x lit) as [->|_];
      [intros [= <- <-]; eexists; split; [reflexivity|cbn; tauto]|]
  end.
  discriminate.
Qed.

Lemma table_class_of_modeltype (name : string) (cls : model_class) :
  In (name, cls) model_table ->
  exists closed, class_of_modeltype (PyStr name) = Some (cls, closed).
Proof.
  cbn. intros H.
  repeat (destruct H as [[= <- <-]|H]; [vm_compute; eauto|]).
  destruct H.
Qed.

Lemma class_of_modeltype_unknown (tag : pyval) :
  (forall name cls, In (name, cls) model_table -> tag <> PyStr name) ->
  class_of_modeltype tag = None.
Proof.
  intros H. destruct (class_of_modeltype tag) as [[cls closed]|] eqn:E; [|reflexivity].
  apply class_of_modeltype_table in E. destruct E as (name & -> & Hin).
  exfalso. exact (H name cls Hin eq_refl).
Qed.

Lemma model_dispatch_inv (tp mp : gmap string pyval) (a1 a2 a3 a4 a5 a6 : pyval)
    (call : model_call) :
  model_dispatch tp mp a1 a2 a3 a4 a5 a6 = Ok call ->
  exists tag closed,
    mp !! "modeltype" = Some tag
    /\ class_of_modeltype tag = Some (mc_class call, closed)
    /\ tp !! "theta_ost" = Some (mc_theta call)
    /\ mp !! "parameters" = Some (mc_parameters call)
    /\ mc_cq call = a6.
Proof.
  unfold model_dispatch, bind.
  destruct (getitem mp "modeltype") as [tag|] eqn:Et; [|discriminate].
  destruct (class_of_modeltype tag) as [[cls closed]|] eqn:Ec; [|discriminate].
  destruct (getitem tp "theta_ost") as [th|] eqn:Eth; [|discriminate].
  destruct (getitem mp "parameters") as [pa|] eqn:Epa; [|discriminate].
  intros [= <-]. cbn. exists tag, closed.
  apply getitem_Ok in Et, Eth, Epa. auto.
Qed.

(** What a successful [__init__] has put on the object. *)
Lemma Flow0DProblem_init_inv (io tp mp : gmap string pyval) (tc : option (Q -> Q))
    (cp : gmap string pyval) (pb : Flow0DProblem Model Vec) :
  Flow0DProblem_init io tp mp tc cp = Ok pb ->
  problem_base_init io tp = Ok (base (conf pb))
  /\ time_params_ (conf pb) = tp
  /\ eps_periodic (conf pb)
     = try_get tp "eps_periodic" (PyNum (1 # 100000000000000000000))
  /\ periodic_checktype (conf pb) = try_get tp "periodic_checktype" (PyStr "allvar")
  /\ tp !! "theta_ost" = Some (theta_ost (conf pb))
  /\ mc_theta (built_by (conf pb)) = theta_ost (conf pb)
  /\ (exists tag closed,
        mp !! "modeltype" = Some tag
        /\ class_of_modeltype tag = Some (mc_class (built_by (conf pb)), closed))
  /\ construct (built_by (conf pb)) = Ok (cardvasc0D pb)
  /\ cycle pb = 1 /\ out pb = [].
Proof.
  unfold Flow0DProblem_init, bind.
  destruct (problem_base_init io tp) as [b|] eqn:Eb; [|discriminate].
  destruct (getitem io "simname") as [sn|]; [|discriminate].
  destruct (try_get_else io "write_results_every_0D" "write_results_every")
    as [wre|]; [|discriminate].
  destruct (try_get_else io "output_path_0D" "output_path") as [op|]; [|discriminate].
  destruct (model_dispatch _ _ _ _ _ _ _ _) as [call|] eqn:Ed; [|discriminate].
  destruct (construct call) as [model|] eqn:Ec; [|discriminate].
  match goal with |- context [if ?b then _ else _] => destruct b end;
    (match goal with |- match ?x with _ => _ end = _ -> _ =>
       destruct x as [ic|]; [|discriminate] end);
    (destruct (initialize model (createVecLeft model) ic) as [v0|]; [|discriminate]);
    (destruct (getitem tp "theta_ost") as [th|] eqn:Eth; [|discriminate]);
    intros [= <-]; cbn;
    apply model_dispatch_inv in Ed;
    destruct Ed as (tag & closed & H1 & H2 & H3 & H4 & H5);
    apply getitem_Ok in Eth;
    (repeat split; auto; try congruence); eauto.
Qed.

(** C7.  With a model tag outside the recognised set, [__init__] raises, so
    there is no problem object and a run ends before any time step, whatever
    the solver and the cycle monitor are; when the rest of the configuration
    is usable the exception is [NameError("Unknown 0D modeltype!")].  With a
    recognised tag, a problem that gets built holds the model returned by the
    constructor of the class the tag stands for. *)
Theorem modeltype_dispatch (io tp mp : gmap string pyval) (tc : option (Q -> Q))
    (cp : gmap string pyval) (tag : pyval) :
  mp !! "modeltype" = Some tag ->
  ((forall name cls, In (name, cls) model_table -> tag <> PyStr name) ->
     (exists e,
        Flow0DProblem_init io tp mp tc cp = Raise e
        /\ forall (integ : Integrator Model Vec) (monitor : CycleMonitor Model Vec),
             run_flow0d io tp mp tc cp = Raise e)
     /\ (forall b, problem_base_init io tp = Ok b -> io_well_formed io ->
           Flow0DProblem_init io tp mp tc cp = Raise unknown_modeltype))
  /\ (forall name cls, In (name, cls) model_table -> tag = PyStr name ->
       forall pb, Flow0DProblem_init io tp mp tc cp = Ok pb ->
         mc_class (built_by (conf pb)) = cls
         /\ construct (built_by (conf pb)) = Ok (cardvasc0D pb)).
Proof.
  intros Htag. split.
  - intros Hun. apply class_of_modeltype_unknown in Hun.
    assert (Hd : forall a1 a2 a3 a4 a5 a6,
               model_dispatch tp mp a1 a2 a3 a4 a5 a6 = Raise unknown_modeltype).
    { intros. unfold model_dispatch, bind, getitem. now rewrite Htag, Hun. }
    split.
    + destruct (Flow0DProblem_init io tp mp tc cp) as [pb|e] eqn:E.
      * apply Flow0DProblem_init_inv in E.
        destruct E as (_ & _ & _ & _ & _ & _ & (tag' & closed & H1 & H2) & _).
        congruence.
      * exists e. split; [reflexivity|]. intros. unfold run_flow0d, bind. now rewrite E.
    + intros b Hb (Hsn & Hw & Ho).
      unfold Flow0DProblem_init, bind. rewrite Hb.
      destruct Hsn as [sn Hsn]. apply getitem_Ok in Hsn. rewrite Hsn.
      destruct (try_get_else_Ok _ _ _ Hw) as [w ->].
      destruct (try_get_else_Ok _ _ _ Ho) as [o ->].
      now rewrite Hd.
  - intros name cls Hin -> pb E.
    apply Flow0DProblem_init_inv in E.
    destruct E as (_ & _ & _ & _ & _ & _ & (tag' & closed & H1 & H2) & Hc & _).
    split; [|exact Hc].
    destruct (table_class_of_modeltype name cls Hin) as [closed' H3].
    congruence.
Qed.


(** Without ['eps_periodic'] the tolerance on the problem is 1.0e-20; without
    ['periodic_checktype'] the check type is ['allvar']. *)
Lemma periodic_defaults (io tp mp : gmap string pyval) (tc : option (Q -> Q))
    (cp : gmap string pyval) (pb : Flow0DProblem Model Vec) :
  Flow0DProblem_init io tp mp tc cp = Ok pb ->
  (tp !! "eps_periodic" = None ->
     eps_periodic (conf pb) = PyNum (1 # 100000000000000000000))
  /\ (tp !! "periodic_checktype" = None ->
      periodic_checktype (conf pb) = PyStr "allvar").
Proof.
  intros E. apply Flow0DProblem_init_inv in E.
  destruct E as (_ & _ & He & Hc & _).
  rewrite He, Hc. split; intros H; now apply try_get_None.
Qed.

End ProblemFacts.

(** ** The time loop *)

Section LoopFacts.
Import Flow0D.
Context {Model Vec : Type}.

Ltac step_cases :=
  unfold time_step; cbv zeta;
  repeat match goal with
  | |- context [match ?x with _ => _ end] => destruct x eqn:?
  end.

Section OneIntegrator.
Context {integ : Integrator Model Vec} {monitor : CycleMonitor Model Vec}.

Lemma time_step_conf (N : Z) (pb : Flow0DProblem Model Vec) :
  conf (flow_state (time_step N pb)) = conf pb.
Proof. step_cases; reflexivity. Qed.

Lemma cycle_checks_app (o1 o2 : list (out_event Vec)) :
  cycle_checks (o1 ++ o2) = (cycle_checks o1 + cycle_checks o2)%nat.
Proof. unfold cycle_checks. now rewrite List.filter_app, length_app. Qed.

(** A pass appends to the output; a pass that runs to its end appends
    exactly one cycle check, called with the configured tolerance and check
    type. *)
Lemma time_step_out (N : Z) (pb : Flow0DProblem Model Vec) :
  exists extra,
    out (flow_state (time_step N pb)) = (out pb ++ extra)%list
    /\ Forall (checks_with (conf pb)) extra
    /\ (completed (time_step N pb) = true -> cycle_checks extra = 1%nat).
Proof.
  step_cases; cbn [flow_state out completed];
    try (exists []; rewrite app_nil_r; repeat split;
         [constructor | discriminate]);
    rewrite <- ?app_assoc; eexists; (split; [reflexivity|]);
    (split; [repeat constructor; cbn; auto | intros _; reflexivity || discriminate]).
Qed.

(** Midpoints come from the converged Newton result and the old state as it
    was before [update]; the state handed on is [update] of the Newton result. *)
Lemma time_step_midpoint (N : Z) (pb : Flow0DProblem Model Vec) :
  completed (time_step N pb) = true ->
  exists c1 v1,
    load_curve N pb = Ok c1
    /\ newton (cardvasc0D pb) (dt (base (conf pb))) c1 (local_time N pb) (vecs pb) = Ok v1
    /\ s_mid (flow_state (time_step N pb))
       = midpoint_avg (cardvasc0D pb) (s v1) (s_old v1) (s_mid pb)
    /\ aux_mid (flow_state (time_step N pb))
       = midpoint_avg (cardvasc0D pb) (aux v1) (aux_old v1) (aux_mid pb)
    /\ vecs (flow_state (time_step N pb)) = update (cardvasc0D pb) v1.
Proof.
  unfold local_time. step_cases; cbn [completed flow_state s_mid aux_mid vecs];
    intros Hc; try discriminate; eauto 10.
Qed.

(** When the Newton solve of a step raises, the pass stops there and the
    problem object, midpoints included, is as before. *)
Lemma time_step_newton_raises (N : Z) (pb : Flow0DProblem Model Vec) (c1 : list Q)
    (e : exn) :
  load_curve N pb = Ok c1 ->
  newton (cardvasc0D pb) (dt (base (conf pb))) c1 (local_time N pb) (vecs pb) = Raise e ->
  time_step N pb = Abort e pb.
Proof. unfold time_step, local_time. cbv zeta. now intros -> ->. Qed.

Lemma time_loop_conf (Ns : list Z) :
  forall (done : nat) (pb : Flow0DProblem Model Vec),
    conf (snd (time_loop Ns done pb)) = conf pb.
Proof.
  induction Ns as [|N Ns IH]; intros done pb; cbn [time_loop]; [reflexivity|].
  pose proof (time_step_conf N pb) as Hc.
  destruct (time_step N pb) as [pb'|pb'|e pb']; cbn in Hc; cbn [snd];
    [rewrite IH|..]; exact Hc.
Qed.

(** Over the whole loop: every cycle check in the output carries the
    configured tolerance and check type, and there is one for each pass that
    ran to its end. *)
Lemma time_loop_out (cf : flow0d_conf) (Ns : list Z) :
  forall (done : nat) (pb : Flow0DProblem Model Vec),
    conf pb = cf ->
    Forall (checks_with cf) (out pb) ->
    (done <= cycle_checks (out pb))%nat ->
    Forall (checks_with cf) (out (snd (time_loop Ns done pb)))
    /\ (snd (fst (time_loop Ns done pb))
        <= cycle_checks (out (snd (time_loop Ns done pb))))%nat.
Proof.
  induction Ns as [|N Ns IH]; intros done pb Hcf Hall Hcount; cbn [time_loop].
  - cbn. auto.
  - destruct (time_step_out N pb) as (extra & Hout & Hex & Hone).
    pose proof (time_step_conf N pb) as Hc. rewrite Hcf in Hex.
    assert (Hall' : Forall (checks_with cf) (out (flow_state (time_step N pb))))
      by (rewrite Hout; apply Forall_app; auto).
    assert (Hmono : (cycle_checks (out pb)
                     <= cycle_checks (out (flow_state (time_step N pb))))%nat)
      by (rewrite Hout, cycle_checks_app; lia).
    destruct (time_step N pb) as [pb'|pb'|e pb']; cbn in Hc, Hout, Hone, Hall', Hmono.
    + apply IH; [congruence | exact Hall' |].
      rewrite Hout, cycle_checks_app, (Hone eq_refl). lia.
    + cbn. split; [exact Hall'|].
      rewrite Hout, cycle_checks_app, (Hone eq_refl). lia.
    + cbn. split; [exact Hall' | lia].
Qed.

Lemma before_loop_keeps (pb pb0 : Flow0DProblem Model Vec) :
  before_loop pb = Ok pb0 -> conf pb0 = conf pb /\ out pb0 = out pb.
Proof.
  unfold before_loop, bind.
  destruct (0 <? restart_step (base (conf pb)))%Z.
  - destruct (str_of (simname pb)) as [sname|]; [|discriminate].
    unfold readrestart. cbn.
    repeat match goal with
    | |- context [match ?x with _ => _ end] => destruct x eqn:?
    end; intros [= <-]; cbn; auto.
  - repeat match goal with
    | |- context [match ?x with _ => _ end] => destruct x eqn:?
    end; intros [= <-]; cbn; auto.
Qed.

End OneIntegrator.

(** C10.  A problem built without ['eps_periodic'] carries the tolerance
    1.0e-20, one built without ['periodic_checktype'] the check type
    ['allvar']; and [solve_problem] hands exactly the problem's tolerance and
    check type to every cycle check, one check per completed step. *)
Theorem periodic_defaults_reach_cycle_check {setup : Setup Model Vec}
    (io tp mp : gmap string pyval) (tc : option (Q -> Q)) (cp : gmap string pyval)
    (pb : Flow0DProblem Model Vec) :
  Flow0DProblem_init io tp mp tc cp = Ok pb ->
  (tp !! "eps_periodic" = None ->
     eps_periodic (conf pb) = PyNum (1 # 100000000000000000000))
  /\ (tp !! "periodic_checktype" = None -> periodic_checktype (conf pb) = PyStr "allvar")
  /\ (forall (integ : Integrator Model Vec) (monitor : CycleMonitor Model Vec)
             (e : option exn) (n : nat) (pb' : Flow0DProblem Model Vec),
        solve_problem pb = (e, n, pb') ->
        Forall (checks_with (conf pb)) (out pb') /\ (n <= cycle_checks (out pb'))%nat).
Proof.
  intros E. destruct (periodic_defaults io tp mp tc cp pb E) as [He Hc].
  split; [exact He|]. split; [exact Hc|].
  intros integ monitor e n pb'. unfold solve_problem.
  apply Flow0DProblem_init_inv in E.
  destruct E as (_ & _ & _ & _ & _ & _ & _ & _ & _ & Hout).
  destruct (before_loop pb) as [pb0|e0] eqn:Eb.
  - apply before_loop_keeps in Eb. destruct Eb as [Hcf Ho].
    intros H.
    destruct (time_loop_out (conf pb) (step_numbers (base (conf pb0))) O pb0) as [H1 H2].
    + exact Hcf.
    + rewrite Ho, Hout. constructor.
    + lia.
    + rewrite H in H1, H2. cbn in H1, H2. auto.
  - intros [= <- <- <-]. rewrite Hout. split; [constructor | cbn; lia].
Qed.

Ltac inner_cases :=
  repeat match goal with
  | |- context [match ?x with _ => _ end] =>
    lazymatch x with
    | context [match _ with _ => _ end] => fail
    | _ => destruct x eqn:?
    end
  end.

Section TwoIntegrators.
Context {monitor : CycleMonitor Model Vec}.
Variables I1 I2 : Integrator Model Vec.
Hypothesis same : same_but_midpoint I1 I2.

Lemma time_step_dynamics (N : Z) (pb1 pb2 : Flow0DProblem Model Vec) :
  dynamics_of pb1 = dynamics_of pb2 ->
  flow_dynamics (time_step (integ := I1) N pb1)
  = flow_dynamics (time_step (integ := I2) N pb2).
Proof.
  intros Hd. destruct same as (He & Hn & Hu & Hr & Hl).
  destruct I1, I2. cbn in He, Hn, Hu, Hr, Hl. subst.
  destruct pb1, pb2. unfold dynamics_of in Hd. cbn in Hd.
  injection Hd as -> -> -> -> -> -> -> -> -> -> ->.
  unfold time_step, load_curve, local_time. cbn.
  inner_cases; reflexivity.
Qed.

Lemma time_loop_dynamics (Ns : list Z) :
  forall (done : nat) (pb1 pb2 : Flow0DProblem Model Vec),
    dynamics_of pb1 = dynamics_of pb2 ->
    run_dynamics (time_loop (integ := I1) Ns done pb1)
    = run_dynamics (time_loop (integ := I2) Ns done pb2).
Proof.
  induction Ns as [|N Ns IH]; intros done pb1 pb2 Hd; cbn [time_loop].
  - cbn. now rewrite Hd.
  - pose proof (time_step_dynamics N pb1 pb2 Hd) as Hs.
    destruct (time_step (integ := I1) N pb1), (time_step (integ := I2) N pb2);
      cbn [flow_dynamics] in Hs; try discriminate;
      pose proof (f_equal flow_state Hs) as Hst; cbn [flow_state] in Hst.
    + now apply IH.
    + cbn [run_dynamics]. now rewrite Hst.
    + cbn [run_dynamics]. rewrite Hst. congruence.
Qed.

Lemma before_loop_dynamics (pb1 pb2 : Flow0DProblem Model Vec) :
  dynamics_of pb1 = dynamics_of pb2 ->
  match before_loop (integ := I1) pb1, before_loop (integ := I2) pb2 with
  | Ok a, Ok b => dynamics_of a = dynamics_of b
  | Raise e1, Raise e2 => e1 = e2
  | _, _ => False
  end.
Proof.
  intros Hd. destruct same as (He & Hn & Hu & Hr & Hl).
  destruct I1, I2. cbn in He, Hn, Hu, Hr, Hl. subst.
  destruct pb1, pb2. unfold dynamics_of in Hd. cbn in Hd.
  injection Hd as -> -> -> -> -> -> -> -> -> -> ->.
  unfold before_loop, bind, readrestart. cbn.
  repeat (cbn; match goal with
  | |- context [match ?x with _ => _ end] =>
    lazymatch x with
    | context [match _ with _ => _ end] => fail
    | _ => destruct x eqn:?
    end
  end); cbn; reflexivity.
Qed.

End TwoIntegrators.

(** C9.  The midpoint vectors are output only.  Two runs whose integrators
    agree on everything but [midpoint_avg], started from problems that agree
    on everything but the midpoint vectors and the output so far, end the
    same way after the same number of steps with the same state, histories,
    snapshots, cycle data and model; so does every single pass.  In a pass
    that runs to its end the midpoints are computed from the result of the
    Newton solve and the old state before [update], and the state handed on
    is [update] of the Newton result; when the Newton solve raises, the pass
    ends there and no midpoint is computed. *)
Theorem midpoint_is_output_only {monitor : CycleMonitor Model Vec}
    (I1 I2 : Integrator Model Vec) (pb1 pb2 : Flow0DProblem Model Vec) :
  same_but_midpoint I1 I2 ->
  dynamics_of pb1 = dynamics_of pb2 ->
  run_dynamics (solve_problem (integ := I1) pb1)
  = run_dynamics (solve_problem (integ := I2) pb2)
  /\ (forall N, flow_dynamics (time_step (integ := I1) N pb1)
               = flow_dynamics (time_step (integ := I2) N pb2))
  /\ (forall N, completed (time_step (integ := I1) N pb1) = true ->
       exists c1 v1,
         load_curve N pb1 = Ok c1
         /\ newton (Integrator := I1) (cardvasc0D pb1) (dt (base (conf pb1))) c1
              (local_time N pb1) (vecs pb1) = Ok v1
         /\ s_mid (flow_state (time_step (integ := I1) N pb1))
            = midpoint_avg (Integrator := I1) (cardvasc0D pb1) (s v1) (s_old v1) (s_mid pb1)
         /\ aux_mid (flow_state (time_step (integ := I1) N pb1))
            = midpoint_avg (Integrator := I1) (cardvasc0D pb1) (aux v1) (aux_old v1)
                (aux_mid pb1)
         /\ vecs (flow_state (time_step (integ := I1) N pb1))
            = update (Integrator := I1) (cardvasc0D pb1) v1)
  /\ (forall N c1 e,
       load_curve N pb1 = Ok c1 ->
       newton (Integrator := I1) (cardvasc0D pb1) (dt (base (conf pb1))) c1
         (local_time N pb1) (vecs pb1) = Raise e ->
       time_step (integ := I1) N pb1 = Abort e pb1).
Proof.
  intros Hsame Hd. split; [|split; [|split]].
  - unfold solve_problem.
    pose proof (before_loop_dynamics I1 I2 Hsame pb1 pb2 Hd) as Hb.
    destruct (before_loop (integ := I1) pb1) as [a|e1],
             (before_loop (integ := I2) pb2) as [b|e2]; try contradiction.
    + assert (Hc : conf a = conf b) by (now apply (f_equal d_conf) in Hb).
      rewrite Hc. now apply time_loop_dynamics.
    + cbn. congruence.
  - intros N. now apply time_step_dynamics.
  - intros N. apply time_step_midpoint.
  - intros N c1 e. apply time_step_newton_raises.
Qed.

End LoopFacts.

(** ** The cycle counter and the perturbation, with the monitor of the
    specification *)

Section CycleArithmetic.

Lemma Qfloor_unique (x : Q) (z : Z) :
  (inject_Z z <= x)%Q -> (x < inject_Z (z + 1))%Q -> Qfloor x = z.
Proof.
  intros H1 H2.
  pose proof (Qfloor_le x) as F1. pose proof (Qlt_floor x) as F2.
  assert (A : (inject_Z (Qfloor x) < inject_Z (z + 1))%Q)
    by (eapply Qle_lt_trans; eauto).
  assert (B : (inject_Z z < inject_Z (Qfloor x + 1))%Q)
    by (eapply Qle_lt_trans; eauto).
  rewrite <- Zlt_Qlt in A, B. lia.
Qed.


Lemma Qfloor_div_unique (a T : Q) (z : Z) :
  (0 < T)%Q -> (inject_Z z * T <= a)%Q -> (a < (inject_Z z + 1) * T)%Q ->
  Qfloor (a / T) = z.
Proof.
  intros HT H1 H2. apply Qfloor_unique.
  - apply Qle_shift_div_l; assumption.
  - rewrite inject_Z_plus. apply Qlt_shift_div_r; assumption.
Qed.



End CycleArithmetic.

Section SpecLoop.
Import Flow0D.
Context {Vec : Type} {integ : Integrator spec_model Vec}.
Variable relative_error : pyval -> Vec -> Vec -> Q.
Variable perturbed : pyval -> pyval -> pyval.

Local Abbreviation mon := (spec_monitor relative_error perturbed).





Lemma seqZ_S (m : Z) (n : nat) :
  seqZ m (Z.of_nat (S n)) = m :: seqZ (m + 1) (Z.of_nat n).
Proof.
  rewrite seqZ_cons by lia. f_equal. f_equal; lia.
Qed.







End SpecLoop.

(** ** The activation curves *)

Section ActivationCurves.
Import Bleed.
Local Open Scope R_scope.


(** [t % T] lies in [[0, T)] for a positive [T]. *)
Lemma pymod_range (t T : R) : 0 < T -> 0 <= pymod t T < T.
Proof.
  intros HT. unfold pymod.
  destruct (base_Int_part (t / T)) as [H1 H2].
  assert (E : t = t / T * T) by (field; lra).
  split.
  - apply Rmult_le_compat_r with (r := T) in H1; [|lra]. lra.
  - assert (H3 : (t / T - IZR (Int_part (t / T))) * T < 1 * T)
      by (apply Rmult_lt_compat_r; lra).
    lra.
Qed.




(** The windows lie inside one cycle. *)
Lemma windows_within_cycle :
  0 + 2 * t_ed <= T_cycl /\ t_ed + 18 / 10 * (t_es - t_ed) <= T_cycl.
Proof. unfold t_es, t_ed, T_cycl. lra. Qed.



End ActivationCurves.

(** ** The time loop on concrete inputs *)

Section Flow0DExamples.
Import Flow0D.

Example toy_run_twelve_steps :
  match toy_run toy_io_params toy_time_params (toy_model_params "syspul") with
  | Ok (None, done, pb) =>
    done = 12%nat /\ cycle pb = 4 /\ sm_induced_at (cardvasc0D pb) = [2]
  | _ => False
  end.
Proof. vm_compute. auto. Qed.

Lemma modeltype_dispatch_witness :
  Flow0DProblem_init (setup := toy_setup) toy_io_params toy_time_params
    (toy_model_params "foo") None ∅ = Raise unknown_modeltype
  /\ (forall pb,
        toy_init toy_time_params (toy_model_params "syspulcap") = Ok pb ->
        mc_class (built_by (conf pb)) = cardiovascular0Dsyspulcap
        /\ toy_construct (built_by (conf pb)) = Ok (cardvasc0D pb)).
Proof.
  split.
  - destruct (modeltype_dispatch (setup := toy_setup) toy_io_params toy_time_params
                (toy_model_params "foo") None ∅ (PyStr "foo") eq_refl) as [H _].
    destruct H as [_ H].
    + intros name cls Hin. cbn in Hin.
      repeat (destruct Hin as [[= <- <-]|Hin]; [discriminate|]). destruct Hin.
    + eapply H.
      * reflexivity.
      * repeat split; [eexists; reflexivity | right; eexists; reflexivity
                       | right; eexists; reflexivity].
  - destruct (modeltype_dispatch (setup := toy_setup) toy_io_params toy_time_params
                (toy_model_params "syspulcap") None ∅ (PyStr "syspulcap") eq_refl)
      as [_ H].
    apply (H "syspulcap" cardiovascular0Dsyspulcap); [cbn; tauto | reflexivity].
Defined.



Lemma periodic_defaults_reach_cycle_check_witness :
  match toy_init toy_time_params (toy_model_params "syspul") with
  | Ok pb =>
    (toy_time_params !! "eps_periodic" = None ->
       eps_periodic (conf pb) = PyNum (1 # 100000000000000000000))
    /\ (toy_time_params !! "periodic_checktype" = None ->
        periodic_checktype (conf pb) = PyStr "allvar")
    /\ (forall (integ : Integrator spec_model Q) (monitor : CycleMonitor spec_model Q)
               e n pb',
          solve_problem pb = (e, n, pb') ->
          Forall (checks_with (conf pb)) (out pb') /\ (n <= cycle_checks (out pb'))%nat)
  | Raise _ => False
  end.
Proof.
  unfold toy_init.
  destruct (Flow0DProblem_init (setup := toy_setup) toy_io_params toy_time_params
              (toy_model_params "syspul") None ∅) as [pb|e] eqn:E.
  - exact (periodic_defaults_reach_cycle_check (setup := toy_setup) _ _ _ _ _ pb E).
  - vm_compute in E. discriminate.
Defined.

Lemma midpoint_is_output_only_witness :
  match toy_init toy_time_params (toy_model_params "syspul") with
  | Ok pb =>
    run_dynamics (solve_problem (integ := toy_integrator) (monitor := toy_monitor) pb)
    = run_dynamics (solve_problem (integ := toy_integrator') (monitor := toy_monitor)
                      (with_midpoints 5%Q 9%Q [WriteRestart 0] pb))
  | Raise _ => False
  end.
Proof.
  destruct (toy_init toy_time_params (toy_model_params "syspul")) as [pb|e] eqn:E.
  - apply (midpoint_is_output_only (monitor := toy_monitor) toy_integrator toy_integrator'
             pb (with_midpoints 5%Q 9%Q [WriteRestart 0] pb)).
    + repeat split.
    + reflexivity.
  - vm_compute in E. discriminate.
Defined.



End Flow0DExamples.

(** ** More on the ODE Newton solver *)

Section NewtonMore.
Import SolverNonlin.
Context {Pb Vec Mat : Type}.
Context {petsc : Petsc Vec Mat} {problem : OdeProblem Pb Vec Mat}.
Context {collab : Collaborators}.

Lemma newton_while_first_success (m : Q) (t : Q) (pi sub : bool) :
  forall (n fuel : nat) (it : Z) (st : loop_state),
    num_of (maxiter (snd (fst st))) = Some m ->
    (1 <= n <= fuel)%nat ->
    it + Z.of_nat n <= Qceiling m ->
    (forall j, (1 <= j < n)%nat -> converged (newton_passes j t pi it st) = Ok false) ->
    converged (newton_passes n t pi it st) = Ok true ->
    exists r2 self2 log2,
      newton_passes n t pi it st = (r2, self2, log2)
      /\ newton_while fuel t pi sub it st
         = Some (Ok tt, set_counters (it + Z.of_nat n - 1) (li self2) self2,
                 (log2 ++ when (pi && sub) [EvPrintSeparator])%list).
Proof.
  induction n as [|n IH]; intros fuel it [[r self] log] Hm Hn Hit Hnc Hc;
    cbn in Hm; [lia|].
  destruct fuel as [|fuel]; [lia|].
  cbn [newton_while]. rewrite Hm, Qltb_inject_ceiling.
  destruct (Z.ltb_spec it (Qceiling m)); [|lia].
  destruct (newton_pass_frame t pi it r self log) as (r1 & self1 & log1 & E1 & Hm1 & _).
  rewrite E1.
  destruct n as [|n].
  - cbn [newton_passes] in Hc. rewrite E1 in Hc. rewrite Hc.
    exists r1, self1, log1. cbn [newton_passes]. rewrite E1. split; [reflexivity|].
    repeat f_equal.
  - pose proof (Hnc 1%nat ltac:(lia)) as H1. cbn [newton_passes] in H1.
    rewrite E1 in H1. rewrite H1.
    destruct (IH fuel (it + 1) (r1, self1, log1)) as (r2 & self2 & log2 & E2 & W2).
    + cbn. congruence.
    + lia.
    + lia.
    + intros j Hj. specialize (Hnc (S j) ltac:(lia)).
      cbn [newton_passes] in Hnc. now rewrite E1 in Hnc.
    + cbn [newton_passes] in Hc. now rewrite E1 in Hc.
    + exists r2, self2, log2.
      change (newton_passes (S (S n)) t pi it (r, self, log))
        with (newton_passes (S n) t pi (it + 1) (newton_pass t pi it (r, self, log))).
      rewrite E1. split; [exact E2|].
      rewrite W2.
      replace (it + 1 + Z.of_nat (S n) - 1) with (it + Z.of_nat (S (S n)) - 1) by lia.
      reflexivity.
Qed.

(** X1.  [newton] stops at the first pass whose convergence check succeeds,
    also when that is the last pass [maxiter] allows: it returns normally
    with [ni] the number of that pass and the state that pass left, and it
    does not raise. *)
Theorem newton_stops_at_first_success (self : solver_nonlinear_ode Pb) (t : Q)
    (pi sub : bool) (m : Q) (n : nat) :
  num_of (maxiter self) = Some m ->
  (1 <= n <= newton_fuel self)%nat ->
  (forall j, (1 <= j < n)%nat ->
     converged (newton_passes j t pi 1 (newton_start self t pi)) = Ok false) ->
  converged (newton_passes n t pi 1 (newton_start self t pi)) = Ok true ->
  exists r2 self2 log2,
    newton_passes n t pi 1 (newton_start self t pi) = (r2, self2, log2)
    /\ newton self t pi sub
       = Some (Ok tt, set_counters (Z.of_nat n) (li self2) self2,
               (log2 ++ when (pi && sub) [EvPrintSeparator])%list).
Proof.
  intros Hm Hn Hnc Hc.
  assert (Hfuel : newton_fuel self = Z.to_nat (Qceiling m - 1))
    by (unfold newton_fuel; now rewrite Hm).
  destruct (newton_start_frame self t pi)
    as (r0 & self0 & log0 & E0 & Hm0 & _).
  destruct (newton_while_first_success m t pi sub n (newton_fuel self) 1
              (newton_start self t pi)) as (r2 & self2 & log2 & E2 & W).
  - rewrite E0. cbn. congruence.
  - exact Hn.
  - lia.
  - exact Hnc.
  - exact Hc.
  - exists r2, self2, log2. split; [exact E2|].
    unfold newton. rewrite W.
    replace (1 + Z.of_nat n - 1) with (Z.of_nat n) by lia. reflexivity.
Qed.

(** X2.  With [maxiter] at most 1 the loop body never runs: every call
    raises [RuntimeError] reporting 1 iteration, right after the initial
    residual, without a Jacobian assembly or linear solve and without
    touching the problem state, however small the residual is. *)
Theorem newton_needs_maxiter_above_one (self : solver_nonlinear_ode Pb) (t : Q)
    (pi sub : bool) (m : Q) :
  num_of (maxiter self) = Some m ->
  (m <= 1)%Q ->
  exists self' log',
    newton self t pi sub = Some (Raise (RuntimeError newton_fmt 1), self', log')
    /\ pb self' = pb self
    /\ solves log' = O /\ assemblies log' = O /\ residuals log' = 1%nat.
Proof.
  intros Hm Hle. unfold newton, newton_start.
  assert (Hg : Qltb (inject_Z 1) m = false).
  { destruct (Qltb (inject_Z 1) m) eqn:E; [|reflexivity].
    apply Qltb_lt in E. exfalso. exact (Qlt_not_le _ _ E Hle). }
  do 2 eexists. split.
  - destruct (newton_fuel self); cbn [newton_while fst snd set_norms set_counters maxiter];
      rewrite Hm, Hg; reflexivity.
  - cbn. destruct pi; cbn; auto.
Qed.

Lemma residuals_app (l1 l2 : list event) :
  residuals (l1 ++ l2) = (residuals l1 + residuals l2)%nat.
Proof. unfold residuals. now rewrite List.filter_app, length_app. Qed.

Lemma same_settings_refl (a : solver_nonlinear_ode Pb) : same_settings a a.
Proof. unfold same_settings. auto 12. Qed.

Lemma same_settings_trans (a b c : solver_nonlinear_ode Pb) :
  same_settings a b -> same_settings b c -> same_settings a c.
Proof. unfold same_settings. intuition congruence. Qed.

Lemma newton_pass_account (t : Q) (pi : bool) (it : Z) (r : Vec)
    (self : solver_nonlinear_ode Pb) (log : list event) :
  exists r' self' log',
    newton_pass t pi it (r, self, log) = (r', self', log')
    /\ same_settings self self' /\ li self' = li self
    /\ is_Some (resnorms self' !! "res1")
    /\ solves log' = S (solves log)
    /\ assemblies log' = S (assemblies log)
    /\ residuals log' = S (residuals log)
    /\ (full_steps log -> full_steps log').
Proof.
  unfold newton_pass. do 3 eexists. split; [reflexivity|].
  split; [unfold same_settings; cbn; auto 12|]. split; [reflexivity|].
  split; [cbn; rewrite lookup_insert_eq; eauto|].
  rewrite !solves_app, !assemblies_app, !residuals_app.
  destruct (when_print_quiet pi it) as (Hq1 & Hq2 & Hq3).
  assert (Hq4 : residuals (when pi [EvPrintIter it]) = O) by (destruct pi; reflexivity).
  rewrite Hq1, Hq2, Hq4. cbn. repeat split; try lia.
  intros Hf. apply full_steps_app. split; [exact Hf|].
  unfold full_steps in *. repeat (constructor; [cbn; auto|]). exact Hq3.
Qed.

Lemma newton_while_account (t : Q) (pi sub : bool) :
  forall (fuel : nat) (it : Z) (r : Vec) (self : solver_nonlinear_ode Pb)
         (log : list event) res self' log',
    newton_while fuel t pi sub it (r, self, log) = Some (res, self', log') ->
    same_settings self self'
    /\ (is_Some (resnorms self !! "res1") -> is_Some (resnorms self' !! "res1"))
    /\ (exists k : nat, (k <= fuel)%nat
          /\ solves log' = (solves log + k)%nat
          /\ assemblies log' = (assemblies log + k)%nat
          /\ residuals log' = (residuals log + k)%nat)
    /\ (full_steps log -> full_steps log').
Proof.
  induction fuel as [|fuel IH]; intros it r self log res self' log';
    cbn [newton_while].
  - destruct (num_of (maxiter self)); [destruct (Qltb (inject_Z it) _)|];
      try discriminate; intros [= <- <- <-];
      (split; [apply same_settings_refl|]); (split; [auto|]);
      (split; [exists O; repeat split; lia | auto]).
  - destruct (num_of (maxiter self)); [destruct (Qltb (inject_Z it) _)|];
      try (intros [= <- <- <-];
           (split; [apply same_settings_refl|]); (split; [auto|]);
           (split; [exists O; repeat split; lia | auto])).
    destruct (newton_pass_account t pi it r self log)
      as (r1 & self1 & log1 & E1 & Hs1 & Hl1 & Hr1 & Hso & Has & Hre & Hf1).
    rewrite E1.
    destruct (converged (r1, self1, log1)) as [[|]|e].
    + intros [= <- <- <-]. split.
      { eapply same_settings_trans; [exact Hs1|]. unfold same_settings. cbn. auto 12. }
      split; [intros _; exact Hr1|].
      split.
      * exists 1%nat. rewrite !solves_app, !assemblies_app, !residuals_app.
        assert (Hq : solves (when (pi && sub) [EvPrintSeparator]) = O
                     /\ assemblies (when (pi && sub) [EvPrintSeparator]) = O
                     /\ residuals (when (pi && sub) [EvPrintSeparator]) = O)
          by (destruct (pi && sub); repeat split).
        destruct Hq as (-> & -> & ->). repeat split; lia.
      * intros Hf. apply full_steps_app. split; [auto|].
        destruct (pi && sub); repeat constructor.
    + intros H. apply IH in H.
      destruct H as (Hs & Hr & (k & Hk & K1 & K2 & K3) & Hf).
      split; [eapply same_settings_trans; eauto|].
      split; [intros _; auto|].
      split; [exists (S k); repeat split; lia | auto].
    + intros [= <- <- <-]. split; [exact Hs1|]. split; [intros _; exact Hr1|].
      split; [exists 1%nat; repeat split; lia | exact Hf1].
Qed.

(** X3.  However a [newton] call ends (converged, iteration limit, or an
    exception from the check), it has assembled the Jacobian exactly once per
    linear solve and the residual once more than that, made at most
    [ceil(maxiter) - 1] solves, taken only full Newton steps, left the solver
    settings untouched, reset [li] to 0, and holds a residual norm. *)
Theorem newton_accounting (self self' : solver_nonlinear_ode Pb) (t : Q) (pi sub : bool)
    (res : result unit) (log' : list event) :
  newton self t pi sub = Some (res, self', log') ->
  same_settings self self'
  /\ is_Some (resnorms self' !! "res1")
  /\ assemblies log' = solves log'
  /\ residuals log' = S (solves log')
  /\ (solves log' <= newton_fuel self)%nat
  /\ full_steps log'.
Proof.
  unfold newton, newton_start. intros H.
  apply newton_while_account in H.
  destruct H as (Hs & Hr & (k & Hk & K1 & K2 & K3) & Hf).
  assert (H0 : solves (when pi [EvPrintHeader] ++ [EvResidual] ++ when pi [EvPrintIter 0])
               = O
               /\ assemblies (when pi [EvPrintHeader] ++ [EvResidual]
                              ++ when pi [EvPrintIter 0]) = O
               /\ residuals (when pi [EvPrintHeader] ++ [EvResidual]
                             ++ when pi [EvPrintIter 0]) = 1%nat
               /\ full_steps (when pi [EvPrintHeader] ++ [EvResidual]
                              ++ when pi [EvPrintIter 0]))
    by (destruct pi; cbn; repeat split; repeat constructor).
  destruct H0 as (A1 & A2 & A3 & A4).
  rewrite A1 in K1. rewrite A2 in K2. rewrite A3 in K3.
  split.
  { eapply same_settings_trans; [|exact Hs]. unfold same_settings. cbn. auto 12. }
  split.
  { apply Hr. cbn. rewrite lookup_insert_eq. eauto. }
  repeat split; try lia. auto.
Qed.

(** X4.  [__init__] of the ODE solver succeeds exactly when the parameter
    check passes, at least one problem is given and both tolerances are
    present; it then takes the first problem, the given tolerances, and
    [maxiter] and the LU package from the record or their defaults 25 and
    ['mumps'], with a direct [preonly]/[lu] KSP and PTC off. *)
Theorem init_succeeds_iff (pbs : list Pb) (params : gmap string pyval) :
  ((exists self, init pbs params = Ok self)
   <-> check_params_solver params = Ok tt /\ pbs <> []
       /\ is_Some (params !! "tol_res") /\ is_Some (params !! "tol_inc"))
  /\ (forall self, init pbs params = Ok self ->
        head pbs = Some (pb self)
        /\ maxiter self = default (PyNum 25) (params !! "maxiter")
        /\ direct_solver self = default (PyStr "mumps") (params !! "direct_solver")
        /\ ksp self = {| ksp_type := "preonly"; pc_type := "lu";
                         factor_solver_type := direct_solver self |}
        /\ resnorms self = ∅ /\ incnorms self = ∅ /\ PTC self = false).
Proof.
  unfold init, bind, getitem, try_get, getitem. split; [split|].
  - intros [self H].
    destruct (check_params_solver params) as [[]|]; [|discriminate].
    destruct pbs; [discriminate|].
    destruct (params !! "tol_res"); [|discriminate].
    destruct (params !! "tol_inc"); [|discriminate].
    repeat split; eauto.
  - intros (-> & Hp & [tr ->] & [ti ->]).
    destruct pbs; [contradiction|]. eauto.
  - intros self.
    destruct (check_params_solver params) as [[]|]; [|discriminate].
    destruct pbs; [discriminate|].
    destruct (params !! "tol_res"); [|discriminate].
    destruct (params !! "tol_inc"); [|discriminate].
    intros [= <-]. cbn.
    destruct (params !! "maxiter"), (params !! "direct_solver"); cbn; auto 10.
Qed.

End NewtonMore.

Section NewtonMoreExamples.
Import SolverNonlin.

Lemma newton_stops_at_first_success_witness :
  exists r2 self2 log2,
    newton_passes (petsc := scalar_petsc) (problem := scalar_problem) 2 0 true 1
      (newton_start (petsc := scalar_petsc) (problem := scalar_problem)
         (scalar_solver p_start (PyNum 3)) 0 true) = (r2, self2, log2)
    /\ newton (petsc := scalar_petsc) (problem := scalar_problem)
         (collab := spec_collaborators) (scalar_solver p_start (PyNum 3)) 0 true false
       = Some (Ok tt, set_counters 2 (li self2) self2,
               (log2 ++ when (true && false) [EvPrintSeparator])%list).
Proof.
  apply (newton_stops_at_first_success (petsc := scalar_petsc) (problem := scalar_problem)
           (collab := spec_collaborators) (scalar_solver p_start (PyNum 3)) 0 true false
           3 2).
  - reflexivity.
  - vm_compute. lia.
  - intros j Hj. assert (j = 1%nat) by lia. subst j. vm_compute. reflexivity.
  - vm_compute. reflexivity.
Defined.

Lemma newton_needs_maxiter_above_one_witness :
  exists self' log',
    newton (petsc := scalar_petsc) (problem := scalar_problem)
      (collab := spec_collaborators) (scalar_solver p_solved (PyNum 1)) 0 true false
    = Some (Raise (RuntimeError newton_fmt 1), self', log')
    /\ pb self' = p_solved
    /\ solves log' = O /\ assemblies log' = O /\ residuals log' = 1%nat.
Proof.
  apply (newton_needs_maxiter_above_one (petsc := scalar_petsc)
           (problem := scalar_problem) (collab := spec_collaborators)
           (scalar_solver p_solved (PyNum 1)) 0 true false 1).
  - reflexivity.
  - vm_compute. discriminate.
Defined.

Lemma newton_accounting_witness :
  same_settings (scalar_solver p_start (PyNum 25)) solved_solver
  /\ is_Some (resnorms solved_solver !! "res1")
  /\ assemblies two_pass_log = solves two_pass_log
  /\ residuals two_pass_log = S (solves two_pass_log)
  /\ (solves two_pass_log <= newton_fuel (scalar_solver p_start (PyNum 25)))%nat
  /\ full_steps two_pass_log.
Proof.
  apply (newton_accounting (petsc := scalar_petsc) (problem := scalar_problem)
           (collab := spec_collaborators) (scalar_solver p_start (PyNum 25)) solved_solver
           0 true false (Ok tt) two_pass_log).
  vm_compute. reflexivity.
Defined.

End NewtonMoreExamples.

(** ** More on the construction of the 0D flow problem *)

Section ProblemMore.
Import Flow0D.
Context {Model Vec : Type} {setup : Setup Model Vec}.

(** The optional and fallback settings a successful [__init__] has stored,
    and the vectors it has set up. *)
Lemma Flow0DProblem_init_settings (io tp mp : gmap string pyval) (tc : option (Q -> Q))
    (cp : gmap string pyval) (pb : Flow0DProblem Model Vec) :
  Flow0DProblem_init io tp mp tc cp = Ok pb ->
  io !! "simname" = Some (simname pb)
  /\ try_get_else io "write_results_every_0D" "write_results_every"
     = Ok (write_results_every_0D (conf pb))
  /\ try_get_else io "output_path_0D" "output_path" = Ok (output_path_0D (conf pb))
  /\ write_restart_every (conf pb) = try_get io "write_restart_every" (PyNum (-1))
  /\ cq (conf pb) = try_get cp "coupling_quantity" (PyStr "volume")
  /\ perturb_type (conf pb) = try_get mp "perturb_type" PyNone
  /\ perturb_after_cylce (conf pb)
     = (if is_none (try_get mp "perturb_type" PyNone) then PyNum (-1)
        else try_get mp "perturb_after_cylce" (PyNum (-1)))
  /\ time_curves (conf pb) = tc
  /\ (exists ic,
        (if truthy (try_get tp "initial_file" (PyStr ""))
         then set_initial_from_file (cardvasc0D pb) (try_get tp "initial_file" (PyStr ""))
         else getitem tp "initial_conditions") = Ok ic
        /\ initialize (cardvasc0D pb) (createVecLeft (cardvasc0D pb)) ic = Ok (s (vecs pb)))
  /\ s_old (vecs pb) = s (vecs pb) /\ sTc_old pb = s (vecs pb)
  /\ df (vecs pb) = createVecLeft (cardvasc0D pb)
  /\ f (vecs pb) = createVecLeft (cardvasc0D pb)
  /\ aux (vecs pb) = createVecLeft (cardvasc0D pb)
  /\ s_mid pb = createVecLeft (cardvasc0D pb)
  /\ c pb = [] /\ out pb = [].
Proof.
  unfold Flow0DProblem_init, bind.
  destruct (problem_base_init io tp) as [b|] eqn:Eb; [|discriminate].
  destruct (getitem io "simname") as [sn|] eqn:Esn; [|discriminate].
  destruct (try_get_else io "write_results_every_0D" "write_results_every")
    as [wre|]; [|discriminate].
  destruct (try_get_else io "output_path_0D" "output_path") as [op|]; [|discriminate].
  destruct (model_dispatch _ _ _ _ _ _ _ _) as [call|] eqn:Ed; [|discriminate].
  destruct (construct call) as [model|] eqn:Ec; [|discriminate].
  apply getitem_Ok in Esn.
  match goal with |- match ?x with _ => _ end = _ -> _ =>
    destruct x as [ic|] eqn:Eic; [|discriminate] end.
  destruct (initialize model (createVecLeft model) ic) as [v0|] eqn:Ei; [|discriminate].
  destruct (getitem tp "theta_ost") as [th|] eqn:Eth; [|discriminate].
  intros [= <-]. cbn. repeat split; auto. exists ic. split; assumption.
Qed.

(** X5.  Without a perturbation type (key missing, or [None]) the trigger
    cycle stored on the problem is -1 whatever ['perturb_after_cylce'] says;
    with a type, it is the given trigger cycle, or -1 when none is given. *)
Theorem trigger_cycle_needs_a_type (io tp mp : gmap string pyval) (tc : option (Q -> Q))
    (cp : gmap string pyval) (pb : Flow0DProblem Model Vec) :
  Flow0DProblem_init io tp mp tc cp = Ok pb ->
  (mp !! "perturb_type" = None \/ mp !! "perturb_type" = Some PyNone ->
     perturb_type (conf pb) = PyNone /\ perturb_after_cylce (conf pb) = PyNum (-1))
  /\ (forall v, mp !! "perturb_type" = Some v -> v <> PyNone ->
        perturb_type (conf pb) = v
        /\ perturb_after_cylce (conf pb)
           = default (PyNum (-1)) (mp !! "perturb_after_cylce")).
Proof.
  intros E. apply Flow0DProblem_init_settings in E.
  destruct E as (_ & _ & _ & _ & _ & Hpt & Hpa & _).
  rewrite Hpt, Hpa. unfold try_get, getitem. split.
  - intros [-> | ->]; cbn; auto.
  - intros v -> Hv. destruct v; try contradiction; cbn;
      destruct (mp !! "perturb_after_cylce"); auto.
Qed.

(** X6.  The output frequency and path of the 0D model fall back to the
    general ones: ['write_results_every_0D'] and ['output_path_0D'] win when
    given, else ['write_results_every'] and ['output_path'] are used; the
    restart frequency defaults to -1.  When neither output frequency key is
    there, construction raises the [KeyError] of the general key. *)
Theorem output_settings_fall_back (io tp mp : gmap string pyval) (tc : option (Q -> Q))
    (cp : gmap string pyval) :
  (forall pb, Flow0DProblem_init io tp mp tc cp = Ok pb ->
     Some (write_results_every_0D (conf pb))
     = (match io !! "write_results_every_0D" with
        | Some v => Some v
        | None => io !! "write_results_every"
        end)
     /\ Some (output_path_0D (conf pb))
        = (match io !! "output_path_0D" with
           | Some v => Some v
           | None => io !! "output_path"
           end)
     /\ write_restart_every (conf pb) = default (PyNum (-1)) (io !! "write_restart_every"))
  /\ (forall b, problem_base_init io tp = Ok b -> is_Some (io !! "simname") ->
      io !! "write_results_every_0D" = None -> io !! "write_results_every" = None ->
      Flow0DProblem_init io tp mp tc cp = Raise (KeyError "write_results_every"))
  /\ (forall b, problem_base_init io tp = Ok b -> is_Some (io !! "simname") ->
      is_Some (io !! "write_results_every_0D") \/ is_Some (io !! "write_results_every") ->
      io !! "output_path_0D" = None -> io !! "output_path" = None ->
      Flow0DProblem_init io tp mp tc cp = Raise (KeyError "output_path")).
Proof.
  split; [|split].
  - intros pb E. apply Flow0DProblem_init_settings in E.
    destruct E as (_ & Hw & Ho & Hr & _).
    unfold try_get_else, getitem in Hw, Ho. rewrite Hr.
    unfold try_get, getitem.
    destruct (io !! "write_results_every_0D"), (io !! "write_results_every"),
      (io !! "output_path_0D"), (io !! "output_path"), (io !! "write_restart_every");
      try discriminate; repeat split; cbn; congruence.
  - intros b Hb [sn Hsn] H1 H2.
    unfold Flow0DProblem_init, bind, try_get_else, getitem.
    now rewrite Hb, Hsn, H1, H2.
  - intros b Hb [sn Hsn] Hw H1 H2.
    unfold Flow0DProblem_init, bind. rewrite Hb.
    apply getitem_Ok in Hsn. rewrite Hsn.
    destruct (try_get_else_Ok _ _ _ Hw) as [w ->].
    unfold try_get_else, getitem. now rewrite H1, H2.
Qed.

(** X7.  A freshly built problem starts with the new state, the old state
    and the cycle snapshot all equal to the one initialisation of the given
    initial conditions, which come from the file when ['initial_file'] is a
    non-empty name and from ['initial_conditions'] otherwise; rates, right
    hand sides, auxiliaries and midpoints are fresh vectors and no time curve
    value is stored yet. *)
Theorem initial_state (io tp mp : gmap string pyval) (tc : option (Q -> Q))
    (cp : gmap string pyval) (pb : Flow0DProblem Model Vec) :
  Flow0DProblem_init io tp mp tc cp = Ok pb ->
  (exists ic,
     initialize (cardvasc0D pb) (createVecLeft (cardvasc0D pb)) ic = Ok (s (vecs pb))
     /\ (forall name, tp !! "initial_file" = Some (PyStr name) -> name <> "" ->
           set_initial_from_file (cardvasc0D pb) (PyStr name) = Ok ic)
     /\ (tp !! "initial_file" = None -> tp !! "initial_conditions" = Some ic))
  /\ s_old (vecs pb) = s (vecs pb)
  /\ sTc_old pb = s (vecs pb)
  /\ df (vecs pb) = createVecLeft (cardvasc0D pb)
  /\ f (vecs pb) = createVecLeft (cardvasc0D pb)
  /\ aux (vecs pb) = createVecLeft (cardvasc0D pb)
  /\ s_mid pb = createVecLeft (cardvasc0D pb)
  /\ c pb = [].
Proof.
  intros E. apply Flow0DProblem_init_settings in E.
  destruct E as (_ & _ & _ & _ & _ & _ & _ & _ & (ic & Hic & Hi) & H1 & H2 & H3 & H4
                 & H5 & H6 & H7 & _).
  repeat split; auto.
  exists ic. split; [exact Hi|]. unfold try_get, getitem in Hic. split.
  - intros name Hn Hne. rewrite Hn in Hic. cbn in Hic.
    destruct (String.eqb_spec name ""); [contradiction|]. exact Hic.
  - intros Hn. rewrite Hn in Hic. cbn in Hic. now apply getitem_Ok in Hic.
Qed.

(** X8.  The keys the model dispatch needs.  With a usable configuration up
    to the dispatch: a missing ['modeltype'] raises its [KeyError]; for a
    recognised tag a missing ['theta_ost'] raises its [KeyError], and with
    ['theta_ost'] present a missing ['parameters'] raises its own; all of
    this before any model constructor runs. *)
Theorem dispatch_needs_its_keys (io tp mp : gmap string pyval) (tc : option (Q -> Q))
    (cp : gmap string pyval) (b : base_conf) :
  problem_base_init io tp = Ok b ->
  io_well_formed io ->
  (mp !! "modeltype" = None ->
     Flow0DProblem_init io tp mp tc cp = Raise (KeyError "modeltype"))
  /\ (forall name cls, mp !! "modeltype" = Some (PyStr name) ->
        In (name, cls) model_table ->
        (tp !! "theta_ost" = None ->
           Flow0DProblem_init io tp mp tc cp = Raise (KeyError "theta_ost"))
        /\ (is_Some (tp !! "theta_ost") -> mp !! "parameters" = None ->
              Flow0DProblem_init io tp mp tc cp = Raise (KeyError "parameters"))).
Proof.
  intros Hb (Hsn & Hw & Ho).
  destruct Hsn as [sn Hsn'].
  destruct (try_get_else_Ok _ _ _ Hw) as [w Hw'].
  destruct (try_get_else_Ok _ _ _ Ho) as [o Ho'].
  apply getitem_Ok in Hsn'.
  split.
  - intros Hm. unfold Flow0DProblem_init, bind. rewrite Hb, Hsn', Hw', Ho'.
    unfold model_dispatch, bind, getitem. now rewrite Hm.
  - intros name cls Hm Hin.
    destruct (table_class_of_modeltype name cls Hin) as [closed Hc].
    split.
    + intros Hth. unfold Flow0DProblem_init, bind. rewrite Hb, Hsn', Hw', Ho'.
      unfold model_dispatch, bind, getitem. now rewrite Hm, Hc, Hth.
    + intros [th Hth] Hpa. unfold Flow0DProblem_init, bind. rewrite Hb, Hsn', Hw', Ho'.
      unfold model_dispatch, bind, getitem. now rewrite Hm, Hc, Hth, Hpa.
Qed.

End ProblemMore.

Section ProblemMoreExamples.
Import Flow0D.

Local Abbreviation toy_mp := (toy_model_params "syspul").

Lemma trigger_cycle_needs_a_type_witness :
  match toy_init toy_time_params (delete "perturb_type" toy_mp) with
  | Ok pb =>
    (delete "perturb_type" toy_mp !! "perturb_type" = None
     \/ delete "perturb_type" toy_mp !! "perturb_type" = Some PyNone ->
       perturb_type (conf pb) = PyNone /\ perturb_after_cylce (conf pb) = PyNum (-1))
    /\ (forall v, delete "perturb_type" toy_mp !! "perturb_type" = Some v -> v <> PyNone ->
          perturb_type (conf pb) = v
          /\ perturb_after_cylce (conf pb)
             = default (PyNum (-1)) (delete "perturb_type" toy_mp !! "perturb_after_cylce"))
  | Raise _ => False
  end.
Proof.
  unfold toy_init.
  destruct (Flow0DProblem_init (setup := toy_setup) toy_io_params toy_time_params
              (delete "perturb_type" toy_mp) None ∅) as [pb|e] eqn:E.
  - exact (trigger_cycle_needs_a_type (setup := toy_setup) _ _ _ _ _ pb E).
  - vm_compute in E. discriminate.
Defined.

Lemma output_settings_fall_back_witness :
  match toy_init toy_time_params toy_mp with
  | Ok pb =>
    Some (write_results_every_0D (conf pb)) = Some (PyNum 1)
    /\ Some (output_path_0D (conf pb)) = Some (PyStr "tmp")
    /\ write_restart_every (conf pb) = PyNum (-1)
  | Raise _ => False
  end.
Proof.
  unfold toy_init.
  destruct (Flow0DProblem_init (setup := toy_setup) toy_io_params toy_time_params
              toy_mp None ∅) as [pb|e] eqn:E.
  - exact (proj1 (output_settings_fall_back (setup := toy_setup) toy_io_params
                    toy_time_params toy_mp None ∅) pb E).
  - vm_compute in E. discriminate.
Defined.

Lemma initial_state_witness :
  match toy_init toy_time_params toy_mp with
  | Ok pb => s (vecs pb) = 8%Q /\ s_old (vecs pb) = s (vecs pb) /\ sTc_old pb = s (vecs pb)
  | Raise _ => False
  end.
Proof.
  unfold toy_init.
  destruct (Flow0DProblem_init (setup := toy_setup) toy_io_params toy_time_params
              toy_mp None ∅) as [pb|e] eqn:E.
  - destruct (initial_state (setup := toy_setup) _ _ _ _ _ pb E)
      as ((ic & Hi & _ & Hic) & H1 & H2 & _).
    split; [|split; assumption].
    specialize (Hic eq_refl). vm_compute in Hic. injection Hic as <-.
    cbn in Hi. now injection Hi as <-.
  - vm_compute in E. discriminate.
Defined.

Lemma dispatch_needs_its_keys_witness :
  toy_init toy_time_params (delete "modeltype" toy_mp) = Raise (KeyError "modeltype")
  /\ toy_init toy_time_params (delete "parameters" toy_mp) = Raise (KeyError "parameters").
Proof.
  assert (Hio : io_well_formed toy_io_params).
  { repeat split; [eexists; reflexivity | right; eexists; reflexivity
                   | right; eexists; reflexivity]. }
  assert (Hb : problem_base_init (Setup := toy_setup) toy_io_params toy_time_params
               = Ok {| problem_type := "flow0d"; t_init := 0; dt := 1 # 10; numstep := 12;
                       restart_step := 0; numstep_stop := None |}) by reflexivity.
  split.
  - exact (proj1 (dispatch_needs_its_keys (setup := toy_setup) toy_io_params
                    toy_time_params (delete "modeltype" toy_mp) None ∅ _ Hb Hio) eq_refl).
  - refine (proj2 (proj2 (dispatch_needs_its_keys (setup := toy_setup) toy_io_params
                    toy_time_params (delete "parameters" toy_mp) None ∅ _ Hb Hio)
                    "syspul" cardiovascular0Dsyspul eq_refl _) _ eq_refl).
    + cbn; tauto.
    + eexists; reflexivity.
Defined.

End ProblemMoreExamples.

(** ** More on the time loop of the 0D flow solver *)

Section LoopMore.
Import Flow0D.
Context {Model Vec : Type}.
Context {integ : Integrator Model Vec} {monitor : CycleMonitor Model Vec}.

Lemma timesteps_app (o1 o2 : list (out_event Vec)) :
  timesteps (o1 ++ o2) = (timesteps o1 ++ timesteps o2)%list.
Proof. apply omap_app. Qed.

Lemma written_app (o1 o2 : list (out_event Vec)) :
  written (o1 ++ o2) = (written o1 ++ written o2)%list.
Proof. apply omap_app. Qed.

Lemma restarts_written_app (o1 o2 : list (out_event Vec)) :
  restarts_written (o1 ++ o2) = (restarts_written o1 ++ restarts_written o2)%list.
Proof. apply omap_app. Qed.

(** [v > 0 and N % v == 0] for a number that is not positive. *)
Lemma every_nonpos (v : pyval) (q : Q) (N : Z) :
  num_of v = Some q -> (q <= 0)%Q -> every v N = Ok false.
Proof.
  intros Hv Hq. unfold every, bind, py_gt0. rewrite Hv.
  destruct (Qltb 0 q) eqn:E; [|reflexivity].
  apply Qltb_lt in E. exfalso. eapply Qlt_irrefl, Qlt_le_trans; eauto.
Qed.

(** [v > 0 and N % v == 0] for a positive whole number. *)
Lemma every_whole (w N : Z) :
  (0 < w)%Z -> every (PyNum (inject_Z w)) N = Ok (N mod w =? 0)%Z.
Proof.
  intros Hw. unfold every, bind, py_gt0, py_divides. cbn [num_of].
  assert (HwQ : (0 < inject_Z w)%Q) by (change 0%Q with (inject_Z 0); now rewrite <- Zlt_Qlt).
  assert (E1 : Qltb 0 (inject_Z w) = true) by now apply Qltb_lt.
  rewrite E1.
  assert (E2 : Qeq_bool (inject_Z w) 0 = false).
  { destruct (Qeq_bool (inject_Z w) 0) eqn:E; [|reflexivity].
    apply Qeq_bool_eq in E. rewrite E in HwQ. now apply Qlt_irrefl in HwQ. }
  rewrite E2. f_equal.
  assert (Hfl : Qfloor (inject_Z N / inject_Z w) = (N / w)%Z).
  { apply Qfloor_div_unique; [exact HwQ | |].
    - rewrite <- inject_Z_mult, <- Zle_Qle. pose proof (Z.mul_div_le N w Hw). lia.
    - change 1%Q with (inject_Z 1).
      rewrite <- inject_Z_plus, <- inject_Z_mult, <- Zlt_Qlt.
      pose proof (Z.mul_succ_div_gt N w Hw). lia. }
  rewrite Hfl.
  assert (Hne : ~ (inject_Z w == 0)%Q)
    by (intros E; rewrite E in HwQ; now apply Qlt_irrefl in HwQ).
  destruct (N mod w =? 0)%Z eqn:Em.
  - apply Z.eqb_eq in Em. apply Qeq_eq_bool.
    apply Z.div_exact in Em; [|lia].
    rewrite Em at 2. rewrite inject_Z_mult. now field.
  - apply Z.eqb_neq in Em.
    destruct (Qeq_bool (inject_Z (N / w)) (inject_Z N / inject_Z w)) eqn:E3;
      [|reflexivity].
    exfalso. apply Em. apply Qeq_bool_eq in E3. rename E3 into E.
    assert (E' : (inject_Z (N / w) * inject_Z w == inject_Z N)%Q)
      by (rewrite E; now field).
    rewrite <- inject_Z_mult in E'. rewrite inject_Z_injective in E'.
    apply Z.div_exact; [lia|]. rewrite Z.mul_comm. now symmetry.
Qed.

(** What one pass of the loop adds to the output: at most its own time-step
    line, a result file only for the time of this step and only when it is
    due, a restart file only for this step and only when it is due; a pass
    that runs to its end adds all that is due. *)
Lemma time_step_trace (N : Z) (pb : Flow0DProblem Model Vec) :
  exists extra,
    out (flow_state (time_step N pb)) = (out pb ++ extra)%list
    /\ (timesteps extra = [] \/ timesteps extra = [N])
    /\ (forall x, In x (written extra) ->
          x = (inject_Z N * dt (base (conf pb)))%Q
          /\ every (write_results_every_0D (conf pb)) N = Ok true)
    /\ (forall x, In x (restarts_written extra) ->
          x = N /\ every (write_restart_every (conf pb)) N = Ok true)
    /\ (completed (time_step N pb) = true ->
          timesteps extra = [N]
          /\ exists w wr,
               every (write_results_every_0D (conf pb)) N = Ok w
               /\ every (write_restart_every (conf pb)) N = Ok wr
               /\ written extra
                  = (if w then [(inject_Z N * dt (base (conf pb)))%Q] else [])
               /\ restarts_written extra = (if wr then [N] else [])).
Proof.
  unfold time_step; cbv zeta.
  repeat match goal with
  | |- context [match ?x with _ => _ end] => destruct x eqn:?
  end; cbn [flow_state out completed];
  first
    [ exists []; split; [now rewrite app_nil_r|];
      split; [now left|]; split; [intros ? []|]; split; [intros ? []|]; discriminate
    | rewrite <- ?app_assoc; eexists; (split; [reflexivity|]);
      cbn; split; [now right|];
      split; [first [intros ? [<-|[]]; now auto | intros ? []]|];
      split; [first [intros ? [<-|[]]; now auto | intros ? []]|];
      first [discriminate
            | intros _; split; [reflexivity|]; eexists _, _; repeat split; reflexivity] ].
Qed.

(** The loop over consecutive step numbers: the time-step lines it adds are
    those of the passes it started, in order; it starts at most one pass
    more than it completes, and none after the stop step. *)
Lemma time_loop_steps (n : nat) :
  forall (a : Z) (done : nat) (pb : Flow0DProblem Model Vec) (e : option exn)
         (done' : nat) (pb' : Flow0DProblem Model Vec),
    time_loop (seqZ a (Z.of_nat n)) done pb = (e, done', pb') ->
    exists k : nat,
      timesteps (out pb') = (timesteps (out pb) ++ seqZ a (Z.of_nat k))%list
      /\ (k <= n)%nat
      /\ (done + k <= done' + 1)%nat /\ (done' <= done + k)%nat
      /\ (e = None -> done' = (done + k)%nat)
      /\ (forall stop, numstep_stop (base (conf pb)) = Some stop -> (a <= stop)%Z ->
            (a + Z.of_nat k <= stop + 1)%Z).
Proof.
  induction n as [|n IH]; intros a done pb e done' pb'.
  - cbn. intros [= <- <- <-]. exists O. cbn. rewrite app_nil_r.
    repeat split; auto; lia.
  - rewrite seqZ_S. cbn [time_loop].
    destruct (time_step_trace a pb) as (extra & Hout & Hts & _ & _ & Hcomp).
    pose proof (time_step_conf a pb) as Hcf.
    assert (Hstop : forall pb1 stop, time_step a pb = Next pb1 ->
              numstep_stop (base (conf pb)) = Some stop -> a <> stop).
    { intros pb1 stop Hn Hs. revert Hn. unfold time_step; cbv zeta.
      repeat match goal with
      | |- context [match ?x with _ => _ end] => destruct x eqn:?
      end; try discriminate; intros _;
        first [congruence | apply Z.eqb_neq; congruence]. }
    destruct (time_step a pb) as [pb1|pb1|e1 pb1] eqn:Est; cbn in Hout, Hcomp, Hcf.
    + intros Hl. destruct (IH _ _ _ _ _ _ Hl) as (k & Hk1 & Hk2 & Hk3 & Hk4 & Hk5 & Hk6).
      destruct (Hcomp eq_refl) as [Hts' _].
      exists (S k). rewrite seqZ_S, Hk1, Hout, timesteps_app, Hts', <- app_assoc.
      repeat split; auto; try lia.
      * intros He. specialize (Hk5 He). lia.
      * intros stop Hs Ha. rewrite Hcf in Hk6.
        specialize (Hstop pb1 stop eq_refl Hs).
        specialize (Hk6 stop Hs). lia.
    + intros [= <- <- <-]. destruct (Hcomp eq_refl) as [Hts' _].
      exists 1%nat. rewrite Hout, timesteps_app, Hts'.
      repeat split; auto; try lia.
    + intros [= <- <- <-]. destruct Hts as [Hts'|Hts'].
      * exists 0%nat. rewrite Hout, timesteps_app, Hts'. cbn.
        repeat split; auto; lia.
      * exists 1%nat. rewrite Hout, timesteps_app, Hts'.
        repeat split; auto; try lia; discriminate.
Qed.

Lemma time_loop_done (Ns : list Z) :
  forall (done : nat) (pb : Flow0DProblem Model Vec) (e : option exn)
         (done' : nat) (pb' : Flow0DProblem Model Vec),
    time_loop Ns done pb = (e, done', pb') -> (done <= done')%nat.
Proof.
  induction Ns as [|N Ns IH]; intros done pb e done' pb'; cbn [time_loop].
  - intros [= <- <- <-]. lia.
  - destruct (time_step N pb) as [pb1|pb1|e1 pb1].
    + intros Hl. apply IH in Hl. lia.
    + intros [= <- <- <-]. lia.
    + intros [= <- <- <-]. lia.
Qed.

(** The loop writes a result file for exactly those completed steps for
    which it is due, and restart files only for steps for which they are
    due. *)
Lemma time_loop_files (n : nat) :
  forall (a : Z) (done : nat) (pb : Flow0DProblem Model Vec) (e : option exn)
         (done' : nat) (pb' : Flow0DProblem Model Vec),
    time_loop (seqZ a (Z.of_nat n)) done pb = (e, done', pb') ->
    (exists extra,
       out pb' = (out pb ++ extra)%list
       /\ (forall x, In x (written extra) ->
             exists N, every (write_results_every_0D (conf pb)) N = Ok true)
       /\ (forall x, In x (restarts_written extra) ->
             every (write_restart_every (conf pb)) x = Ok true))
    /\ (e = None ->
        forall due : Z -> bool,
          (forall N, every (write_results_every_0D (conf pb)) N = Ok (due N)) ->
          written (out pb')
          = (written (out pb)
             ++ map (fun N => (inject_Z N * dt (base (conf pb)))%Q)
                    (List.filter due (seqZ a (Z.of_nat (done' - done)))))%list).
Proof.
  induction n as [|n IH]; intros a done pb e done' pb'.
  - cbn. intros [= <- <- <-]. split.
    + exists []. rewrite app_nil_r. repeat split; intros ? [].
    + intros _ due _. rewrite Nat.sub_diag. cbn. now rewrite app_nil_r.
  - rewrite seqZ_S. cbn [time_loop].
    destruct (time_step_trace a pb) as (extra & Hout & _ & Hw & Hr & Hcomp).
    pose proof (time_step_conf a pb) as Hcf.
    assert (Hex : exists extra',
              (out pb ++ extra)%list = (out pb ++ extra')%list
              /\ (forall x, In x (written extra') ->
                    exists N, every (write_results_every_0D (conf pb)) N = Ok true)
              /\ (forall x, In x (restarts_written extra') ->
                    every (write_restart_every (conf pb)) x = Ok true)).
    { exists extra. split; [reflexivity|]. split.
      - intros x H. exists a. now apply (Hw x).
      - intros x H. destruct (Hr x H) as [-> H']. exact H'. }
    assert (Hone : completed (time_step a pb) = true ->
              forall due : Z -> bool,
                (forall N, every (write_results_every_0D (conf pb)) N = Ok (due N)) ->
                written extra
                = map (fun N => (inject_Z N * dt (base (conf pb)))%Q)
                      (if due a then [a] else [])).
    { intros Hc due Hdue. destruct (Hcomp Hc) as (_ & w & wr & Hew & _ & Hwr & _).
      rewrite Hdue in Hew. injection Hew as <-. rewrite Hwr. now destruct (due a). }
    destruct (time_step a pb) as [pb1|pb1|e1 pb1] eqn:Est; cbn in Hout, Hcomp, Hcf, Hone.
    + intros Hl. pose proof (time_loop_done _ _ _ _ _ _ Hl) as Hd.
      destruct (IH _ _ _ _ _ _ Hl) as ((extra' & I0 & I1 & I2) & I3).
      rewrite Hcf in I1, I2, I3. rewrite Hout in I0, I3. split.
      * exists (extra ++ extra')%list. rewrite I0, <- app_assoc.
        split; [reflexivity|]. split.
        -- intros x. rewrite written_app, in_app_iff. intros [H|H]; [|eauto].
           exists a. now apply (Hw x).
        -- intros x. rewrite restarts_written_app, in_app_iff. intros [H|H]; [|eauto].
           destruct (Hr x H) as [-> H']. exact H'.
      * intros He due Hdue. rewrite (I3 He due Hdue), written_app, (Hone eq_refl due Hdue).
        replace (done' - done)%nat with (S (done' - S done)) by lia.
        rewrite seqZ_S. cbn [List.filter].
        rewrite <- app_assoc, <- map_app. now destruct (due a).
    + intros [= <- <- <-]. rewrite Hout. split; [exact Hex|].
      intros _ due Hdue. rewrite written_app, (Hone eq_refl due Hdue).
      replace (S done - done)%nat with 1%nat by lia.
      change (seqZ a (Z.of_nat 1)) with [a]. cbn [List.filter].
      now destruct (due a).
    + intros [= <- <- <-]. rewrite Hout. split; [exact Hex|]. discriminate.
Qed.

(** The same for a whole run. *)
Lemma solve_problem_files (pb : Flow0DProblem Model Vec) (e : option exn) (done : nat)
    (pb' : Flow0DProblem Model Vec) :
  solve_problem pb = (e, done, pb') ->
  (exists extra,
     out pb' = (out pb ++ extra)%list
     /\ (forall x, In x (written extra) ->
           exists N, every (write_results_every_0D (conf pb)) N = Ok true)
     /\ (forall x, In x (restarts_written extra) ->
           every (write_restart_every (conf pb)) x = Ok true))
  /\ (e = None ->
      forall due : Z -> bool,
        (forall N, every (write_results_every_0D (conf pb)) N = Ok (due N)) ->
        written (out pb')
        = (written (out pb)
           ++ map (fun N => (inject_Z N * dt (base (conf pb)))%Q)
                  (List.filter due
                     (seqZ (restart_step (base (conf pb)) + 1) (Z.of_nat done))))%list).
Proof.
  unfold solve_problem. intros H.
  destruct (before_loop pb) as [pb0|e0] eqn:Eb.
  - destruct (before_loop_keeps _ _ Eb) as [Hcf Hout].
    unfold step_numbers in H.
    destruct (Z_le_gt_dec (numstep (base (conf pb0))
                           - restart_step (base (conf pb0))) 0) as [Hn|Hn].
    + rewrite seqZ_nil in H by lia. cbn in H. injection H as <- <- <-.
      rewrite Hout. split.
      * exists []. rewrite app_nil_r. repeat split; intros ? [].
      * intros _ due _. cbn. now rewrite app_nil_r.
    + rewrite <- (Z2Nat.id (numstep (base (conf pb0))
                            - restart_step (base (conf pb0)))) in H by lia.
      apply time_loop_files in H. rewrite Hcf, Hout, Nat.sub_0_r in H. exact H.
  - injection H as <- <- <-. split.
    + exists []. rewrite app_nil_r. repeat split; intros ? [].
    + discriminate.
Qed.

(** X9.  The time loop visits the steps in order, from the step after the
    restart step: the time-step lines a run adds are numbered
    restart_step+1, restart_step+2, ... without gap or repetition.  It
    starts at most one step more than it completes (none more when it ends
    without exception), never more than [numstep - restart_step], and none
    beyond a stop step that lies after the restart step. *)
Theorem steps_run_in_order (pb : Flow0DProblem Model Vec) (e : option exn) (done : nat)
    (pb' : Flow0DProblem Model Vec) :
  solve_problem pb = (e, done, pb') ->
  exists k : nat,
    timesteps (out pb')
    = (timesteps (out pb) ++ seqZ (restart_step (base (conf pb)) + 1) (Z.of_nat k))%list
    /\ (done <= k <= done + 1)%nat
    /\ (e = None -> k = done)
    /\ (Z.of_nat k
        <= Z.max 0 (numstep (base (conf pb)) - restart_step (base (conf pb))))%Z
    /\ (forall stop, numstep_stop (base (conf pb)) = Some stop ->
          (restart_step (base (conf pb)) < stop)%Z ->
          (Z.of_nat k <= stop - restart_step (base (conf pb)))%Z).
Proof.
  unfold solve_problem. intros H. set (b := base (conf pb)).
  destruct (before_loop pb) as [pb0|e0] eqn:Eb.
  - destruct (before_loop_keeps _ _ Eb) as [Hcf Hout].
    unfold step_numbers in H. rewrite Hcf in H. fold b in H.
    destruct (Z_le_gt_dec (numstep b - restart_step b) 0) as [Hn|Hn].
    + rewrite seqZ_nil in H by lia. cbn in H. injection H as <- <- <-.
      exists 0%nat. cbn. rewrite app_nil_r, Hout. repeat split; auto; lia.
    + rewrite <- (Z2Nat.id (numstep b - restart_step b)) in H by lia.
      apply time_loop_steps in H.
      destruct H as (k & Hk1 & Hk2 & Hk3 & Hk4 & Hk5 & Hk6).
      rewrite Hcf in Hk6. fold b in Hk6.
      exists k. rewrite Hk1, Hout. repeat split; auto; try lia.
      * intros He. specialize (Hk5 He). lia.
      * intros stop Hs Hlt. specialize (Hk6 stop Hs). lia.
  - injection H as <- <- <-. exists 0%nat. cbn. rewrite app_nil_r.
    repeat split; auto; try lia; discriminate.
Qed.

(** X10.  Result files follow the schedule.  With a whole number [w > 0] as
    ['write_results_every_0D'], a run that ends without exception has written
    one file for every completed step whose number is a multiple of [w], at
    the time of that step, in order, and no other; with a number that is not
    positive no result file is written at all, however the run ends. *)
Theorem results_written_on_schedule (pb : Flow0DProblem Model Vec) (e : option exn)
    (done : nat) (pb' : Flow0DProblem Model Vec) :
  solve_problem pb = (e, done, pb') ->
  (forall w : Z, write_results_every_0D (conf pb) = PyNum (inject_Z w) -> (0 < w)%Z ->
     e = None ->
     written (out pb')
     = (written (out pb)
        ++ map (fun N => (inject_Z N * dt (base (conf pb)))%Q)
               (List.filter (fun N => (N mod w =? 0)%Z)
                  (seqZ (restart_step (base (conf pb)) + 1) (Z.of_nat done))))%list)
  /\ (forall q : Q, num_of (write_results_every_0D (conf pb)) = Some q -> (q <= 0)%Q ->
        written (out pb') = written (out pb)).
Proof.
  intros H. apply solve_problem_files in H.
  destruct H as ((extra & Hout & Hw & _) & Hsched). split.
  - intros w Hcf Hpos He. apply (Hsched He).
    intros N. rewrite Hcf. now apply every_whole.
  - intros q Hq Hle. rewrite Hout, written_app.
    destruct (written extra) as [|x l] eqn:Ew; [now rewrite app_nil_r|].
    destruct (Hw x) as [N HN]; [now left|].
    rewrite (every_nonpos _ q N Hq Hle) in HN. discriminate.
Qed.

(** X11.  A problem built without ['write_restart_every'] never writes a
    restart file, and neither does one whose restart frequency is a number
    that is not positive: whatever the solver and the model do and however
    the run ends, no restart file appears in its output. *)
Theorem no_restart_files_by_default {setup : Setup Model Vec}
    (io tp mp : gmap string pyval) (tc : option (Q -> Q)) (cp : gmap string pyval)
    (pb : Flow0DProblem Model Vec) (e : option exn) (done : nat)
    (pb' : Flow0DProblem Model Vec) :
  Flow0DProblem_init io tp mp tc cp = Ok pb ->
  solve_problem pb = (e, done, pb') ->
  (io !! "write_restart_every" = None
   \/ exists q, io !! "write_restart_every" = Some (PyNum q) /\ (q <= 0)%Q) ->
  restarts_written (out pb') = [].
Proof.
  intros Hi Hs Hio.
  apply Flow0DProblem_init_settings in Hi.
  destruct Hi as (_ & _ & _ & Hr & _ & _ & _ & _ & _ & _ & _ & _ & _ & _ & _ & _ & Ho).
  assert (Hq : exists q, num_of (write_restart_every (conf pb)) = Some q /\ (q <= 0)%Q).
  { rewrite Hr. unfold try_get, getitem.
    destruct Hio as [-> | (q & -> & Hq)]; cbn; eauto.
    exists (-1)%Q. split; [reflexivity | discriminate]. }
  destruct Hq as (q & Hq & Hle).
  apply solve_problem_files in Hs. destruct Hs as ((extra & Hout & _ & Hrs) & _).
  rewrite Hout, Ho, app_nil_l.
  destruct (restarts_written extra) as [|x l] eqn:Ew; [reflexivity|].
  specialize (Hrs x (or_introl eq_refl)).
  rewrite (every_nonpos _ q x Hq Hle) in Hrs. discriminate.
Qed.

Lemma time_step_keeps (N : Z) (pb : Flow0DProblem Model Vec) :
  simname (flow_state (time_step N pb)) = simname pb
  /\ t_init_ (flow_state (time_step N pb)) = t_init_ pb
  /\ (perturb_type (conf pb) = PyNone ->
        cardvasc0D (flow_state (time_step N pb)) = cardvasc0D pb).
Proof.
  unfold time_step; cbv zeta.
  destruct (perturb_type (conf pb)) eqn:Ept;
  repeat match goal with
  | |- context [match ?x with _ => _ end] => destruct x eqn:?
  end; cbn [flow_state simname t_init_ cardvasc0D];
  repeat split; try discriminate; intros _; cbn in *; congruence.
Qed.

Lemma time_loop_keeps (Ns : list Z) :
  forall (done : nat) (pb : Flow0DProblem Model Vec),
    simname (snd (time_loop Ns done pb)) = simname pb
    /\ t_init_ (snd (time_loop Ns done pb)) = t_init_ pb
    /\ (perturb_type (conf pb) = PyNone ->
          cardvasc0D (snd (time_loop Ns done pb)) = cardvasc0D pb).
Proof.
  induction Ns as [|N Ns IH]; intros done pb; cbn [time_loop]; [cbn; auto|].
  destruct (time_step_keeps N pb) as (H1 & H2 & H3).
  pose proof (time_step_conf N pb) as Hcf.
  destruct (time_step N pb) as [pb1|pb1|e1 pb1]; cbn in H1, H2, H3, Hcf; cbn [snd];
    [|auto|auto].
  destruct (IH (S done) pb1) as (I1 & I2 & I3). rewrite Hcf in I3.
  repeat split; [congruence | congruence |].
  intros Hp. rewrite (I3 Hp). auto.
Qed.

(** X12.  Without a perturbation type the model object a run ends with is
    the one it started with: no step hands it to [induce_perturbation], and
    restart and time loop leave it alone. *)
Theorem model_untouched_without_perturbation (pb : Flow0DProblem Model Vec)
    (e : option exn) (done : nat) (pb' : Flow0DProblem Model Vec) :
  perturb_type (conf pb) = PyNone ->
  solve_problem pb = (e, done, pb') ->
  cardvasc0D pb' = cardvasc0D pb.
Proof.
  intros Hp. unfold solve_problem.
  destruct (before_loop pb) as [pb0|e0] eqn:Eb.
  - destruct (before_loop_keeps _ _ Eb) as [Hcf _].
    assert (Hm : cardvasc0D pb0 = cardvasc0D pb).
    { revert Eb. unfold before_loop, bind.
      destruct (0 <? restart_step (base (conf pb)))%Z.
      - destruct (str_of (simname pb)) as [sname|]; [|discriminate].
        unfold readrestart. cbn.
        repeat match goal with
        | |- context [match ?x with _ => _ end] => destruct x eqn:?
        end; intros [= <-]; reflexivity.
      - repeat match goal with
        | |- context [match ?x with _ => _ end] => destruct x eqn:?
        end; intros [= <-]; reflexivity. }
    intros H.
    destruct (time_loop_keeps (step_numbers (base (conf pb0))) 0 pb0) as (_ & _ & K).
    rewrite H in K. cbn in K. rewrite K, Hm; congruence.
  - now intros [= <- <- <-].
Qed.

(** X13.  A restarted run works under a new name.  With a restart step
    [rst > 0] and a simulation name [sn], the restart files are read under
    [sn] and from then on the problem is called [sn_r<rst>]; without restart
    name and initial time stay as they are.  A restart with a simulation
    name that is no string ends the run with a [TypeError] before anything
    is done. *)
Theorem restart_renames_run (pb : Flow0DProblem Model Vec) (e : option exn) (done : nat)
    (pb' : Flow0DProblem Model Vec) :
  solve_problem pb = (e, done, pb') ->
  ((restart_step (base (conf pb)) <= 0)%Z ->
     simname pb' = simname pb /\ t_init_ pb' = t_init_ pb)
  /\ (forall sn, (0 < restart_step (base (conf pb)))%Z -> simname pb = PyStr sn ->
        simname pb' = PyStr (sn ++ "_r" ++ pretty (restart_step (base (conf pb))))
        /\ t_init_ pb' = t_init_ (readrestart pb sn (restart_step (base (conf pb)))))
  /\ ((0 < restart_step (base (conf pb)))%Z -> (forall sn, simname pb <> PyStr sn) ->
      e = Some TypeError /\ done = 0%nat /\ pb' = pb).
Proof.
  unfold solve_problem. intros H.
  destruct (before_loop pb) as [pb0|e0] eqn:Eb.
  - destruct (time_loop_keeps (step_numbers (base (conf pb0))) 0 pb0) as (K1 & K2 & _).
    rewrite H in K1, K2. cbn in K1, K2. rewrite K1, K2. clear H K1 K2.
    revert Eb. unfold before_loop, bind.
    destruct (0 <? restart_step (base (conf pb)))%Z eqn:Er.
    + apply Z.ltb_lt in Er.
      destruct (simname pb) as [| | |sn| |] eqn:Esn; cbn; try discriminate.
      destruct (time_curves _); destruct (evaluate _ _ _ _ _) as [[? ?] ?];
        intros [= <-]; cbn; (split; [lia|]); (split; [|intros _ Hn; now destruct (Hn sn)]);
        intros sn' _ [= <-]; auto.
    + apply Z.ltb_ge in Er.
      destruct (time_curves _); destruct (evaluate _ _ _ _ _) as [[? ?] ?];
        intros [= <-]; cbn; (split; [auto|]); split; intros; lia.
  - injection H as <- <- <-. revert Eb. unfold before_loop, bind.
    destruct (0 <? restart_step (base (conf pb)))%Z eqn:Er.
    + apply Z.ltb_lt in Er.
      destruct (simname pb) as [| | |sn| |] eqn:Esn; cbn;
        try (intros [= <-]; split; [lia|]; split; [discriminate | auto]).
      destruct (time_curves _); destruct (evaluate _ _ _ _ _) as [[? ?] ?]; discriminate.
    + destruct (time_curves _); destruct (evaluate _ _ _ _ _) as [[? ?] ?]; discriminate.
Qed.

End LoopMore.

Section LoopMoreExamples.
Import Flow0D.

Local Abbreviation toy_mp := (toy_model_params "syspul").
Local Abbreviation toy_solve :=
  (solve_problem (integ := toy_integrator) (monitor := toy_monitor)).

(** Twelve steps from scratch: the lines are numbered 1 to 12. *)
Lemma steps_run_in_order_witness :
  match toy_init toy_time_params toy_mp with
  | Ok pb =>
    match toy_solve pb with
    | (e, done, pb') =>
      exists k : nat,
        timesteps (out pb') = seqZ 1 (Z.of_nat k)
        /\ (done <= k <= done + 1)%nat
        /\ (e = None -> k = done)
        /\ (Z.of_nat k <= 12)%Z
    end
  | Raise _ => False
  end.
Proof.
  destruct (toy_init toy_time_params toy_mp) as [pb|e] eqn:E;
    [|vm_compute in E; discriminate].
  destruct (toy_solve pb) as [[e done] pb'] eqn:R.
  destruct (steps_run_in_order pb e done pb' R) as (k & H1 & H2 & H3 & H4 & _).
  vm_compute in E. injection E as <-.
  exists k. split; [exact H1|]. split; [exact H2|]. split; [exact H3 | exact H4].
Defined.

(** Results every step: twelve files, at the times of steps 1 to 12. *)
Lemma results_written_on_schedule_witness :
  match toy_init toy_time_params toy_mp with
  | Ok pb =>
    match toy_solve pb with
    | (e, done, pb') =>
      written (out pb') = map (fun N => inject_Z N * (1 # 10))%Q (seqZ 1 12)
    end
  | Raise _ => False
  end.
Proof.
  destruct (toy_init toy_time_params toy_mp) as [pb|e] eqn:E;
    [|vm_compute in E; discriminate].
  destruct (toy_solve pb) as [[e done] pb'] eqn:R.
  destruct (results_written_on_schedule pb e done pb' R) as [H _].
  vm_compute in E. injection E as <-.
  pose proof R as R'. vm_compute in R'. injection R' as <- <- _.
  exact (H 1 eq_refl eq_refl eq_refl).
Defined.

Lemma no_restart_files_by_default_witness :
  match toy_init toy_time_params toy_mp with
  | Ok pb =>
    match toy_solve pb with
    | (e, done, pb') => restarts_written (out pb') = []
    end
  | Raise _ => False
  end.
Proof.
  unfold toy_init.
  destruct (Flow0DProblem_init (setup := toy_setup) toy_io_params toy_time_params
              toy_mp None ∅) as [pb|e] eqn:E; [|vm_compute in E; discriminate].
  destruct (toy_solve pb) as [[e done] pb'] eqn:R.
  exact (no_restart_files_by_default (setup := toy_setup) _ _ _ _ _ pb e done pb' E R
           (or_introl eq_refl)).
Defined.

Lemma model_untouched_without_perturbation_witness :
  match toy_init toy_time_params (delete "perturb_type" toy_mp) with
  | Ok pb =>
    match toy_solve pb with
    | (e, done, pb') => cardvasc0D pb' = cardvasc0D pb
    end
  | Raise _ => False
  end.
Proof.
  destruct (toy_init toy_time_params (delete "perturb_type" toy_mp)) as [pb|e] eqn:E;
    [|vm_compute in E; discriminate].
  destruct (toy_solve pb) as [[e done] pb'] eqn:R.
  apply (model_untouched_without_perturbation (integ := toy_integrator)
           (monitor := toy_monitor) pb e done pb'); [|exact R].
  vm_compute in E. injection E as <-. reflexivity.
Defined.

(** Restart at step 4: the run goes on as [flow0d_heart_cycle_r4]. *)
Lemma restart_renames_run_witness :
  match Flow0DProblem_init (setup := toy_setup_restart) toy_io_params_restart
          toy_time_params toy_mp None ∅ with
  | Ok pb =>
    match toy_solve pb with
    | (e, done, pb') => simname pb' = PyStr "flow0d_heart_cycle_r4"
    end
  | Raise _ => False
  end.
Proof.
  destruct (Flow0DProblem_init (setup := toy_setup_restart) toy_io_params_restart
              toy_time_params toy_mp None ∅) as [pb|e] eqn:E;
    [|vm_compute in E; discriminate].
  destruct (toy_solve pb) as [[e done] pb'] eqn:R.
  destruct (restart_renames_run pb e done pb' R) as (_ & H & _).
  vm_compute in E. injection E as <-.
  exact (proj1 (H "flow0d_heart_cycle" eq_refl eq_refl)).
Defined.

End LoopMoreExamples.

(** ** The set-up of the general nonlinear solver *)

Section SolverSetup.
Import SolverNonlinear.
Local Open Scope res_scope.
Local Abbreviation eq_str := Flow0D.eq_str.

Lemma eq_str_true (v : pyval) (tag : string) : eq_str v tag = true <-> v = PyStr tag.
Proof.
  destruct v; cbn; split; try discriminate.
  - intros H. apply String.eqb_eq in H. now subst.
  - intros [= ->]. apply String.eqb_refl.
Qed.

Lemma try_get_lookup (d : gmap string pyval) (k : string) (dflt : pyval) :
  try_get d k dflt = default dflt (d !! k).
Proof. unfold try_get, getitem. now destruct (d !! k). Qed.

Lemma lift_getitem_Done (d : gmap string pyval) (k : string) (v : pyval) :
  lift (getitem d k) = Done v <-> d !! k = Some v.
Proof. unfold lift, getitem. destruct (d !! k); split; congruence. Qed.

Lemma lin_norm_type_cases (params : gmap string pyval) :
  eq_str (default (PyStr "unpreconditioned") (params !! "lin_norm_type")) "preconditioned"
    = true
  \/ eq_str (default (PyStr "unpreconditioned") (params !! "lin_norm_type"))
        "unpreconditioned" = true
  <-> lin_norm_type_ok params.
Proof.
  unfold lin_norm_type_ok. destruct (params !! "lin_norm_type") as [v|]; cbn.
  - change (match v with PyStr x => String.eqb x "preconditioned" | _ => false end)
      with (eq_str v "preconditioned").
    change (match v with PyStr x => String.eqb x "unpreconditioned" | _ => false end)
      with (eq_str v "unpreconditioned").
    rewrite !eq_str_true. split.
    + intros [-> | ->]; auto.
    + intros [H | [[= ->] | [= ->]]]; [discriminate | auto | auto].
  - split; auto.
Qed.

(** What a successful [set_solver_params] has stored. *)
Lemma set_solver_params_inv (params params' : gmap string pyval) (st : settings) :
  set_solver_params params = Done (st, params') ->
  lin_norm_type_ok params
  /\ (linnormtype st
      = if eq_str (default (PyStr "unpreconditioned") (params !! "lin_norm_type"))
             "preconditioned" then 1 else 2)%Z
  /\ (exists d, default (PyDict []) (params !! "indexset_options") = PyDict d
                /\ iset_options st = revert_to_defaults d)
  /\ params' = match params !! "indexset_options" with
               | Some _ => <["indexset_options" := PyDict (iset_options st)]> params
               | None => params
               end
  /\ params !! "solve_type" = Some (solvetype st)
  /\ params !! "tol_res" = Some (tolres st)
  /\ params !! "tol_inc" = Some (tolinc st)
  /\ direct_solver st = default (PyStr "mumps") (params !! "direct_solver")
  /\ iterative_solver st = default (PyStr "gmres") (params !! "iterative_solver")
  /\ precond_fields st = default (PyList []) (params !! "precond_fields")
  /\ fieldsplit_type st = default (PyStr "jacobi") (params !! "fieldsplit_type")
  /\ block_precond st = default (PyStr "fieldsplit") (params !! "block_precond")
  /\ maxiter st = default (PyNum 25) (params !! "maxiter")
  /\ print_local_iter st = default (PyBool false) (params !! "print_local_iter")
  /\ tol_res_local st = default (PyNum (1 # 10000000000)) (params !! "tol_res_local")
  /\ tol_inc_local st = default (PyNum (1 # 10000000000)) (params !! "tol_inc_local").
Proof.
  unfold set_solver_params, and_then. rewrite !try_get_lookup.
  destruct (eq_str (default (PyStr "unpreconditioned") (params !! "lin_norm_type"))
              "preconditioned") eqn:E1;
    [|destruct (eq_str (default (PyStr "unpreconditioned") (params !! "lin_norm_type"))
                 "unpreconditioned") eqn:E2; [|discriminate]].
  all: destruct (default (PyDict []) (params !! "indexset_options")) as [| | | | |d] eqn:Ed;
    try discriminate.
  all: destruct (lift (getitem params "solve_type")) as [sv|] eqn:Es; [|discriminate].
  all: destruct (lift (getitem params "tol_res")) as [tr|] eqn:Er; [|discriminate].
  all: destruct (lift (getitem params "tol_inc")) as [ti|] eqn:Ei; [|discriminate].
  all: apply lift_getitem_Done in Es, Er, Ei.
  all: intros [= <- <-]; cbn.
  all: (split; [|repeat split; eauto]).
  - apply lin_norm_type_cases. now left.
  - apply lin_norm_type_cases. now right.
Qed.

(** X14.  [set_solver_params] succeeds exactly when the norm type of the
    linear solver is one it knows (or absent), the index set options are a
    dictionary (or absent) and ['solve_type'], ['tol_res'] and ['tol_inc']
    are given.  The checks come in this order: an unknown norm type raises
    [ValueError] even when the mandatory keys are missing, index set options
    that are no dictionary raise [AttributeError], then the first missing
    one of the three keys raises its [KeyError]. *)
Theorem set_solver_params_checks (params : gmap string pyval) :
  ((exists r, set_solver_params params = Done r)
   <-> lin_norm_type_ok params /\ indexset_options_ok params
       /\ is_Some (params !! "solve_type") /\ is_Some (params !! "tol_res")
       /\ is_Some (params !! "tol_inc"))
  /\ (~ lin_norm_type_ok params -> set_solver_params params = Fail unknown_lin_norm_type)
  /\ (lin_norm_type_ok params -> ~ indexset_options_ok params ->
      set_solver_params params = Fail AttributeError)
  /\ (lin_norm_type_ok params -> indexset_options_ok params ->
      (params !! "solve_type" = None ->
         set_solver_params params = Fail (PyExn (KeyError "solve_type")))
      /\ (is_Some (params !! "solve_type") -> params !! "tol_res" = None ->
            set_solver_params params = Fail (PyExn (KeyError "tol_res")))
      /\ (is_Some (params !! "solve_type") -> is_Some (params !! "tol_res") ->
          params !! "tol_inc" = None ->
            set_solver_params params = Fail (PyExn (KeyError "tol_inc")))).
Proof.
  assert (Hlin : lin_norm_type_ok params ->
            exists z, (if eq_str (try_get params "lin_norm_type" (PyStr "unpreconditioned"))
                            "preconditioned" then Done 1%Z
                       else if eq_str (try_get params "lin_norm_type"
                                         (PyStr "unpreconditioned")) "unpreconditioned"
                            then Done 2%Z else Fail unknown_lin_norm_type) = Done z).
  { rewrite try_get_lookup. intros [-> | [-> | ->]]; cbn; eauto. }
  assert (Hnlin : ~ lin_norm_type_ok params ->
            (if eq_str (try_get params "lin_norm_type" (PyStr "unpreconditioned"))
                  "preconditioned" then Done 1%Z
             else if eq_str (try_get params "lin_norm_type"
                               (PyStr "unpreconditioned")) "unpreconditioned"
                  then Done 2%Z else Fail unknown_lin_norm_type)
            = Fail unknown_lin_norm_type).
  { clear Hlin. rewrite try_get_lookup. intros Hn.
    destruct (eq_str _ "preconditioned") eqn:E1.
    - exfalso. apply Hn, lin_norm_type_cases. now left.
    - destruct (eq_str _ "unpreconditioned") eqn:E2; [|reflexivity].
      exfalso. apply Hn, lin_norm_type_cases. now right. }
  assert (Hset : indexset_options_ok params ->
            exists d, try_get params "indexset_options" (PyDict []) = PyDict d).
  { rewrite try_get_lookup. intros [-> | [d ->]]; cbn; eauto. }
  assert (Hnset : ~ indexset_options_ok params ->
            match try_get params "indexset_options" (PyDict []) with
            | PyDict d => Done (revert_to_defaults d)
            | _ => Fail AttributeError
            end = Fail AttributeError).
  { rewrite try_get_lookup. intros Hn. unfold indexset_options_ok in Hn.
    destruct (params !! "indexset_options") as [v|]; [|tauto].
    destruct v; cbn; try reflexivity. exfalso. apply Hn. eauto. }
  split; [split|].
  - intros [[st params'] H]. apply set_solver_params_inv in H.
    destruct H as (H1 & _ & (d & Hd & _) & _ & H2 & H3 & H4 & _).
    repeat split; eauto.
    unfold indexset_options_ok.
    destruct (params !! "indexset_options") as [v|]; [|auto].
    cbn in Hd. subst. eauto.
  - intros (H1 & H2 & [sv Hs] & [tr Hr] & [ti Hi]).
    destruct (Hlin H1) as [z Hz]. destruct (Hset H2) as [d Hd].
    unfold set_solver_params, and_then. rewrite Hz, Hd.
    unfold lift, getitem. rewrite Hs, Hr, Hi. eauto.
  - split; [|split].
    + intros Hn. unfold set_solver_params, and_then. now rewrite (Hnlin Hn).
    + intros H1 Hn. destruct (Hlin H1) as [z Hz].
      unfold set_solver_params, and_then. now rewrite Hz, (Hnset Hn).
    + intros H1 H2. destruct (Hlin H1) as [z Hz]. destruct (Hset H2) as [d Hd].
      unfold set_solver_params, and_then. rewrite Hz, Hd. unfold lift, getitem.
      split; [|split].
      * now intros ->.
      * intros [sv ->] Hr. now rewrite Hr.
      * intros [sv ->] [tr ->] Hi. now rewrite Hi.
Qed.

Lemma assoc_app (k : string) (d1 d2 : list (string * pyval)) :
  assoc k (d1 ++ d2) = match assoc k d1 with
                       | Some v => Some v
                       | None => assoc k d2
                       end.
Proof.
  induction d1 as [|[k' v] d1 IH]; cbn; [reflexivity|].
  destruct (String.eqb k' k); auto.
Qed.

(** One round of [if k not in d.keys(): d[k] = False]. *)
Lemma revert_one (d : list (string * pyval)) (k0 k : string) :
  assoc k (match assoc k0 d with
           | Some _ => d
           | None => (d ++ [(k0, PyBool false)])%list
           end)
  = match assoc k d with
    | Some v => Some v
    | None => if String.eqb k0 k then Some (PyBool false) else None
    end.
Proof.
  destruct (assoc k0 d) as [v0|] eqn:E0.
  - destruct (assoc k d) eqn:E; [reflexivity|].
    destruct (String.eqb_spec k0 k); [congruence | reflexivity].
  - rewrite assoc_app. cbn. destruct (assoc k d); [reflexivity|].
    now destruct (String.eqb k0 k).
Qed.

Lemma revert_to_defaults_assoc (d : list (string * pyval)) (k : string) :
  assoc k (revert_to_defaults d)
  = match assoc k d with
    | Some v => Some v
    | None => if bool_decide (k ∈ is_option_keys) then Some (PyBool false) else None
    end.
Proof.
  unfold revert_to_defaults, is_option_keys. cbn [fold_left].
  rewrite !revert_one.
  destruct (assoc k d); [reflexivity|].
  destruct (String.eqb_spec "lms_to_p" k) as [<-|N1]; [reflexivity|].
  destruct (String.eqb_spec "lms_to_v" k) as [<-|N2]; [reflexivity|].
  destruct (String.eqb_spec "rom_to_new" k) as [<-|N3]; [reflexivity|].
  rewrite bool_decide_eq_false_2; [reflexivity|].
  rewrite !elem_of_cons, elem_of_nil. intros [->|[->|[->|[]]]]; congruence.
Qed.

(** X15.  After [set_solver_params] the index set options always answer the
    three keys ['lms_to_p'], ['lms_to_v'] and ['rom_to_new']: with what the
    user gave, and with [False] where the user gave nothing; other entries
    of the user stay.  The defaults are written into the user's own
    dictionary: the solver parameters handed in hold the completed options
    afterwards, and are otherwise unchanged. *)
Theorem index_set_options_completed_in_place (params params' : gmap string pyval)
    (st : settings) :
  set_solver_params params = Done (st, params') ->
  (forall k, k ∈ is_option_keys -> is_Some (assoc k (iset_options st)))
  /\ (forall d, params !! "indexset_options" = Some (PyDict d) ->
        (forall k, assoc k (iset_options st)
                   = match assoc k d with
                     | Some v => Some v
                     | None => if bool_decide (k ∈ is_option_keys)
                               then Some (PyBool false) else None
                     end)
        /\ params' = <["indexset_options" := PyDict (iset_options st)]> params)
  /\ (params !! "indexset_options" = None ->
        (forall k, assoc k (iset_options st)
                   = if bool_decide (k ∈ is_option_keys)
                     then Some (PyBool false) else None)
        /\ params' = params).
Proof.
  intros H. apply set_solver_params_inv in H.
  destruct H as (_ & _ & (d & Hd & Hi) & Hp & _).
  split; [|split].
  - intros k Hk. rewrite Hi, revert_to_defaults_assoc.
    destruct (assoc k d); [eauto|]. rewrite bool_decide_eq_true_2 by exact Hk. eauto.
  - intros d' Hd'. rewrite Hd' in Hd, Hp. cbn in Hd. injection Hd as <-.
    split; [|exact Hp]. intros k. now rewrite Hi, revert_to_defaults_assoc.
  - intros Hn. rewrite Hn in Hd, Hp. cbn in Hd. injection Hd as <-.
    split; [|exact Hp]. intros k. now rewrite Hi, revert_to_defaults_assoc.
Qed.

End SolverSetup.

Section Tolerances.
Import SolverNonlinear.

Lemma res_key_inj (n m : nat) : res_key n = res_key m -> n = m.
Proof.
  unfold res_key. intros H. apply String.app_inj in H.
  apply pretty_nat_inj in H. lia.
Qed.

Lemma inc_key_inj (n m : nat) : inc_key n = inc_key m -> n = m.
Proof.
  unfold inc_key. intros H. apply String.app_inj in H.
  apply pretty_nat_inj in H. lia.
Qed.

Lemma res_key_inc_key (n m : nat) : res_key n <> inc_key m.
Proof. unfold res_key, inc_key. cbn. discriminate. Qed.

Lemma fill_tolerances_frame (tr ti : pyval) (npr : nat) (ns : list nat) :
  forall d d', fill_tolerances tr ti npr ns d = Ok d' ->
    forall k, (forall n, n ∈ ns -> k <> res_key n /\ k <> inc_key n) ->
      d' !! k = d !! k.
Proof.
  induction ns as [|n ns IH]; intros d d'; cbn.
  - now intros [= <-].
  - destruct (tolerance_entry tr ti npr n) as [[r i]|]; [|discriminate].
    intros H k Hk. rewrite (IH _ _ H k).
    + destruct (Hk n) as [K1 K2]; [left|].
      rewrite lookup_insert_ne by congruence. now rewrite lookup_insert_ne by congruence.
    + intros m Hm. apply Hk. now right.
Qed.

Lemma fill_tolerances_Ok (tr ti : pyval) (npr : nat) (ns : list nat) :
  forall d d', fill_tolerances tr ti npr ns d = Ok d' -> NoDup ns ->
    forall n, n ∈ ns ->
      exists r i, tolerance_entry tr ti npr n = Ok (r, i)
                  /\ d' !! res_key n = Some r /\ d' !! inc_key n = Some i.
Proof.
  induction ns as [|n0 ns IH]; intros d d'; cbn.
  - intros _ _ n Hn. inversion Hn.
  - destruct (tolerance_entry tr ti npr n0) as [[r i]|] eqn:E; [|discriminate].
    intros H Hnd n Hn. apply NoDup_cons in Hnd as [Hnotin Hnd].
    apply elem_of_cons in Hn as [->|Hn].
    + exists r, i. split; [exact E|].
      assert (F : forall k, (k = res_key n0 \/ k = inc_key n0) ->
                    d' !! k = (<[inc_key n0:=i]> (<[res_key n0:=r]> d)) !! k).
      { intros k Hk. apply (fill_tolerances_frame _ _ _ _ _ _ H).
        intros m Hm. assert (m <> n0) by congruence.
        destruct Hk as [-> | ->]; split; intros K.
        - apply res_key_inj in K. congruence.
        - now apply res_key_inc_key in K.
        - symmetry in K. now apply res_key_inc_key in K.
        - apply inc_key_inj in K. congruence. }
      split.
      * rewrite F by auto. rewrite lookup_insert_ne
          by (intros K; symmetry in K; now apply res_key_inc_key in K).
        apply lookup_insert_eq.
      * rewrite F by auto. apply lookup_insert_eq.
    + eapply IH; eauto.
Qed.

Lemma fill_tolerances_total (tr ti : pyval) (npr : nat) (ns : list nat) :
  (forall n, n ∈ ns -> exists e, tolerance_entry tr ti npr n = Ok e) ->
  forall d, exists d', fill_tolerances tr ti npr ns d = Ok d'.
Proof.
  induction ns as [|n ns IH]; intros Hall d; cbn; [eauto|].
  destruct (Hall n) as [[r i] ->]; [left|].
  apply IH. intros m Hm. apply Hall. now right.
Qed.

Lemma tolerance_table_Ok (tr ti : pyval) (nfields : list nat) :
  forall npr ds, tolerance_table tr ti npr nfields = Ok ds ->
    length ds = length nfields
    /\ forall j nf n, nfields !! j = Some nf -> (n < nf)%nat ->
         exists d r i, ds !! j = Some d
                       /\ tolerance_entry tr ti (npr + j) n = Ok (r, i)
                       /\ d !! res_key n = Some r /\ d !! inc_key n = Some i.
Proof.
  induction nfields as [|nf0 rest IH]; intros npr ds; cbn.
  - intros [= <-]. split; [reflexivity|]. intros j nf n Hj. inversion Hj.
  - unfold bind.
    destruct (fill_tolerances tr ti npr (seq 0 nf0) ∅) as [d0|] eqn:Ef; [|discriminate].
    destruct (tolerance_table tr ti (S npr) rest) as [ds'|] eqn:Et; [|discriminate].
    intros [= <-]. destruct (IH _ _ Et) as [Hlen Hrest]. split; [cbn; lia|].
    intros [|j] nf n Hj Hn; cbn in Hj.
    + injection Hj as <-.
      destruct (fill_tolerances_Ok _ _ _ _ _ _ Ef (NoDup_seq 0 nf0) n)
        as (r & i & H1 & H2 & H3).
      { apply elem_of_seq. lia. }
      exists d0, r, i. rewrite Nat.add_0_r. auto.
    + destruct (Hrest j nf n Hj Hn) as (d & r & i & H1 & H2 & H3 & H4).
      exists d, r, i. replace (npr + S j)%nat with (S npr + j)%nat by lia. auto.
Qed.

Lemma tolerance_table_total (tr ti : pyval) (nfields : list nat) :
  forall npr,
    (forall j nf n, nfields !! j = Some nf -> (n < nf)%nat ->
       exists e, tolerance_entry tr ti (npr + j) n = Ok e) ->
    exists ds, tolerance_table tr ti npr nfields = Ok ds.
Proof.
  induction nfields as [|nf0 rest IH]; intros npr Hall; cbn; [eauto|].
  unfold bind.
  destruct (fill_tolerances_total tr ti npr (seq 0 nf0)) with (d := (∅ : gmap string pyval))
    as [d0 ->].
  { intros n Hn. apply elem_of_seq in Hn.
    specialize (Hall 0%nat nf0 n eq_refl). rewrite Nat.add_0_r in Hall.
    apply Hall. lia. }
  destruct (IH (S npr)) as [ds' ->]; [|eauto].
  intros j nf n Hj Hn. replace (S npr + j)%nat with (npr + S j)%nat by lia.
  now apply (Hall (S j) nf n).
Qed.

Lemma nth_error_is_lookup {A : Type} (l : list A) (n : nat) : nth_error l n = l !! n.
Proof. revert n. induction l as [|a l IH]; intros [|n]; cbn; auto. Qed.

(** The entry for flat lists of numbers and the first problem. *)
Lemma flat_entry (l m : list Q) (n : nat) :
  tolerance_entry (PyList (map PyNum l)) (PyList (map PyNum m)) 0 n
  = match l with
    | [] => Raise IndexError
    | _ :: _ => match l !! n, m !! n with
                | Some r, Some i => Ok (PyNum r, PyNum i)
                | _, _ => Raise IndexError
                end
    end.
Proof.
  unfold tolerance_entry, bind, py_index. cbn [is_list].
  destruct l as [|q0 l0]; [reflexivity|].
  cbn [map nth_error is_list].
  change (PyNum q0 :: map PyNum l0) with (map PyNum (q0 :: l0)).
  rewrite !nth_error_map, !nth_error_is_lookup.
  destruct ((q0 :: l0) !! n); cbn; [|reflexivity].
  destruct (m !! n); reflexivity.
Qed.

Lemma fill_tolerances_raise (tr ti : pyval) (npr : nat) (ns : list nat) :
  (forall n, n ∈ ns -> (exists e, tolerance_entry tr ti npr n = Ok e)
                       \/ tolerance_entry tr ti npr n = Raise IndexError) ->
  (exists n, n ∈ ns /\ tolerance_entry tr ti npr n = Raise IndexError) ->
  forall d, fill_tolerances tr ti npr ns d = Raise IndexError.
Proof.
  induction ns as [|n0 ns IH]; intros Hall (n & Hn & E) d.
  - inversion Hn.
  - cbn. destruct (Hall n0) as [[[r i] E0] | E0]; [left | | now rewrite E0].
    rewrite E0. apply IH.
    + intros m Hm. apply Hall. now right.
    + apply elem_of_cons in Hn as [-> | Hn]; [congruence | eauto].
Qed.

(** X16.  The table of tolerances.  When it can be built it has one
    dictionary per problem, holding for every field [n] of problem [npr]
    the residual tolerance under ['res<n+1>'] and the increment tolerance
    under ['inc<n+1>'].  Scalar tolerances always give a table and apply to
    every field of every problem, whatever the increment tolerance is.  For
    one problem and flat lists of numbers, field [n] gets the [n]-th entries,
    and a list shorter than the number of fields raises [IndexError]. *)
Theorem tolerances_per_field (tr ti : pyval) (nfields : list nat) :
  (forall ds, tolerance_table tr ti 0 nfields = Ok ds ->
     length ds = length nfields
     /\ forall npr nf n, nfields !! npr = Some nf -> (n < nf)%nat ->
          exists d r i, ds !! npr = Some d
                        /\ tolerance_entry tr ti npr n = Ok (r, i)
                        /\ d !! res_key n = Some r /\ d !! inc_key n = Some i)
  /\ (is_list tr = false ->
      exists ds, tolerance_table tr ti 0 nfields = Ok ds
        /\ forall npr nf n, nfields !! npr = Some nf -> (n < nf)%nat ->
             exists d, ds !! npr = Some d
                       /\ d !! res_key n = Some tr /\ d !! inc_key n = Some ti)
  /\ (forall (l m : list Q) (nf : nat),
        tr = PyList (map PyNum l) -> ti = PyList (map PyNum m) -> nfields = [nf] ->
        ((nf <= length l)%nat -> (nf <= length m)%nat ->
           exists d, tolerance_table tr ti 0 nfields = Ok [d]
             /\ forall n, (n < nf)%nat ->
                  d !! res_key n = PyNum <$> l !! n /\ d !! inc_key n = PyNum <$> m !! n)
        /\ ((length l < nf)%nat \/ (length m < nf)%nat ->
            tolerance_table tr ti 0 nfields = Raise IndexError)).
Proof.
  split; [|split].
  - intros ds H. apply tolerance_table_Ok in H. exact H.
  - intros Hs.
    assert (He : forall npr n, tolerance_entry tr ti npr n = Ok (tr, ti))
      by (intros; unfold tolerance_entry; now rewrite Hs).
    destruct (tolerance_table_total tr ti nfields 0%nat) as [ds Hds]; [eauto|].
    exists ds. split; [exact Hds|]. intros npr nf n Hn Hlt.
    destruct (tolerance_table_Ok _ _ _ _ _ Hds) as [_ H].
    destruct (H npr nf n Hn Hlt) as (d & r & i & H1 & H2 & H3 & H4).
    rewrite He in H2. injection H2 as <- <-. eauto.
  - intros l m nf -> -> ->. split.
    + intros Hl Hm.
      assert (He : forall n, (n < nf)%nat ->
                exists r i, l !! n = Some r /\ m !! n = Some i
                  /\ tolerance_entry (PyList (map PyNum l)) (PyList (map PyNum m)) 0 n
                     = Ok (PyNum r, PyNum i)).
      { intros n Hn.
        destruct (lookup_lt_is_Some_2 l n) as [r Hr]; [lia|].
        destruct (lookup_lt_is_Some_2 m n) as [i Hi]; [lia|].
        exists r, i. rewrite flat_entry, Hr, Hi. split; [reflexivity|].
        split; [reflexivity|]. destruct l; [discriminate | reflexivity]. }
      destruct (tolerance_table_total (PyList (map PyNum l)) (PyList (map PyNum m))
                  [nf] 0%nat) as [ds Hds].
      { intros [|j] nf' n Hj Hn; [|discriminate]. injection Hj as <-.
        destruct (He n Hn) as (r & i & _ & _ & E). cbn. eauto. }
      destruct (tolerance_table_Ok _ _ _ _ _ Hds) as [Hlen H].
      destruct ds as [|d [|? ?]]; try discriminate.
      exists d. split; [exact Hds|]. intros n Hn.
      destruct (H 0%nat nf n eq_refl Hn) as (d' & r & i & H1 & H2 & H3 & H4).
      injection H1 as <-. destruct (He n Hn) as (r' & i' & Hr & Hi & E).
      change (0 + 0)%nat with 0%nat in H2. rewrite E in H2. injection H2 as <- <-.
      rewrite Hr, Hi. auto.
    + intros Hshort. cbn. unfold bind.
      rewrite (fill_tolerances_raise (PyList (map PyNum l)) (PyList (map PyNum m))
                 0 (seq 0 nf)); [reflexivity | |].
      * intros n _. rewrite flat_entry.
        destruct l; [auto|]. destruct (_ !! n), (m !! n); eauto.
      * exists (Nat.min (length l) (length m)). split; [apply elem_of_seq; lia|].
        rewrite flat_entry. destruct l as [|q0 l0]; [reflexivity|].
        destruct (Nat.le_ge_cases (length (q0 :: l0)) (length m)) as [Hle|Hle].
        -- rewrite Nat.min_l by exact Hle.
           rewrite (lookup_ge_None_2 (q0 :: l0)) by lia. reflexivity.
        -- rewrite Nat.min_r by exact Hle.
           rewrite (lookup_ge_None_2 m) by lia. now destruct (_ !! _).
Qed.

End Tolerances.

Section SolverInit.
Import SolverNonlinear.
Local Open Scope res_scope.
Local Abbreviation eq_str := Flow0D.eq_str.
Context {Pb OdePb Vec Mat IS CP : Type}.
Context {fem : FemProblem Pb OdePb Vec IS}.
Context {ode : SolverNonlin.OdeProblem OdePb Vec Mat}.
Context {collab : SolverNonlin.Collaborators}.

Local Abbreviation fields_of := (fun p : Pb => length (fst (get_problem_var_list p))).

(** The stages of a successful [__init__]. *)
Lemma init_inv (sep : Z) (pbs : list Pb) (prm prm' : gmap string pyval)
    (cp_ : option CP) (s : solver_nonlinear (CP := CP)) :
  init sep pbs prm cp_ = Done (s, prm') ->
  SolverNonlin.check_params_solver prm = Ok tt
  /\ (exists first rest, pbs = first :: rest
        /\ (if sub_solve first
            then exists sp d sub,
                   prm' !! "subsolver_params" = Some sp
                   /\ dict_of sp = Ok d
                   /\ SolverNonlin.init [pb0 first] d = Ok sub
                   /\ subsol s = Some sub
            else subsol s = None))
  /\ set_solver_params prm = Done (params s, prm')
  /\ pb s = pbs /\ nprob s = length pbs
  /\ nfields s = map fields_of pbs
  /\ tolerance_table (tolres (params s)) (tolinc (params s)) 0 (nfields s)
     = Ok (tolerances s)
  /\ initialize_petsc_solver (params s) (nfields s) 0 pbs = Done (ksp s)
  /\ cp s = cp_.
Proof.
  unfold init, and_then.
  destruct (SolverNonlin.check_params_solver prm) as [[]|] eqn:Ec; [|discriminate].
  cbn [lift].
  destruct pbs as [|first rest]; [discriminate|].
  destruct (set_solver_params prm) as [[st prm1]|] eqn:Es; [|discriminate].
  destruct (tolerance_table (tolres st) (tolinc st) 0 _) as [tols|] eqn:Et;
    [|discriminate].
  cbn [lift].
  destruct (initialize_petsc_solver st _ 0 (first :: rest)) as [calls|] eqn:Ek;
    [|discriminate].
  destruct (sub_solve first) eqn:Esub.
  - destruct (getitem prm1 "subsolver_params") as [sp|] eqn:Eg; [|discriminate].
    cbn [lift].
    destruct (dict_of sp) as [d|] eqn:Ed; [|discriminate]. cbn [lift].
    destruct (SolverNonlin.init [pb0 first] d) as [sub|] eqn:Ei; [|discriminate].
    cbn [lift]. intros [= <- <-]. cbn.
    apply getitem_Ok in Eg.
    repeat split; auto. exists first, rest. split; [reflexivity|].
    rewrite Esub. eauto 10.
  - intros [= <- <-]. cbn. repeat split; auto.
    exists first, rest. split; [reflexivity|]. now rewrite Esub.
Qed.

(** The calls that set up a direct solver for problem [npr]. *)
Local Abbreviation direct_calls := (fun (package : pyval) (npr : nat) =>
  [Create (IS := IS) npr; SetType npr (PyStr "preonly"); PCSetType npr (PyStr "lu");
   PCSetFactorSolverType npr package]).

Lemma setup_ksp_solvetype (st : settings) (nf : list nat) (npr : nat) (p : Pb) :
  (solvetype st = PyStr "direct"
   /\ setup_ksp st nf npr p = Done (direct_calls (direct_solver st) npr))
  \/ (solvetype st = PyStr "iterative" /\ eq_str (solvetype st) "direct" = false)
  \/ (solvetype st <> PyStr "direct" /\ solvetype st <> PyStr "iterative"
      /\ setup_ksp st nf npr p = Fail unknown_solvetype).
Proof.
  unfold setup_ksp.
  destruct (eq_str (solvetype st) "direct") eqn:E1.
  - left. apply eq_str_true in E1. auto.
  - destruct (eq_str (solvetype st) "iterative") eqn:E2.
    + right; left. apply eq_str_true in E2. auto.
    + right; right. repeat split; auto; intros K; rewrite K in *; discriminate.
Qed.

Lemma initialize_petsc_solver_direct (st : settings) (nf : list nat) (pbs : list Pb) :
  solvetype st = PyStr "direct" ->
  forall npr,
    initialize_petsc_solver st nf npr pbs
    = Done (flat_map (direct_calls (direct_solver st)) (seq npr (length pbs))).
Proof.
  intros Hd. induction pbs as [|p rest IH]; intros npr; cbn [initialize_petsc_solver].
  - reflexivity.
  - destruct (setup_ksp_solvetype st nf npr p) as [[_ ->] | [[K _] | [K _]]];
      try congruence.
    unfold and_then. rewrite IH. reflexivity.
Qed.

(** Every problem of a successful set-up has had its own solver set up. *)
Lemma initialize_petsc_solver_each (st : settings) (nf : list nat) (pbs : list Pb) :
  forall npr calls,
    initialize_petsc_solver st nf npr pbs = Done calls ->
    forall i p, pbs !! i = Some p ->
      exists c, setup_ksp st nf (npr + i) p = Done c.
Proof.
  induction pbs as [|p0 rest IH]; intros npr calls; cbn [initialize_petsc_solver].
  - intros _ i p Hi. inversion Hi.
  - unfold and_then.
    destruct (setup_ksp st nf npr p0) as [c0|] eqn:E0; [|discriminate].
    destruct (initialize_petsc_solver st nf (S npr) rest) as [more|] eqn:E1;
      [|discriminate].
    intros _ [|i] p Hi; cbn in Hi.
    + injection Hi as <-. rewrite Nat.add_0_r. eauto.
    + replace (npr + S i)%nat with (S npr + i)%nat by lia. eapply IH; eauto.
Qed.

Lemma nth_fields (pbs : list Pb) (i : nat) (p : Pb) :
  pbs !! i = Some p -> nth i (map fields_of pbs) 0%nat = fields_of p.
Proof.
  revert i. induction pbs as [|p0 rest IH]; intros [|i] H; cbn in *;
    try discriminate.
  - now injection H as <-.
  - now apply IH.
Qed.

(** X17.  The solve type has to be ['direct'] or ['iterative']: no solver is
    built for any other value, and once the parameters are read the set-up
    stops with [NameError('Unknown solvetype!')].  For ['direct'] every
    problem gets the same four calls, [preonly] with an [lu] preconditioner
    of the package ['direct_solver'] (['mumps'] when not given), whatever the
    options of the iterative solvers say. *)
Theorem solve_type_direct_or_iterative (sep : Z) (pbs : list Pb)
    (prm : gmap string pyval) (cp_ : option CP) :
  (forall s prm', init sep pbs prm cp_ = Done (s, prm') ->
     (prm !! "solve_type" = Some (PyStr "direct")
      \/ prm !! "solve_type" = Some (PyStr "iterative"))
     /\ (prm !! "solve_type" = Some (PyStr "direct") ->
         ksp s = flat_map (direct_calls (default (PyStr "mumps") (prm !! "direct_solver")))
                   (seq 0 (length pbs))))
  /\ (forall st nf p rest,
        solvetype st <> PyStr "direct" -> solvetype st <> PyStr "iterative" ->
        initialize_petsc_solver st nf 0 (p :: rest) = Fail unknown_solvetype).
Proof.
  split.
  - intros s prm' H. apply init_inv in H.
    destruct H as (_ & (first & rest & -> & _) & Hs & _ & _ & Hnf & _ & Hk & _).
    apply set_solver_params_inv in Hs.
    destruct Hs as (_ & _ & _ & _ & Hst & _ & _ & Hds & _).
    split.
    + destruct (initialize_petsc_solver_each _ _ _ _ _ Hk 0%nat first eq_refl)
        as [c Hc].
      destruct (setup_ksp_solvetype (params s) (nfields s) (0 + 0) first)
        as [[K _] | [[K _] | [_ [_ K]]]]; rewrite Hst.
      * left. now rewrite K.
      * right. now rewrite K.
      * rewrite K in Hc. discriminate.
    + intros Hd. rewrite Hst in Hd. injection Hd as Hd.
      rewrite (initialize_petsc_solver_direct _ _ _ Hd) in Hk.
      injection Hk as <-. now rewrite Hds.
  - intros st nf p rest H1 H2. cbn [initialize_petsc_solver].
    destruct (setup_ksp_solvetype st nf 0 p) as [[K _] | [[K _] | [_ [_ K]]]];
      try congruence.
    now rewrite K.
Qed.

Lemma setup_ksp_schur (st : settings) (nf : list nat) (npr : nat) (p : Pb) :
  solvetype st = PyStr "iterative" ->
  block_precond st = PyStr "fieldsplit" ->
  fieldsplit_type st = PyStr "schur" ->
  (1 < nth npr nf 0)%nat ->
  setup_ksp st nf npr p = Fail AssertionError.
Proof.
  intros H1 H2 H3 H4. unfold setup_ksp, block_setup, split_type_of.
  rewrite H1, H2, H3. cbn [Flow0D.eq_str String.eqb Ascii.eqb Bool.eqb].
  apply Nat.ltb_lt in H4. rewrite H4. reflexivity.
Qed.

Lemma initialize_petsc_solver_schur (st : settings) (nf : list nat) (pbs : list Pb) :
  solvetype st = PyStr "iterative" ->
  block_precond st = PyStr "fieldsplit" ->
  fieldsplit_type st = PyStr "schur" ->
  forall npr,
    (exists i p, pbs !! i = Some p /\ (1 < nth (npr + i) nf 0)%nat) ->
    forall calls, initialize_petsc_solver st nf npr pbs <> Done calls.
Proof.
  intros H1 H2 H3 npr (i & p & Hi & Hlt) calls Hk.
  destruct (initialize_petsc_solver_each _ _ _ _ _ Hk i p Hi) as [c Hc].
  rewrite (setup_ksp_schur _ _ _ _ H1 H2 H3 Hlt) in Hc. discriminate.
Qed.

(** X18.  The Schur field split can never be set up.  With an iterative
    solve, the field split preconditioner (the default block preconditioner)
    and ['fieldsplit_type'] ['schur'], no solver is built as soon as one
    problem has more than one field: the assertion [self.nfields==2]
    compares the list of field counts with a number, so it fails for every
    list, two fields included, and the set-up of such a problem ends with
    [AssertionError]. *)
Theorem schur_split_is_never_set_up (sep : Z) (pbs : list Pb)
    (prm : gmap string pyval) (cp_ : option CP) :
  prm !! "solve_type" = Some (PyStr "iterative") ->
  prm !! "fieldsplit_type" = Some (PyStr "schur") ->
  (prm !! "block_precond" = None \/ prm !! "block_precond" = Some (PyStr "fieldsplit")) ->
  (exists p, p ∈ pbs /\ (1 < fields_of p)%nat) ->
  (forall r, init sep pbs prm cp_ <> Done r)
  /\ (forall st prm' p rest,
        pbs = p :: rest -> (1 < fields_of p)%nat ->
        set_solver_params prm = Done (st, prm') ->
        initialize_petsc_solver st (map fields_of pbs) 0 pbs = Fail AssertionError).
Proof.
  intros Hst Hfs Hbp (p & Hp & Hlt).
  assert (Hset : forall st prm', set_solver_params prm = Done (st, prm') ->
            solvetype st = PyStr "iterative" /\ block_precond st = PyStr "fieldsplit"
            /\ fieldsplit_type st = PyStr "schur").
  { intros st prm' Hs. apply set_solver_params_inv in Hs.
    destruct Hs as (_ & _ & _ & _ & H1 & _ & _ & _ & _ & _ & H2 & H3 & _).
    rewrite Hst in H1. injection H1 as <-. rewrite H2, H3, Hfs.
    destruct Hbp as [-> | ->]; auto. }
  split.
  - intros [s prm'] H. apply init_inv in H.
    destruct H as (_ & _ & Hs & _ & _ & Hnf & _ & Hk & _).
    destruct (Hset _ _ Hs) as (H1 & H2 & H3).
    apply list_elem_of_lookup_1 in Hp as [i Hi].
    apply (initialize_petsc_solver_schur _ _ _ H1 H2 H3 0%nat) in Hk; [exact Hk|].
    exists i, p. split; [exact Hi|]. rewrite Hnf. cbn. now rewrite (nth_fields _ _ _ Hi).
  - intros st prm' p0 rest -> Hlt0 Hs. destruct (Hset _ _ Hs) as (H1 & H2 & H3).
    cbn [initialize_petsc_solver].
    rewrite (setup_ksp_schur _ _ _ _ H1 H2 H3); [reflexivity|]. exact Hlt0.
Qed.

(** The set-up of an iterative solver for a problem with one field. *)
Lemma setup_ksp_single (st : settings) (nf : list nat) (npr : nat) (p : Pb) :
  solvetype st = PyStr "iterative" ->
  (nth npr nf 0 <= 1)%nat ->
  setup_ksp st nf npr p
  = match py_index (precond_fields st) 0 with
    | Ok first =>
      if eq_str first "amg" then
        Done [Create npr; SetInitialGuessNonzero npr false;
              SetNormType npr (linnormtype st);
              PCSetType npr (PyStr "hypre"); PCSetMGLevels npr 3;
              PCSetHYPREType npr "boomeramg";
              SetTolerances npr (tol_lin_rel st) (tol_lin_abs st) (maxliniter st);
              SetMonitor npr;
              OptionsSetValue "-ksp_gmres_modifiedgramschmidt" true;
              SetFromOptions npr]
      else Fail unknown_single_precond
    | Raise e => Fail (PyExn e)
    end.
Proof.
  intros H1 H2. unfold setup_ksp. rewrite H1.
  cbn [Flow0D.eq_str String.eqb Ascii.eqb Bool.eqb].
  assert (E : (1 <? nth npr nf 0)%nat = false) by (apply Nat.ltb_ge; exact H2).
  rewrite E. unfold and_then, lift.
  destruct (py_index (precond_fields st) 0) as [first|e]; [|reflexivity].
  destruct (eq_str first "amg"); reflexivity.
Qed.

(** X19.  An iterative solver for a problem with a single field is built
    only when the first entry of ['precond_fields'] is ['amg']; it then gets
    a [hypre] preconditioner with three levels and [boomeramg] and the
    tolerances of the linear solve, and its solver type is never set:
    ['iterative_solver'] is not used for such a problem.  With the default
    (no ['precond_fields']) the set-up of such a problem raises [IndexError],
    with any other first entry [ValueError]. *)
Theorem single_field_iterative_needs_amg (sep : Z) (pbs : list Pb)
    (prm : gmap string pyval) (cp_ : option CP) :
  (forall s prm', init sep pbs prm cp_ = Done (s, prm') ->
     prm !! "solve_type" = Some (PyStr "iterative") ->
     (exists p, p ∈ pbs /\ (fields_of p <= 1)%nat) ->
     exists pf, prm !! "precond_fields" = Some pf /\ py_index pf 0 = Ok (PyStr "amg"))
  /\ (forall st nf npr p,
        solvetype st = PyStr "iterative" -> (nth npr nf 0 <= 1)%nat ->
        (precond_fields st = PyList [] ->
           setup_ksp st nf npr p = Fail (PyExn IndexError))
        /\ (forall first, py_index (precond_fields st) 0 = Ok first ->
              first <> PyStr "amg" ->
              setup_ksp st nf npr p = Fail unknown_single_precond)
        /\ (py_index (precond_fields st) 0 = Ok (PyStr "amg") ->
            setup_ksp st nf npr p
            = Done [Create npr; SetInitialGuessNonzero npr false;
                    SetNormType npr (linnormtype st);
                    PCSetType npr (PyStr "hypre"); PCSetMGLevels npr 3;
                    PCSetHYPREType npr "boomeramg";
                    SetTolerances npr (tol_lin_rel st) (tol_lin_abs st) (maxliniter st);
                    SetMonitor npr;
                    OptionsSetValue "-ksp_gmres_modifiedgramschmidt" true;
                    SetFromOptions npr])).
Proof.
  split.
  - intros s prm' H Hst (p & Hp & Hle). apply init_inv in H.
    destruct H as (_ & _ & Hs & _ & _ & Hnf & _ & Hk & _).
    apply set_solver_params_inv in Hs.
    destruct Hs as (_ & _ & _ & _ & H1 & _ & _ & _ & _ & Hpf & _).
    rewrite Hst in H1. injection H1 as H1. symmetry in H1.
    apply list_elem_of_lookup_1 in Hp as [i Hi].
    destruct (initialize_petsc_solver_each _ _ _ _ _ Hk i p Hi) as [c Hc].
    rewrite setup_ksp_single in Hc;
      [|exact H1 | rewrite Hnf; cbn; now rewrite (nth_fields _ _ _ Hi)].
    destruct (py_index (precond_fields (params s)) 0) as [first|] eqn:Ef;
      [|discriminate].
    destruct (eq_str first "amg") eqn:Ea; [|discriminate].
    apply eq_str_true in Ea. subst first. rewrite Hpf in Ef.
    destruct (prm !! "precond_fields") as [pf|]; [eauto|].
    cbn in Ef. discriminate.
  - intros st nf npr p H1 H2. rewrite (setup_ksp_single _ _ _ _ H1 H2).
    split; [|split].
    + now intros ->.
    + intros first -> Hne. destruct (eq_str first "amg") eqn:Ea; [|reflexivity].
      apply eq_str_true in Ea. contradiction.
    + now intros ->.
Qed.

(** X20.  The sub-solver.  When the first problem asks for a sub-solve, the
    solver holds an ODE Newton solver built from the ODE problem [pb0] of the
    first problem and the dictionary under ['subsolver_params'], which
    therefore has to be there and to carry its own ['tol_res'] and
    ['tol_inc']; the tolerances of the outer solver are not handed down.
    Without a sub-solve there is no sub-solver, and ['subsolver_params'] is
    not looked at. *)
Theorem sub_solver_from_its_own_parameters (sep : Z) (pbs : list Pb)
    (prm prm' : gmap string pyval) (cp_ : option CP) (s : solver_nonlinear (CP := CP)) :
  init sep pbs prm cp_ = Done (s, prm') ->
  exists first rest, pbs = first :: rest
    /\ (sub_solve first = true ->
          exists kv sub,
            prm !! "subsolver_params" = Some (PyDict kv)
            /\ SolverNonlin.init [pb0 first] (list_to_map kv) = Ok sub
            /\ subsol s = Some sub
            /\ SolverNonlin.pb sub = pb0 first
            /\ (list_to_map kv : gmap string pyval) !! "tol_res"
               = Some (SolverNonlin.tolres sub)
            /\ (list_to_map kv : gmap string pyval) !! "tol_inc"
               = Some (SolverNonlin.tolinc sub))
    /\ (sub_solve first = false -> subsol s = None).
Proof.
  intros H. apply init_inv in H.
  destruct H as (_ & (first & rest & -> & Hsub) & Hs & _).
  exists first, rest. split; [reflexivity|].
  destruct (sub_solve first); split; try discriminate; auto.
  intros _. destruct Hsub as (sp & d & sub & Hg & Hd & Hi & Hsol).
  apply set_solver_params_inv in Hs. destruct Hs as (_ & _ & _ & Hp & _).
  assert (Hg' : prm !! "subsolver_params" = Some sp).
  { rewrite Hp in Hg. destruct (prm !! "indexset_options"); [|exact Hg].
    now rewrite lookup_insert_ne in Hg by discriminate. }
  destruct sp; try discriminate. cbn in Hd. injection Hd as <-.
  exists kv, sub. repeat split; auto.
  all: revert Hi; unfold SolverNonlin.init, bind;
    destruct (SolverNonlin.check_params_solver _) as [[]|]; try discriminate;
    destruct (getitem _ "tol_res") as [tr|] eqn:Er; try discriminate;
    destruct (getitem _ "tol_inc") as [ti|] eqn:Ei; try discriminate;
    intros [= <-]; cbn; auto; now apply getitem_Ok.
Qed.

End SolverInit.

(** ** The local Newton *)

Section LocalNewtonFacts.
Import SolverNonlinear.
Context {Vec Mat : Type} {petsc : SolverNonlin.Petsc Vec Mat}.
Context (norm_inf : Vec -> Q) (st : settings) (forms : list (local_form Vec)).

Local Abbreviation passes := (after_passes norm_inf forms).
Local Abbreviation prints :=
  (fun n : nat => if Flow0D.truthy (print_local_iter st) then n else 0%nat).

Lemma after_passes_first (var var1 : list Vec) (r1 i1 : Q) :
  local_pass norm_inf forms var = (None, var1, r1, i1) ->
  passes 1 var = Some (var1, r1, i1).
Proof. intros H. cbn. now rewrite H. Qed.

Lemma after_passes_shift (var var1 : list Vec) (r1 i1 : Q) (k : nat) :
  local_pass norm_inf forms var = (None, var1, r1, i1) ->
  passes (S (S k)) var = passes (S k) var1.
Proof.
  intros H. induction k as [|k IH].
  - cbn. now rewrite H.
  - change (passes (S (S (S k))) var)
      with (match passes (S (S k)) var with
            | Some (var', _, _) =>
              match local_pass norm_inf forms var' with
              | (None, var'', res_sum, inc_sum) => Some (var'', res_sum, inc_sum)
              | (Some _, _, _, _) => None
              end
            | None => None
            end).
    rewrite IH. reflexivity.
Qed.

Lemma after_passes_raise (var var1 : list Vec) (e : exn) (r1 i1 : Q) (k : nat) :
  local_pass norm_inf forms var = (Some e, var1, r1, i1) ->
  passes (S k) var = None.
Proof.
  intros H. induction k as [|k IH].
  - cbn. now rewrite H.
  - change (passes (S (S k)) var)
      with (match passes (S k) var with
            | Some (var', _, _) =>
              match local_pass norm_inf forms var' with
              | (None, var'', res_sum, inc_sum) => Some (var'', res_sum, inc_sum)
              | (Some _, _, _, _) => None
              end
            | None => None
            end).
    now rewrite IH.
Qed.

Lemma local_while_first_success (n : nat) :
  forall (left : nat) (it : Z) (var var_n : list Vec) (log : list local_event)
         (rs ic : Q),
    (1 <= n <= left)%nat ->
    passes n var = Some (var_n, rs, ic) ->
    (forall j v r i, (1 <= j < n)%nat -> passes j var = Some (v, r, i) ->
       local_converged st r i = Ok false) ->
    local_converged st rs ic = Ok true ->
    exists log', local_while norm_inf st forms left it var log = (Ok tt, var_n, log')
                 /\ length log' = (length log + prints n)%nat.
Proof.
  induction n as [|n IH]; intros left it var var_n log rs ic Hn Hp Hfail Hok; [lia|].
  destruct left as [|left]; [lia|]. cbn [local_while].
  destruct (local_pass norm_inf forms var) as [[[[e|] var1] r1] i1] eqn:E1.
  - rewrite (after_passes_raise _ _ _ _ _ n E1) in Hp. discriminate.
  - destruct n as [|n].
    + rewrite (after_passes_first _ _ _ _ E1) in Hp. injection Hp as <- <- <-.
      rewrite Hok. eexists. split; [reflexivity|].
      rewrite length_app. now destruct (Flow0D.truthy _).
    + rewrite (after_passes_shift _ _ _ _ n E1) in Hp.
      rewrite (Hfail 1%nat var1 r1 i1);
        [|lia | now apply after_passes_first].
      destruct (IH left (it + 1)%Z var1 var_n
                  (log ++ (if Flow0D.truthy (print_local_iter st)
                           then [PrintLocalIter it r1 i1] else []))%list rs ic)
        as (log' & Hl & Hlen); auto; [lia| |].
      * intros j v r i Hj Hpj. apply (Hfail (S j) v r i); [lia|].
        destruct j as [|j]; [lia|]. now rewrite (after_passes_shift _ _ _ _ j E1).
      * exists log'. split; [exact Hl|]. rewrite Hlen, length_app.
        destruct (Flow0D.truthy _); cbn; lia.
Qed.

Lemma local_while_exhausted (left : nat) :
  forall (it : Z) (var : list Vec) (log : list local_event),
    (forall j, (j <= left)%nat -> is_Some (passes j var)) ->
    (forall j v r i, (1 <= j <= left)%nat -> passes j var = Some (v, r, i) ->
       local_converged st r i = Ok false) ->
    exists var' r i log',
      passes left var = Some (var', r, i)
      /\ local_while norm_inf st forms left it var log
         = (Raise (RuntimeError local_newton_fmt (it + Z.of_nat left)), var', log')
      /\ length log' = (length log + prints left)%nat.
Proof.
  induction left as [|left IH]; intros it var log Hall Hfail.
  - cbn. do 3 eexists. exists log. split; [reflexivity|].
    rewrite Z.add_0_r. split; [reflexivity|]. destruct (Flow0D.truthy _); lia.
  - cbn [local_while].
    destruct (local_pass norm_inf forms var) as [[[[e|] var1] r1] i1] eqn:E1.
    + destruct (Hall 1%nat) as [x Hx]; [lia|].
      rewrite (after_passes_raise _ _ _ _ _ 0 E1) in Hx. discriminate.
    + rewrite (Hfail 1%nat var1 r1 i1); [|lia | now apply after_passes_first].
      destruct (IH (it + 1)%Z var1
                  (log ++ (if Flow0D.truthy (print_local_iter st)
                           then [PrintLocalIter it r1 i1] else []))%list)
        as (var' & r & i & log' & Hp & Hl & Hlen).
      * intros [|j] Hj; [cbn; eauto|].
        rewrite <- (after_passes_shift _ _ _ _ j E1). apply Hall. lia.
      * intros j v r i Hj Hpj. apply (Hfail (S j) v r i); [lia|].
        destruct j as [|j]; [lia|]. now rewrite (after_passes_shift _ _ _ _ j E1).
      * destruct left as [|left].
        -- cbn in Hp. injection Hp as <- _ _.
           exists var1, r1, i1, log'. split; [now apply after_passes_first|].
           split; [rewrite Hl;
                   replace (it + 1 + Z.of_nat 0)%Z with (it + Z.of_nat 1)%Z by lia;
                   reflexivity|].
           rewrite Hlen, length_app. destruct (Flow0D.truthy _); cbn; lia.
        -- exists var', r, i, log'.
           split; [now rewrite (after_passes_shift _ _ _ _ left E1)|].
           split; [rewrite Hl;
                   replace (it + 1 + Z.of_nat (S left))%Z
                     with (it + Z.of_nat (S (S left)))%Z by lia;
                   reflexivity|].
           rewrite Hlen, length_app. destruct (Flow0D.truthy _); cbn; lia.
Qed.

(** X21.  The local Newton stops at the first pass after which the summed
    residual norm and the summed increment norm are both within their local
    tolerances, bounds included: it returns normally with the variables as
    that pass left them, having printed one line per pass when printing is
    on, also when that is the last pass [maxiter_local] allows. *)
Theorem newton_local_stops_at_first_success (var var_n : list Vec) (maxiter_local : Z)
    (n : nat) (rs ic : Q) :
  (1 <= n)%nat -> (Z.of_nat n <= maxiter_local)%Z ->
  passes n var = Some (var_n, rs, ic) ->
  (forall j v r i, (1 <= j < n)%nat -> passes j var = Some (v, r, i) ->
     local_converged st r i = Ok false) ->
  local_converged st rs ic = Ok true ->
  (exists log, newton_local norm_inf st var forms maxiter_local = (Ok tt, var_n, log)
               /\ length log = prints n)
  /\ (forall tr ti, num_of (tol_res_local st) = Some tr ->
        num_of (tol_inc_local st) = Some ti -> (rs <= tr)%Q /\ (ic <= ti)%Q).
Proof.
  intros Hn Hm Hp Hfail Hok. split.
  - unfold newton_local.
    destruct (local_while_first_success n (Z.to_nat maxiter_local) 0 var var_n [] rs ic)
      as (log & Hl & Hlen); auto; [lia|].
    exists log. split; [exact Hl | exact Hlen].
  - intros tr ti Hr Hi. revert Hok. unfold local_converged, bind, le_tol.
    rewrite Hr, Hi. destruct (Qle_bool rs tr) eqn:E1; [|discriminate].
    intros [= E2]. split; now apply Qle_bool_iff.
Qed.

(** X22.  When no pass brings both summed norms within the local
    tolerances, the local Newton makes exactly [maxiter_local] passes and
    raises [RuntimeError] reporting that many iterations, with the variables
    as the last pass left them.  With [maxiter_local <= 0] it makes no pass
    at all: it raises at once, reporting 0 iterations, and the variables are
    untouched. *)
Theorem newton_local_exhausted (var : list Vec) (maxiter_local : Z) :
  (forall j, (j <= Z.to_nat maxiter_local)%nat -> is_Some (passes j var)) ->
  (forall j v r i, (1 <= j <= Z.to_nat maxiter_local)%nat ->
     passes j var = Some (v, r, i) -> local_converged st r i = Ok false) ->
  (exists var' r i log,
     passes (Z.to_nat maxiter_local) var = Some (var', r, i)
     /\ newton_local norm_inf st var forms maxiter_local
        = (Raise (RuntimeError local_newton_fmt (Z.max 0 maxiter_local)), var', log)
     /\ length log = prints (Z.to_nat maxiter_local))
  /\ ((maxiter_local <= 0)%Z ->
      newton_local norm_inf st var forms maxiter_local
      = (Raise (RuntimeError local_newton_fmt 0), var, [])).
Proof.
  intros Hall Hfail. split.
  - unfold newton_local.
    destruct (local_while_exhausted (Z.to_nat maxiter_local) 0 var [] Hall Hfail)
      as (var' & r & i & log & Hp & Hl & Hlen).
    exists var', r, i, log. split; [exact Hp|]. split; [|exact Hlen].
    rewrite Hl. replace (0 + Z.of_nat (Z.to_nat maxiter_local))%Z
      with (Z.max 0 maxiter_local) by lia. reflexivity.
  - intros Hle. unfold newton_local.
    replace (Z.to_nat maxiter_local) with 0%nat by lia. reflexivity.
Qed.

End LocalNewtonFacts.

Section SolverNonlinearExamples.
Import SolverNonlinear.

Local Abbreviation one_field := {| tf_fields := 1; tf_sub := false |}.
Local Abbreviation two_fields := {| tf_fields := 2; tf_sub := false |}.
Local Abbreviation with_ode := {| tf_fields := 1; tf_sub := true |}.

(** The user sets one index set option; the other two are filled in, in the
    user's dictionary. *)
Lemma index_set_options_completed_in_place_witness :
  match set_solver_params
          (<["indexset_options" := PyDict [("lms_to_v", PyBool true)]]> direct_params) with
  | Done (st, prm') =>
    iset_options st = [("lms_to_v", PyBool true); ("lms_to_p", PyBool false);
                       ("rom_to_new", PyBool false)]
    /\ prm' = <["indexset_options" := PyDict (iset_options st)]>
               (<["indexset_options" := PyDict [("lms_to_v", PyBool true)]]> direct_params)
  | Fail _ => False
  end.
Proof.
  destruct (set_solver_params
              (<["indexset_options" := PyDict [("lms_to_v", PyBool true)]]> direct_params))
    as [[st prm']|e] eqn:E; [|vm_compute in E; discriminate].
  destruct (index_set_options_completed_in_place _ _ _ E) as (_ & H & _).
  destruct (H [("lms_to_v", PyBool true)]) as [_ Hp]; [vm_compute; reflexivity|].
  split; [|exact Hp].
  vm_compute in E. injection E as <- _. reflexivity.
Defined.

(** Two fields and a Schur split: no solver, but an [AssertionError]. *)
Lemma schur_split_is_never_set_up_witness :
  toy_init [two_fields] (<["fieldsplit_type" := PyStr "schur"]> iterative_params)
  = Fail AssertionError.
Proof.
  destruct (toy_init [two_fields]
              (<["fieldsplit_type" := PyStr "schur"]> iterative_params)) as [r|e] eqn:E.
  - exfalso. revert E.
    apply (schur_split_is_never_set_up (fem := toy_fem)
             (ode := SolverNonlin.scalar_problem)
             (collab := SolverNonlin.spec_collaborators) 86 [two_fields]
             (<["fieldsplit_type" := PyStr "schur"]> iterative_params) None).
    + vm_compute. reflexivity.
    + vm_compute. reflexivity.
    + left. vm_compute. reflexivity.
    + exists two_fields. split; [apply list_elem_of_here | cbn; lia].
  - vm_compute in E. injection E as <-. reflexivity.
Defined.

Lemma sub_solver_from_its_own_parameters_witness :
  match toy_init [with_ode]
          (<["subsolver_params" := PyDict [("tol_res", PyNum (1 # 1000));
                                           ("tol_inc", PyNum (1 # 100))]]> direct_params) with
  | Done (s, _) =>
    exists sub, subsol s = Some sub
                /\ SolverNonlin.tolres sub = PyNum (1 # 1000)
                /\ SolverNonlin.tolinc sub = PyNum (1 # 100)
                /\ tolres (params s) = PyNum (1 # 100000000)
  | Fail _ => False
  end.
Proof.
  destruct (toy_init [with_ode] _) as [[s prm']|e] eqn:E;
    [|vm_compute in E; discriminate].
  unfold toy_init in E.
  destruct (sub_solver_from_its_own_parameters (fem := toy_fem)
              (ode := SolverNonlin.scalar_problem)
              (collab := SolverNonlin.spec_collaborators) _ _ _ _ _ _ E)
    as (first & rest & Hp & Hsub & _).
  injection Hp as <- <-.
  destruct Hsub as (kv & sub & Hkv & _ & Hs & _ & Hr & Hi); [reflexivity|].
  vm_compute in Hkv. injection Hkv as <-.
  exists sub. split; [exact Hs|].
  vm_compute in Hr, Hi. injection Hr as Hr. injection Hi as Hi.
  split; [symmetry; exact Hr|]. split; [symmetry; exact Hi|].
  vm_compute in E. injection E as <- _. reflexivity.
Defined.

(** Halving the distance to 1 with tolerance 1/4: the second pass leaves
    both norms at exactly 1/4, and that counts. *)
Lemma newton_local_stops_at_first_success_witness :
  exists log, toy_newton_local (1 # 4) 20 = (Ok tt, [3 # 4], log) /\ length log = 2%nat.
Proof.
  apply (newton_local_stops_at_first_success (petsc := SolverNonlin.scalar_petsc)
           Qabs (local_settings (1 # 4)) [halving_form] [0%Q] [3 # 4] 20 2
           (1 # 4) (1 # 4)).
  - lia.
  - lia.
  - vm_compute. reflexivity.
  - intros j v r i Hj. assert (j = 1%nat) as -> by lia.
    vm_compute. intros [= <- <- <-]. reflexivity.
  - vm_compute. reflexivity.
Defined.

(** The same with tolerance 1/100 and three passes allowed: not enough. *)
Lemma newton_local_exhausted_witness :
  exists var' r i log,
    after_passes (petsc := SolverNonlin.scalar_petsc) Qabs [halving_form] 3 [0%Q]
    = Some (var', r, i)
    /\ toy_newton_local (1 # 100) 3
       = (Raise (RuntimeError local_newton_fmt 3), var', log)
    /\ length log = 3%nat.
Proof.
  apply (newton_local_exhausted (petsc := SolverNonlin.scalar_petsc)
           Qabs (local_settings (1 # 100)) [halving_form] [0%Q] 3).
  - intros j Hj.
    assert (j = 0 \/ j = 1 \/ j = 2 \/ j = 3)%nat
      as [-> | [-> | [-> | ->]]] by (change (Z.to_nat 3) with 3%nat in Hj; lia);
      vm_compute; eauto.
  - intros j v r i Hj.
    assert (j = 1 \/ j = 2 \/ j = 3)%nat
      as [-> | [-> | ->]] by (change (Z.to_nat 3) with 3%nat in Hj; lia);
      vm_compute; intros [= <- <- <-]; reflexivity.
Defined.

End SolverNonlinearExamples.

(** ** Multiscale growth and remodeling *)

Section MultiscaleModels.
Import SolverNonlinear Multiscale.
Local Open Scope res_scope.

Local Abbreviation dict := (list (string * pyval)).

Lemma assoc_dict_set_eq (k : string) (v : pyval) (d : dict) :
  assoc k (dict_set k v d) = Some v.
Proof.
  induction d as [|[k' v'] d IH]; cbn.
  - now rewrite String.eqb_refl.
  - destruct (String.eqb k' k) eqn:E; cbn.
    + now rewrite String.eqb_refl.
    + now rewrite E.
Qed.

Lemma assoc_dict_set_ne (k k0 : string) (v : pyval) (d : dict) :
  k0 <> k -> assoc k0 (dict_set k v d) = assoc k0 d.
Proof.
  intros Hne. induction d as [|[k' v'] d IH]; cbn.
  - destruct (String.eqb_spec k k0); [congruence | reflexivity].
  - destruct (String.eqb_spec k' k) as [->|N]; cbn.
    + destruct (String.eqb_spec k k0); [congruence | reflexivity].
    + destruct (String.eqb k' k0); [reflexivity | exact IH].
Qed.


Lemma assoc_dict_remove_ne (k k0 : string) (d : dict) :
  k0 <> k -> assoc k0 (dict_remove k d) = assoc k0 d.
Proof.
  intros Hne. unfold dict_remove. induction d as [|[k' v'] d IH]; cbn; [reflexivity|].
  destruct (String.eqb_spec k' k) as [->|N]; cbn.
  - destruct (String.eqb_spec k k0); [congruence | exact IH].
  - destruct (String.eqb k' k0); [reflexivity | exact IH].
Qed.

Lemma mat_key_inj (n m : nat) : mat_key n = mat_key m -> n = m.
Proof.
  unfold mat_key. intros H. apply String.app_inj in H.
  apply pretty_nat_inj in H. lia.
Qed.

Lemma py_key_dict (v : pyval) (k : string) (x : pyval) :
  py_key v k = Ok x <-> exists d, v = PyDict d /\ assoc k d = Some x.
Proof.
  split.
  - destruct v; cbn; try discriminate.
    destruct (assoc k kv) eqn:E; intros [= <-]. eauto.
  - intros (d0 & -> & H). cbn. now rewrite H.
Qed.

(** The small scale version of a material: the growth trigger is
    prescribed, the user's trigger is kept aside. *)
Local Abbreviation small_material m g trig :=
  (dict_set "growth"
     (PyDict (dict_set "growth_settrig" trig
                (dict_set "growth_trig" (PyStr "prescribed_multiscale") g))) m).

Lemma set_growth_small_inv (n : nat) (cm cm' : dict) :
  set_growth_small n cm = Ok cm' ->
  exists m g trig,
    assoc (mat_key n) cm = Some (PyDict m)
    /\ assoc "growth" m = Some (PyDict g)
    /\ assoc "growth_trig" g = Some trig
    /\ cm' = dict_set (mat_key n) (PyDict (small_material m g trig)) cm.
Proof.
  unfold set_growth_small, bind.
  destruct (py_key (PyDict cm) (mat_key n)) as [mat|] eqn:E1; [|discriminate].
  destruct (py_key mat "growth") as [growth|] eqn:E2; [|discriminate].
  destruct (py_key growth "growth_trig") as [trig|] eqn:E3; [|discriminate].
  apply py_key_dict in E1 as (d1 & [= <-] & H1).
  apply py_key_dict in E2 as (m & -> & H2).
  apply py_key_dict in E3 as (g & -> & H3).
  intros [= <-]. exists m, g, trig. auto.
Qed.

Lemma small_loop_inv (ns : list nat) :
  forall cm cm', small_loop ns cm = Ok cm' -> NoDup ns ->
    (forall n, n ∈ ns ->
       exists m g trig,
         assoc (mat_key n) cm = Some (PyDict m)
         /\ assoc "growth" m = Some (PyDict g)
         /\ assoc "growth_trig" g = Some trig
         /\ assoc (mat_key n) cm' = Some (PyDict (small_material m g trig)))
    /\ (forall k, (forall n, n ∈ ns -> k <> mat_key n) -> assoc k cm' = assoc k cm).
Proof.
  induction ns as [|n0 ns IH]; intros cm cm'; cbn.
  - intros [= <-] _. split; [intros n Hn; inversion Hn | auto].
  - unfold bind. destruct (set_growth_small n0 cm) as [cm1|] eqn:E; [|discriminate].
    intros H Hnd. apply NoDup_cons in Hnd as [Hnotin Hnd].
    destruct (IH _ _ H Hnd) as [I1 I2].
    apply set_growth_small_inv in E as (m0 & g0 & t0 & A1 & A2 & A3 & ->).
    split.
    + intros n Hn. apply elem_of_cons in Hn as [-> | Hn].
      * exists m0, g0, t0. repeat split; auto.
        rewrite I2; [apply assoc_dict_set_eq|].
        intros n Hn K. apply mat_key_inj in K. congruence.
      * destruct (I1 n Hn) as (m & g & t & B1 & B2 & B3 & B4).
        exists m, g, t. repeat split; auto.
        rewrite assoc_dict_set_ne in B1; [exact B1|].
        intros K. apply mat_key_inj in K. congruence.
    + intros k Hk. rewrite I2 by (intros n Hn; apply Hk; now right).
      apply assoc_dict_set_ne. apply Hk. now left.
Qed.

(** The large scale version of a material: the dynamics go when there is
    inertia, the active stresses are marked as prescribed, the fibre stress
    first. *)
Local Abbreviation without_dynamics m :=
  (match assoc "inertia" m with
   | Some _ =>
     match assoc "rayleigh_damping" (dict_remove "inertia" m) with
     | Some _ => dict_remove "rayleigh_damping" (dict_remove "inertia" m)
     | None => dict_remove "inertia" m
     end
   | None => m%list
   end).

Local Abbreviation large_material m := (prescribe_active (without_dynamics m%list)).


Lemma without_dynamics_other (m : dict) (k : string) :
  k <> "inertia" -> k <> "rayleigh_damping" ->
  assoc k (without_dynamics m) = assoc k m.
Proof.
  intros H1 H2. destruct (assoc "inertia" m); [|reflexivity].
  destruct (assoc "rayleigh_damping" _);
    rewrite ?assoc_dict_remove_ne by congruence; reflexivity.
Qed.

Lemma set_large_inv (n : nat) (large : dict) (m : dict) :
  assoc (mat_key n) large = Some (PyDict m) ->
  is_Some (assoc "growth" m) ->
  set_large n large = Done (dict_set (mat_key n) (PyDict (large_material m)) large).
Proof.
  intros Hm [g Hg].
  assert (Hr : remove_dynamics n large
               = match assoc "inertia" m with
                 | Some _ => dict_set (mat_key n) (PyDict (without_dynamics m)) large
                 | None => large
                 end).
  { unfold remove_dynamics, dict_pop. cbn [py_key]. rewrite Hm.
    destruct (assoc "inertia" m); [|reflexivity].
    destruct (assoc "rayleigh_damping" (dict_remove "inertia" m)); reflexivity. }
  unfold set_large. rewrite Hr.
  assert (Hg' : assoc "growth" (without_dynamics m) = Some g)
    by (rewrite without_dynamics_other by discriminate; exact Hg).
  destruct (assoc "inertia" m) eqn:Ei; cbn [py_key lift and_then].
  - rewrite assoc_dict_set_eq. cbn [lift and_then]. rewrite Hg'.
    f_equal. clear. induction large as [|[k v] d IH]; cbn.
    + now rewrite String.eqb_refl.
    + destruct (String.eqb k (mat_key n)) eqn:E; cbn.
      * now rewrite String.eqb_refl.
      * rewrite E. now rewrite IH.
  - rewrite Hm. cbn [lift and_then]. rewrite Hg. reflexivity.
Qed.

Lemma large_loop_inv (ns : list nat) :
  forall large,
    NoDup ns ->
    (forall n, n ∈ ns -> exists m, assoc (mat_key n) large = Some (PyDict m)
                                   /\ is_Some (assoc "growth" m)) ->
    exists large',
      large_loop ns large = Done large'
      /\ (forall n m, n ∈ ns -> assoc (mat_key n) large = Some (PyDict m) ->
            assoc (mat_key n) large' = Some (PyDict (large_material m)))
      /\ (forall k, (forall n, n ∈ ns -> k <> mat_key n) ->
            assoc k large' = assoc k large).
Proof.
  induction ns as [|n0 ns IH]; intros large Hnd Hall; cbn.
  - exists large. split; [reflexivity|]. split; [intros n m Hn; inversion Hn | auto].
  - apply NoDup_cons in Hnd as [Hnotin Hnd].
    destruct (Hall n0) as (m0 & Hm0 & Hg0); [left|].
    rewrite (set_large_inv _ _ _ Hm0 Hg0). cbn [and_then].
    destruct (IH (dict_set (mat_key n0) (PyDict (large_material m0)) large) Hnd)
      as (large' & Hl & I1 & I2).
    { intros n Hn. destruct (Hall n) as (m & Hm & Hg); [now right|].
      exists m. split; [|exact Hg]. rewrite assoc_dict_set_ne; [exact Hm|].
      intros K. apply mat_key_inj in K. congruence. }
    exists large'. split; [exact Hl|]. split.
    + intros n m Hn Hm. apply elem_of_cons in Hn as [-> | Hn].
      * rewrite I2 by (intros n Hn K; apply mat_key_inj in K; congruence).
        rewrite assoc_dict_set_eq.
        assert (m0 = m) as -> by congruence. reflexivity.
      * apply I1; [exact Hn|]. rewrite assoc_dict_set_ne; [exact Hm|].
        intros K. apply mat_key_inj in K. congruence.
    + intros k Hk. rewrite I2 by (intros n Hn; apply Hk; now right).
      apply assoc_dict_set_ne. apply Hk. now left.
Qed.


(** The large scale models are built whenever the small scale ones are. *)
Lemma split_models_large (cm sm : dict) :
  small_loop (seq 0 (length cm)) cm = Ok sm ->
  exists lg,
    large_loop (seq 0 (length cm)) cm = Done lg
    /\ forall n m, (n < length cm)%nat -> assoc (mat_key n) cm = Some (PyDict m) ->
         assoc (mat_key n) lg = Some (PyDict (large_material m)).
Proof.
  intros Es.
  destruct (small_loop_inv _ _ _ Es (NoDup_seq 0 (length cm))) as [S1 _].
  destruct (large_loop_inv (seq 0 (length cm)) cm (NoDup_seq 0 (length cm)))
    as (lg & Hl & L1 & _).
  { intros n Hn. destruct (S1 n Hn) as (m & g & t & B1 & B2 & _). eauto. }
  exists lg. split; [exact Hl|]. intros n m Hn Hm. apply L1; [|exact Hm].
  apply elem_of_seq. lia.
Qed.


(** X25.  The assertion that every material has a growth law never fires:
    building the models of the two scales fails only with the exception the
    small scale loop raises when it reads the growth trigger.  A first
    material without a growth law gives [KeyError('growth')], and materials
    that are not called ['MAT1'], ['MAT2'], ... give the [KeyError] of the
    missing name. *)
Theorem growth_assertion_never_fires (cm : dict) :
  ((exists r, split_models cm = Done r)
   \/ (exists e, small_loop (seq 0 (length cm)) cm = Raise e
                 /\ split_models cm = Fail (PyExn e)))
  /\ (forall m, assoc (mat_key 0) cm = Some (PyDict m) -> assoc "growth" m = None ->
        split_models cm = Fail (PyExn (KeyError "growth")))
  /\ (cm <> [] -> assoc (mat_key 0) cm = None ->
      split_models cm = Fail (PyExn (KeyError "MAT1"))).
Proof.
  split; [|split].
  - unfold split_models, and_then.
    destruct (small_loop (seq 0 (length cm)) cm) as [sm|e] eqn:Es; cbn [lift].
    + left. destruct (split_models_large _ _ Es) as (lg & -> & _). eauto.
    + right. eauto.
  - intros m Hm Hg. unfold split_models, and_then.
    destruct cm as [|kv cm']; [discriminate|].
    cbn [length seq small_loop]. unfold bind, set_growth_small, bind.
    cbn [py_key]. rewrite Hm. cbn [py_key]. rewrite Hg. reflexivity.
  - intros Hne Hm. unfold split_models, and_then.
    destruct cm as [|kv cm']; [congruence|].
    cbn [length seq small_loop]. unfold bind, set_growth_small, bind.
    cbn [py_key]. rewrite Hm. reflexivity.
Qed.

End MultiscaleModels.

Section MultiscaleProblem.
Import SolverNonlinear Multiscale.
Local Open Scope res_scope.
Context {Small Large : Type} {scales : Scales Small Large}.

(** X26.  What a multiscale problem holds, and the order of its checks.
    A problem is only built for a large scale time integration ['static']
    and a trigger phase ['end_diastole'] or ['end_systole'], whose set point
    is the end-diastolic or end-systolic time of the 0D model; the
    periodicity tolerance of the small scale is overridden by ['tol_small'],
    the large scale never prestresses, and restart cycle and restart flag
    default to 0 and [False].  A large scale that is not static fails the
    assertion before any problem object is made; an unknown trigger phase is
    only reported last, after both problems have been built, so that an
    exception of the small scale problem class comes first. *)
Theorem multiscale_problem_checks (inp : inputs) (cm : list (string * pyval))
    (msp : gmap string pyval) :
  (forall pb, Problem_init inp cm msp = Done pb ->
     time_params_solid_large inp !! "timint" = Some (PyStr "static")
     /\ (msp !! "gandr_trigger_phase" = Some (PyStr "end_diastole")
           /\ t_gandr_setpoint pb = small_t_ed (pbsmall pb)
         \/ msp !! "gandr_trigger_phase" = Some (PyStr "end_systole")
            /\ t_gandr_setpoint pb = small_t_es (pbsmall pb))
     /\ split_models cm
        = Done (constitutive_models_small pb, constitutive_models_large pb)
     /\ SolidmechanicsFlow0DProblem inp (constitutive_models_small pb) = Ok (pbsmall pb)
     /\ SolidmechanicsProblem inp (constitutive_models_large pb) = Ok (pblarge pb)
     /\ msp !! "tol_small" = Some (small_eps_periodic pb)
     /\ msp !! "tol_large" = Some (large_tol_stop_large pb)
     /\ msp !! "tol_outer" = Some (tol_outer pb)
     /\ msp !! "numcycles" = Some (N_cycles pb)
     /\ restart_cycle pb = default (PyNum 0) (msp !! "restart_cycle")
     /\ restart_from_small pb = default (PyBool false) (msp !! "restart_from_small")
     /\ large_prestress_initial pb = PyBool false
     /\ simname_small pb = small_simname (pbsmall pb) ++ "_small"
     /\ simname_large pb = large_simname (pblarge pb) ++ "_large")
  /\ (forall models timint,
        is_Some (msp !! "gandr_trigger_phase") -> is_Some (msp !! "numcycles") ->
        split_models cm = Done models ->
        time_params_solid_large inp !! "timint" = Some timint ->
        timint <> PyStr "static" ->
        Problem_init inp cm msp = Fail AssertionError)
  /\ (forall phase sm lg,
        msp !! "gandr_trigger_phase" = Some phase ->
        phase <> PyStr "end_diastole" -> phase <> PyStr "end_systole" ->
        is_Some (msp !! "numcycles") ->
        split_models cm = Done (sm, lg) ->
        time_params_solid_large inp !! "timint" = Some (PyStr "static") ->
        (forall e, SolidmechanicsFlow0DProblem inp sm = Raise e ->
           Problem_init inp cm msp = Fail (PyExn e))
        /\ (forall pbs pbl,
              SolidmechanicsFlow0DProblem inp sm = Ok pbs ->
              SolidmechanicsProblem inp lg = Ok pbl ->
              is_Some (msp !! "tol_small") -> is_Some (msp !! "tol_large") ->
              is_Some (msp !! "tol_outer") ->
              Problem_init inp cm msp = Fail unknown_trigger_phase)).
Proof.
  split; [|split].
  - intros pb. unfold Problem_init, and_then.
    destruct (getitem msp "gandr_trigger_phase") as [phase|] eqn:Ep; [|discriminate].
    destruct (getitem msp "numcycles") as [nc|] eqn:En; [|discriminate].
    cbn [lift]. destruct (split_models cm) as [[sm lg]|]; [|discriminate].
    destruct (getitem (time_params_solid_large inp) "timint") as [ti|] eqn:Et;
      [|discriminate].
    cbn [lift]. destruct (Flow0D.eq_str ti "static") eqn:Es; [|discriminate].
    cbn [negb].
    destruct (SolidmechanicsFlow0DProblem inp sm) as [pbs|] eqn:E1; [|discriminate].
    cbn [lift].
    destruct (SolidmechanicsProblem inp lg) as [pbl|] eqn:E2; [|discriminate].
    cbn [lift].
    destruct (getitem msp "tol_small") as [ts|] eqn:T1; [|discriminate].
    destruct (getitem msp "tol_large") as [tl|] eqn:T2; [|discriminate].
    destruct (getitem msp "tol_outer") as [to|] eqn:T3; [|discriminate].
    cbn [lift].
    apply getitem_Ok in Ep, En, Et, T1, T2, T3.
    apply eq_str_true in Es. subst ti.
    rewrite !try_get_lookup.
    destruct (Flow0D.eq_str phase "end_diastole") eqn:P1;
      [|destruct (Flow0D.eq_str phase "end_systole") eqn:P2; [|discriminate]].
    + apply eq_str_true in P1. subst phase. intros [= <-]. cbn.
      repeat split; auto.
    + apply eq_str_true in P2. subst phase. intros [= <-]. cbn.
      repeat split; auto.
  - intros models timint [ph Hp] [nc Hn] Hs Ht Hne.
    unfold Problem_init, and_then, lift, getitem. rewrite Hp, Hn, Hs.
    destruct models as [sm lg]. rewrite Ht.
    destruct (Flow0D.eq_str timint "static") eqn:Es; [|reflexivity].
    apply eq_str_true in Es. contradiction.
  - intros phase sm lg Hp N1 N2 [nc Hn] Hs Ht.
    unfold Problem_init, and_then, lift, getitem. rewrite Hp, Hn, Hs, Ht.
    cbn [Flow0D.eq_str String.eqb Ascii.eqb Bool.eqb negb]. split.
    + now intros e ->.
    + intros pbs pbl -> -> [ts ->] [tl ->] [to ->].
      destruct (Flow0D.eq_str phase "end_diastole") eqn:P1;
        [apply eq_str_true in P1; contradiction|].
      destruct (Flow0D.eq_str phase "end_systole") eqn:P2;
        [apply eq_str_true in P2; contradiction|].
      reflexivity.
Qed.

End MultiscaleProblem.

Section MultiscaleLoop.
Import SolverNonlinear Multiscale.
Context {St : Type} {transfer : Transfer St}.
Context (sn_small sn_large : string) (rc : Z) (tol : pyval).

Local Abbreviation pass := (cycle_pass sn_small sn_large rc tol).
Local Abbreviation loop := (outer_loop sn_small sn_large rc tol).

Lemma small_solves_app (l1 l2 : list ms_event) :
  small_solves (l1 ++ l2) = (small_solves l1 ++ small_solves l2)%list.
Proof. apply omap_app. Qed.

Lemma small_restarts_app (l1 l2 : list ms_event) :
  small_restarts (l1 ++ l2) = (small_restarts l1 ++ small_restarts l2)%list.
Proof. apply omap_app. Qed.

Lemma large_solves_app (l1 l2 : list ms_event) :
  large_solves (l1 ++ l2) = (large_solves l1 ++ large_solves l2)%list.
Proof. apply omap_app. Qed.

Lemma volchanges_app (l1 l2 : list ms_event) :
  volchanges (l1 ++ l2) = (volchanges l1 ++ volchanges l2)%list.
Proof. apply omap_app. Qed.

(** What a pass that runs to its end adds to the log, and how it ends. *)
Lemma cycle_pass_completed (N : Z) (r r' : run St) (go_on : bool) :
  pass N r = (if go_on then Flow0D.Next r' else Flow0D.Break r') ->
  exists extra v,
    log r' = (log r ++ extra)%list
    /\ volchanges extra = [v]
    /\ le_tol (Qabs v) tol = Ok (negb go_on)
    /\ large_solves extra = [N]
    /\ small_solves extra = (if from_small r then [] else [N])
    /\ small_restarts extra = (if from_small r then [rc + 1] else [])
    /\ from_small r' = false.
Proof.
  unfold cycle_pass.
  destruct (from_small r) eqn:Ef; cbn [negb].
  - destruct (solve_large _) as [st4|]; [|destruct go_on; discriminate].
    destruct (Qeq_bool _ 0); [destruct go_on; discriminate|].
    destruct (le_tol _ tol) as [[|]|] eqn:El; destruct go_on; try discriminate;
      intros [= <-]; cbn [log from_small]; rewrite <- !app_assoc;
      eexists _, _; (split; [reflexivity|]);
      (split; [reflexivity|]); (split; [exact El|]); repeat split.
  - destruct (solve_small _) as [st2|]; [|destruct go_on; discriminate].
    destruct (solve_large _) as [st4|]; [|destruct go_on; discriminate].
    destruct (Qeq_bool _ 0); [destruct go_on; discriminate|].
    destruct (le_tol _ tol) as [[|]|] eqn:El; destruct go_on; try discriminate;
      intros [= <-]; cbn [log from_small]; rewrite <- !app_assoc;
      eexists _, _; (split; [reflexivity|]);
      (split; [reflexivity|]); (split; [exact El|]); repeat split.
Qed.

(** The cycles of a loop that ends without exception. *)
Lemma outer_loop_cycles (n : nat) :
  forall (a : Z) (r r' : run St),
    loop (seqZ a (Z.of_nat n)) r = (None, r') ->
    exists (k : nat) (vs : list Q),
      (k <= n)%nat /\ length vs = k
      /\ volchanges (log r') = (volchanges (log r) ++ vs)%list
      /\ large_solves (log r') = (large_solves (log r) ++ seqZ a (Z.of_nat k))%list
      /\ (forall i v, vs !! i = Some v -> (S i < k)%nat ->
            le_tol (Qabs v) tol = Ok false)
      /\ ((k < n)%nat -> exists v, last vs = Some v /\ le_tol (Qabs v) tol = Ok true)
      /\ small_solves (log r')
         = (small_solves (log r)
            ++ (if from_small r then seqZ (a + 1) (Z.of_nat k - 1)
                else seqZ a (Z.of_nat k)))%list
      /\ small_restarts (log r')
         = (small_restarts (log r)
            ++ (if from_small r && (0 <? k)%nat then [(rc + 1)%Z] else []))%list
      /\ from_small r' = (if (0 <? k)%nat then false else from_small r).
Proof.
  induction n as [|n IH]; intros a r r'.
  - cbn. intros [= <-]. exists 0%nat, []. cbn. rewrite !app_nil_r.
    split; [lia|]. split; [reflexivity|]. split; [reflexivity|].
    split; [reflexivity|]. split; [intros i v Hi; inversion Hi|].
    split; [lia|]. split; [now destruct (from_small r); cbn; rewrite app_nil_r|].
    split; [now rewrite andb_false_r, app_nil_r | reflexivity].
  - rewrite seqZ_S. cbn [outer_loop].
    destruct (pass a r) as [r1|r1|e r1] eqn:Ep; [| |discriminate].
    + intros Hl.
      destruct (cycle_pass_completed a r r1 true Ep)
        as (extra & v & H1 & H2 & H3 & H4 & H5 & H6 & H7).
      destruct (IH _ _ _ Hl) as (k & vs & K1 & K2 & K3 & K4 & K5 & K6 & K7 & K8 & K9).
      rewrite H7 in K7, K8, K9. cbn [andb] in K8.
      exists (S k), (v :: vs). split; [lia|]. split; [cbn; lia|].
      rewrite K3, K4, K7, K8, H1, volchanges_app, large_solves_app, small_solves_app,
        small_restarts_app, H2, H4, H5, H6, <- !app_assoc.
      split; [reflexivity|]. split; [now rewrite seqZ_S|]. split.
      { intros [|i] v' Hi Hlt; cbn in Hi.
        - injection Hi as <-. exact H3.
        - apply (K5 i v' Hi). lia. }
      split.
      { intros Hlt. destruct K6 as (v' & Hv' & Hle); [lia|].
        exists v'. split; [|exact Hle].
        destruct vs as [|v0 vs0]; [discriminate|]. exact Hv'. }
      split.
      { destruct (from_small r); cbn [app].
        - do 2 f_equal. lia.
        - now rewrite seqZ_S. }
      split; [now destruct (from_small r); rewrite ?app_nil_r|].
      rewrite K9. now destruct (0 <? k)%nat.
    + intros [= <-].
      destruct (cycle_pass_completed a r r1 false Ep)
        as (extra & v & H1 & H2 & H3 & H4 & H5 & H6 & H7).
      exists 1%nat, [v]. split; [lia|]. split; [reflexivity|].
      rewrite H1, volchanges_app, large_solves_app, small_solves_app,
        small_restarts_app, H2, H4, H5, H6.
      split; [reflexivity|]. split; [reflexivity|]. split.
      { intros i v' _ Hlt. lia. }
      split; [intros _; exists v; split; [reflexivity | exact H3]|].
      split; [now destruct (from_small r)|].
      split; [now destruct (from_small r) | exact H7].
Qed.

End MultiscaleLoop.

Section MultiscaleRun.
Import SolverNonlinear Multiscale.
Context {St : Type} {transfer : Transfer St} {Small Large : Type}.

(** A run that ends without exception, in terms of its loop. *)
Lemma solve_problem_None (pb : problem Small Large) (st : St) (r : run St) :
  solve_problem pb st = (None, r) ->
  exists rc nc,
    as_int (restart_cycle pb) = Ok rc /\ as_int (N_cycles pb) = Ok nc
    /\ outer_loop (simname_small pb) (simname_large pb) rc (tol_outer pb)
         (seqZ (rc + 1) (Z.of_nat (Z.to_nat (nc - rc))))
         {| state := st; from_small := Flow0D.truthy (restart_from_small pb); log := [] |}
       = (None, r).
Proof.
  unfold solve_problem.
  destruct (as_int (restart_cycle pb)) as [rc|]; [|destruct (as_int _); discriminate].
  destruct (as_int (N_cycles pb)) as [nc|]; [|discriminate].
  intros H. exists rc, nc. split; [reflexivity|]. split; [reflexivity|].
  destruct (Z_le_gt_dec (nc - rc) 0) as [Hn|Hn].
  - rewrite seqZ_nil in H by lia. replace (Z.to_nat (nc - rc)) with 0%nat by lia.
    exact H.
  - rewrite Z2Nat.id by lia. exact H.
Qed.

(** X27.  The outer loop ends at the first cycle whose relative volume
    change is within ['tol_outer'], the bound included, or after the last of
    the [numcycles] cycles.  In a run that ends without exception the large
    scale was solved for the cycles [restart_cycle+1], [restart_cycle+2],
    ... in order, every cycle but the last had a volume change beyond the
    tolerance, and when cycles were left over the last change was within
    it. *)
Theorem outer_loop_stops_at_small_volume_change (pb : problem Small Large) (st : St)
    (r : run St) (rc nc : Z) :
  as_int (restart_cycle pb) = Ok rc ->
  as_int (N_cycles pb) = Ok nc ->
  solve_problem pb st = (None, r) ->
  (Z.of_nat (length (volchanges (log r))) <= Z.max 0 (nc - rc))%Z
  /\ large_solves (log r) = seqZ (rc + 1) (Z.of_nat (length (volchanges (log r))))
  /\ (forall i v, volchanges (log r) !! i = Some v ->
        (S i < length (volchanges (log r)))%nat ->
        le_tol (Qabs v) (tol_outer pb) = Ok false)
  /\ ((Z.of_nat (length (volchanges (log r))) < nc - rc)%Z ->
      exists v, last (volchanges (log r)) = Some v
                /\ le_tol (Qabs v) (tol_outer pb) = Ok true).
Proof.
  intros Hrc Hnc H. apply solve_problem_None in H.
  destruct H as (rc' & nc' & Hrc' & Hnc' & H).
  rewrite Hrc in Hrc'. rewrite Hnc in Hnc'. injection Hrc' as <-. injection Hnc' as <-.
  apply outer_loop_cycles in H.
  destruct H as (k & vs & K1 & K2 & K3 & K4 & K5 & K6 & _).
  cbn in K3, K4. subst vs. rewrite K2 in *.
  split; [lia|]. split; [exact K4|]. split; [exact K5|].
  intros Hlt. apply K6. lia.
Qed.

(** X28.  Restarting from the small scale only affects the first cycle of a
    run.  In a run that ends without exception after at least one cycle, the
    small scale was solved in every cycle when the flag was off; with the
    flag on, the first cycle read the checkpoint of cycle [restart_cycle+1]
    instead, exactly once, every later cycle solved the small scale again,
    and the flag is off afterwards. *)
Theorem restart_from_small_skips_one_solve (pb : problem Small Large) (st : St)
    (r : run St) (rc : Z) :
  as_int (restart_cycle pb) = Ok rc ->
  solve_problem pb st = (None, r) ->
  large_solves (log r) <> [] ->
  from_small r = false
  /\ (Flow0D.truthy (restart_from_small pb) = false ->
      small_solves (log r) = large_solves (log r) /\ small_restarts (log r) = [])
  /\ (Flow0D.truthy (restart_from_small pb) = true ->
      small_solves (log r) = tail (large_solves (log r))
      /\ small_restarts (log r) = [(rc + 1)%Z]).
Proof.
  intros Hrc H Hne. apply solve_problem_None in H.
  destruct H as (rc' & nc & Hrc' & _ & H).
  rewrite Hrc in Hrc'. injection Hrc' as <-.
  apply outer_loop_cycles in H.
  destruct H as (k & vs & _ & _ & _ & K4 & _ & _ & K7 & K8 & K9).
  cbn in K4, K7, K8, K9. rewrite K4 in *.
  destruct k as [|k]; [now cbn in Hne|]. clear Hne.
  cbn [Nat.ltb Nat.leb] in K8, K9. rewrite andb_true_r in K8.
  split; [exact K9|]. split.
  - intros Hf. rewrite Hf in K7, K8. auto.
  - intros Hf. rewrite Hf in K7, K8. split; [|exact K8].
    rewrite K7, seqZ_S. cbn [tail]. f_equal. lia.
Qed.

End MultiscaleRun.

Section MultiscaleExamples.
Import SolverNonlinear Multiscale.



Local Abbreviation toy_run_of msp :=
  (match toy_problem msp with
   | Done pb => Some (pb, solve_problem (transfer := toy_transfer) pb (1, 1 # 2)%Q)
   | Fail _ => None
   end).

(** Growth halves from cycle to cycle; with tolerance 1/4 the second cycle,
    whose volume change is exactly 1/4, is the last. *)
Lemma outer_loop_stops_at_small_volume_change_witness :
  match toy_run_of toy_multiscale_params with
  | Some (pb, (None, r)) =>
    large_solves (log r) = [1; 2]%Z
    /\ exists v, last (volchanges (log r)) = Some v
                 /\ le_tol (Qabs v) (tol_outer pb) = Ok true
  | _ => False
  end.
Proof.
  destruct (toy_problem toy_multiscale_params) as [pb|e] eqn:E;
    [|vm_compute in E; discriminate].
  destruct (solve_problem (transfer := toy_transfer) pb (1, 1 # 2)%Q) as [err r] eqn:R.
  vm_compute in E. injection E as <-.
  destruct err as [e|]; [vm_compute in R; discriminate|].
  match type of R with
  | solve_problem ?p ?s = _ =>
    destruct (outer_loop_stops_at_small_volume_change (transfer := toy_transfer)
                p s r 0 10 eq_refl eq_refl R) as (_ & H2 & _ & H4)
  end.
  pose proof R as R'. vm_compute in R'. injection R' as <-.
  split; [exact H2|]. apply H4. vm_compute. reflexivity.
Defined.

(** With the restart flag the first cycle reads checkpoint 1 and the small
    scale is solved from cycle 2 on. *)
Lemma restart_from_small_skips_one_solve_witness :
  match toy_run_of (<["restart_from_small" := PyBool true]> toy_multiscale_params) with
  | Some (pb, (None, r)) =>
    from_small r = false
    /\ small_solves (log r) = [2]%Z /\ small_restarts (log r) = [1]%Z
  | _ => False
  end.
Proof.
  destruct (toy_problem (<["restart_from_small" := PyBool true]> toy_multiscale_params))
    as [pb|e] eqn:E; [|vm_compute in E; discriminate].
  destruct (solve_problem (transfer := toy_transfer) pb (1, 1 # 2)%Q) as [err r] eqn:R.
  vm_compute in E. injection E as <-.
  destruct err as [e|]; [vm_compute in R; discriminate|].
  match type of R with
  | solve_problem ?p ?s = _ =>
    destruct (restart_from_small_skips_one_solve (transfer := toy_transfer)
                p s r 0 eq_refl R) as (H1 & _ & H3)
  end.
  - pose proof R as R'. vm_compute in R'. injection R' as <-. discriminate.
  - destruct (H3 eq_refl) as [H4 H5].
    pose proof R as R'. vm_compute in R'. injection R' as <-.
    split; [exact H1|]. split; [exact H4 | exact H5].
Defined.

End MultiscaleExamples.

(** ** The bleeding demo: parameters and initial conditions *)

Section BleedParameters.
Import BleedData.

Local Abbreviation value := Flow0D.lookup_num.

Ltac by_key k Hk :=
  cbv zeta; unfold Flow0D.lookup_num; cbn [List.find fst];
  repeat match goal with
  | |- context [String.eqb ?key k] =>
    destruct (String.eqb_spec key k) as [<-|?];
      [first [reflexivity | exfalso; apply Hk; cbn; tauto]|]
  end;
  reflexivity.

(** X29.  Bleeding changes the systemic and pulmonary resistances,
    impedance and compliances of [param], and nothing else: every other
    entry, all eight elastances included, is the same with and without
    bleeding, the factor computed for the elastances being overwritten
    before it is used.  The resistances grow by the factor 1.49, the
    compliances shrink by it, so that the Windkessel time constants stay.
    The initial conditions differ in the two systemic pressures only. *)
Theorem bleeding_changes_resistances_only :
  (forall k, ~ In k bleed_sensitive -> value (param true) k = value (param false) k)
  /\ (forall k, In k ["R_ar_sys"; "Z_ar_sys"; "R_ar_pul"; "R_ven_sys"; "R_ven_pul"] ->
        exists r r', value (param true) k = Some r /\ value (param false) k = Some r'
                     /\ (r == (149 # 100) * r')%Q)
  /\ (forall k, In k ["C_ar_sys"; "C_ar_pul"; "C_ven_sys"; "C_ven_pul"] ->
        exists c c', value (param true) k = Some c /\ value (param false) k = Some c'
                     /\ ((149 # 100) * c == c')%Q)
  /\ (forall bleed, exists r c r' c',
        value (param bleed) "R_ar_sys" = Some r /\ value (param bleed) "C_ar_sys" = Some c
        /\ value (param bleed) "R_ar_pul" = Some r'
        /\ value (param bleed) "C_ar_pul" = Some c'
        /\ (r * c == 10311433159 # 10000000000)%Q /\ (r' * c' == 3 # 10)%Q)
  /\ (forall k, k <> "p_ar_sys_0" -> k <> "p_ven_sys_0" ->
        value (init true) k = value (init false) k).
Proof.
  split; [|split; [|split; [|split]]].
  - intros k Hk. unfold param. by_key k Hk.
  - intros k Hk. cbn in Hk.
    repeat (destruct Hk as [<-|Hk];
            [eexists _, _; split; [reflexivity|]; split; [reflexivity|];
             vm_compute; reflexivity|]).
    destruct Hk.
  - intros k Hk. cbn in Hk.
    repeat (destruct Hk as [<-|Hk];
            [eexists _, _; split; [reflexivity|]; split; [reflexivity|];
             vm_compute; reflexivity|]).
    destruct Hk.
  - intros [|]; eexists _, _, _, _; repeat (split; [reflexivity|]);
      split; vm_compute; reflexivity.
  - intros k H1 H2.
    assert (Hk : ~ In k ["p_ar_sys_0"; "p_ven_sys_0"]) by (cbn; intuition congruence).
    unfold init. by_key k Hk.
Qed.

End BleedParameters.

(** ** The load curve of the arterial segment test *)

Section RampCurve.
Import ArtsegTest.
Local Open Scope R_scope.

Lemma tc1_before (t : R) :
  t < t_ramp -> tc1 t = - (1 - cos (PI * t / 2)) / 2.
Proof.
  intros H. unfold tc1, as_float, t_ramp, p0, pinfl in *.
  destruct (Rlt_dec t 2) as [_|N]; [|contradiction].
  destruct (Rge_dec t 2) as [G|_]; [lra|]. lra.
Qed.

Lemma tc1_after (t : R) : t_ramp <= t -> tc1 t = -1.
Proof.
  intros H. unfold tc1, as_float, t_ramp, p0, pinfl in *.
  destruct (Rlt_dec t 2) as [L|_]; [lra|].
  destruct (Rge_dec t 2) as [_|N]; [lra | lra].
Qed.

(** X30.  The inflation pressure of the arterial segment test starts at 0,
    follows half a cosine wave down during the ramp, [tc1 t = -(1 -
    cos(pi t / 2)) / 2] for [t < 2], arrives at -1 without a jump and stays
    there from [t = 2] on; it never leaves [[-1, 0]], also for negative
    times, and never rises while time runs from 0 on. *)
Theorem ramp_curve :
  tc1 0 = 0
  /\ (forall t, t < t_ramp -> tc1 t = - (1 - cos (PI * t / 2)) / 2)
  /\ (forall t, t_ramp <= t -> tc1 t = - pinfl)
  /\ - (1 - cos (PI * t_ramp / 2)) / 2 = - pinfl
  /\ (forall t, - pinfl <= tc1 t <= 0)
  /\ (forall t1 t2, 0 <= t1 -> t1 <= t2 -> tc1 t2 <= tc1 t1).
Proof.
  assert (Hb : forall t, -1 <= tc1 t <= 0).
  { intros t. destruct (Rlt_le_dec t t_ramp) as [H|H].
    - rewrite (tc1_before t H). pose proof (COS_bound (PI * t / 2)). lra.
    - rewrite (tc1_after t H). lra. }
  split; [|split; [|split; [|split; [|split]]]].
  - rewrite tc1_before by (unfold t_ramp; lra).
    replace (PI * 0 / 2) with 0 by lra. rewrite cos_0. lra.
  - exact tc1_before.
  - intros t H. rewrite (tc1_after t H). unfold pinfl. lra.
  - unfold t_ramp, pinfl. replace (PI * 2 / 2) with PI by lra. rewrite cos_PI. lra.
  - unfold pinfl. exact Hb.
  - intros t1 t2 H0 H12. destruct (Rlt_le_dec t2 t_ramp) as [H2|H2].
    + assert (H1 : t1 < t_ramp) by lra.
      rewrite (tc1_before t1 H1), (tc1_before t2 H2).
      pose proof PI_RGT_0 as Hpi. unfold t_ramp in *.
      assert (cos (PI * t2 / 2) <= cos (PI * t1 / 2)).
      { apply cos_decr_1; nra. }
      lra.
    + rewrite (tc1_after t2 H2). apply Hb.
Qed.

End RampCurve.
